(** * quant-macro: HP-filter business-cycle scripts and growth accounting

  A shallow embedding of the three scripts of the repository

  - [midterm1-4,5.py]: Spain/Japan comparison of HP-filtered log GDP,
  - [project1.py]: sensitivity of the HP filter to its smoothing parameter,
  - [midterm2.py]: growth accounting on synthetic data,

  over exact rational arithmetic ([Q]): a Python float is read as the
  rational it denotes, and a floating-point result that is not a number of
  its own (inf, nan) is the separate outcome [NonFinite]. *)

From Stdlib Require Import QArith Qabs Qround Lqa Lia List ZArith Bool String.
From stdpp Require Import gmap strings.
Import ListNotations.
Open Scope Q_scope.

(** ** Outcomes of a Python computation *)

Module Py.

(** The exceptions a run can end with.  [ValueError] and [IndexError] are
    the built-in ones the libraries raise; the other four are the error
    kinds of the specification (Python's own name for the last one is
    ZeroDivisionError).  No statement of the three scripts raises or
    defines any of those four. *)
Inductive exn : Type :=
| ValueError
| IndexError
| InsufficientDataError
| EmptyIntersectionError
| MisalignedSeriesError
| DivisionByZeroError.

(** [Ok a]: the computation returns [a].  [Raise e]: it is aborted by the
    exception [e].  [NonFinite]: it goes on without an exception, but with
    an IEEE value that is no rational number (inf or nan). *)
Inductive outcome (A : Type) : Type :=
| Ok (a : A)
| Raise (e : exn)
| NonFinite.

Arguments Ok {A} a.
Arguments Raise {A} e.
Arguments NonFinite {A}.

Definition bind {A B : Type} (m : outcome A) (k : A -> outcome B) : outcome B :=
  match m with
  | Ok a => k a
  | Raise e => Raise e
  | NonFinite => NonFinite
  end.

(** The run ends with the exception [e]. *)
Definition raises {A : Type} (m : outcome A) (e : exn) : Prop := m = Raise e.

#[global] Instance outcome_ret : MRet outcome := @Ok.
#[global] Instance outcome_bind : MBind outcome := fun A B k m => bind m k.

(** NumPy's scalar division [a / b] on float64 operands: a zero divisor
    gives inf or nan under a RuntimeWarning, never an exception. *)
Definition np_divide (a b : Q) : outcome Q :=
  if Qeq_bool b 0 then NonFinite else Ok (a / b).

(** [a > b] on floats. *)
Definition gt (a b : Q) : bool := negb (Qle_bool a b).

End Py.

Import Py.

(** ** Dense vectors and matrices over the rationals *)

Module LinAlg.

Definition vec := list Q.
Definition matrix := list (list Q).

Fixpoint dot (u v : vec) : Q :=
  match u, v with
  | a :: u', b :: v' => a * b + dot u' v'
  | _, _ => 0
  end.

Fixpoint vadd (u v : vec) : vec :=
  match u, v with
  | a :: u', b :: v' => (a + b) :: vadd u' v'
  | _, _ => []
  end.

Fixpoint vsub (u v : vec) : vec :=
  match u, v with
  | a :: u', b :: v' => (a - b) :: vsub u' v'
  | _, _ => []
  end.

Definition vscale (c : Q) (v : vec) : vec := map (Qmult c) v.

Definition zeros (n : nat) : vec := repeat 0 n.

(** Squared Euclidean norm. *)
Definition sqnorm (v : vec) : Q := dot v v.

Definition matvec (M : matrix) (v : vec) : vec := map (fun r => dot r v) M.

Fixpoint conscol (c : vec) (M : matrix) : matrix :=
  match c, M with
  | a :: c', r :: M' => (a :: r) :: conscol c' M'
  | _, _ => []
  end.

(** Transpose of a matrix with [n] columns (the column count is an
    argument so that a matrix without rows still has a shape). *)
Fixpoint transpose (n : nat) (M : matrix) : matrix :=
  match M with
  | [] => repeat [] n
  | r :: M' => conscol r (transpose n M')
  end.

(** [matmul n A B] is the product [A.dot(B)] for [B] with [n] columns. *)
Definition matmul (n : nat) (A B : matrix) : matrix :=
  map (fun r => matvec (transpose n B) r) A.

Fixpoint madd (A B : matrix) : matrix :=
  match A, B with
  | r :: A', s :: B' => vadd r s :: madd A' B'
  | _, _ => []
  end.

Definition mscale (c : Q) (A : matrix) : matrix := map (vscale c) A.

(** A matrix given by its entries, [rows] by [cols]. *)
Definition from_entries (rows cols : nat) (f : nat -> nat -> Q) : matrix :=
  map (fun i => map (f i) (seq 0 cols)) (seq 0 rows).

Definition eye (n : nat) : matrix :=
  from_entries n n (fun i j => if (i =? j)%nat then 1 else 0).

(** The row of a matrix whose only entry, at column [k], is 1. *)
Definition delta (k j : nat) : Q := if (j =? k)%nat then 1 else 0.

(** *** Direct solution of a linear system

    A system is a list of equations, each a row of coefficients with its
    right-hand side. *)
Definition equation : Type := vec * Q.
Definition system : Type := list equation.

Definition augment (A : matrix) (b : vec) : system := combine A b.

(** The left-hand sides of a system at the point [v]. *)
Definition lhs (sys : system) (v : vec) : vec :=
  map (fun e : equation => dot (fst e) v) sys.

Definition satisfies (v : vec) (e : equation) : Prop := dot (fst e) v == snd e.

(** The first equation whose leading coefficient is not zero, moved to the
    front (a row exchange). *)
Fixpoint find_pivot (sys : system) : option (equation * system) :=
  match sys with
  | [] => None
  | e :: rest =>
      match fst e with
      | [] => None
      | a :: _ =>
          if Qeq_bool a 0 then
            match find_pivot rest with
            | Some (p, others) => Some (p, e :: others)
            | None => None
            end
          else Some (e, rest)
      end
  end.

(** One step of elimination: the equation [e], with leading coefficient
    [ai1], minus [ai1 / a11] times the pivot equation, the leading unknown
    dropped. *)
Definition reduce (piv e : equation) : equation :=
  match fst piv, fst e with
  | a11 :: r1, ai1 :: ri =>
      (vsub ri (vscale (ai1 / a11) r1), snd e - (ai1 / a11) * snd piv)
  | _, _ => ([], snd e)
  end.

(** Exact direct solution of a square system in [n] unknowns by
    elimination with row exchanges and back substitution; [None] when a
    column has no pivot. *)
Fixpoint solve (n : nat) (sys : system) : option vec :=
  match n with
  | O => Some []
  | S n' =>
      match find_pivot sys with
      | Some ((a11 :: r1, b1) as piv, rest) =>
          match solve n' (map (reduce piv) rest) with
          | Some y => Some ((b1 - dot r1 y) / a11 :: y)
          | None => None
          end
      | _ => None
      end
  end.

(** [spsolve(A, b)] for an [n] by [n] matrix. *)
Definition spsolve (n : nat) (A : matrix) (b : vec) : option vec :=
  solve n (augment A b).

(** Pointwise equality of vectors, up to the equality of fractions. *)
Definition veq (u v : vec) : Prop := Forall2 Qeq u v.

(** A system of [n] equations in [n] unknowns. *)
Definition square (n : nat) (sys : system) : Prop :=
  length sys = n /\ Forall (fun e : equation => length (fst e) = n) sys.

(** Positive definiteness of the quadratic form of the coefficients. *)
Definition posdef (n : nat) (sys : system) : Prop :=
  forall v : vec, length v = n -> 0 < sqnorm v -> 0 < dot v (lhs sys v).

(** Second differences [u[i] - 2 u[i+1] + u[i+2]] of a series. *)
Fixpoint diff2 (u : vec) : vec :=
  match u with
  | a :: ((b :: c :: _) as u') => (a - 2 * b + c) :: diff2 u'
  | _ => []
  end.

End LinAlg.

Import LinAlg.

(** ** [statsmodels.tsa.filters.hp_filter.hpfilter] *)

Module Statsmodels.

Definition K_entry (i j : nat) : Q :=
  if (j =? i)%nat then 1
  else if (j =? i + 1)%nat then -2
  else if (j =? i + 2)%nat then 1
  else 0.

Definition Kmat (nobs : nat) : matrix := from_entries (nobs - 2) nobs K_entry.

Definition hp_matrix (nobs : nat) (lamb : Q) : matrix :=
  let K := Kmat nobs in
  madd (eye nobs) (mscale lamb (matmul nobs (transpose nobs K) K)).

(** Modelled from the spec: the body of [hpfilter], which both scripts
    import from statsmodels and which is no file of the repository.  Its
    description is section 4.1 of the specification: the trend minimises
    the squared deviations from the series plus [lamb] times the squared
    second differences of the trend, and the cycle is the series minus the
    trend.  The model computes this minimiser the way the library function
    does, statement by statement:

    - [nobs = len(x)] and [I = sparse.eye(nobs, nobs)];
    - [K = sparse.dia_matrix((data, [0, 1, 2]), shape=(nobs - 2, nobs))],
      the three diagonals being 1, -2, 1: the second-difference operator.
      The constructor rejects a negative dimension with ValueError and
      accepts the dimension 0;
    - [trend = spsolve(I + lamb * K.T.dot(K), x)], a direct solve, which
      on a singular matrix warns and fills the result with nan;
    - [cycle = x - trend] and [return cycle, trend]: the cycle comes first,
      the order in which line 23 of project1.py unpacks the pair.

    That the solution of the system is the minimiser of the objective is
    [hp_minimiser] below.  The scripts call the function on the series as
    they have it: no statement on the way checks its length. *)
Definition hpfilter (x : list Q) (lamb : Q) : outcome (list Q * list Q) :=
  let nobs := length x in
  if (nobs <? 2)%nat then Raise ValueError
  else
    match spsolve nobs (hp_matrix nobs lamb) x with
    | Some trend => let cycle := vsub x trend in Ok (cycle, trend)
    | None => NonFinite
    end.

End Statsmodels.

Import Statsmodels.

(** ** Measures of fit and smoothness

  The quantities in which the filter is described: the penalised
  least-squares objective that the trend minimises, and the mean squared
  second difference by which the smoothness of a trend is compared with
  that of the series it was taken from. *)

Module Smoothness.

Definition hp_objective (lamb : Q) (x u : vec) : Q :=
  sqnorm (vsub x u) + lamb * sqnorm (diff2 u).

Definition mean_sq_diff2 (u : vec) : Q :=
  sqnorm (diff2 u) / inject_Z (Z.of_nat (length u - 2)).

Definition roughness_ratio (trend s : vec) : Q :=
  mean_sq_diff2 trend / mean_sq_diff2 s.

(** [a] is [b] within the relative tolerance 1e-9. *)
Definition rel_close (a b : Q) : Prop :=
  Qabs (a - b) <= (1 # 1000000000) * Qabs b.

(** The two components [a] and [b] add up to the series [s], index by
    index. *)
Definition recomposes (s a b : vec) : Prop :=
  length a = length s /\ length b = length s /\
  forall t : nat, (t < length s)%nat ->
    nth t a 0 + nth t b 0 == nth t s 0
    /\ rel_close (nth t a 0 + nth t b 0) (nth t s 0).

End Smoothness.

Import Smoothness.

(** ** midterm1-4,5.py: Spain and Japan compared *)

Module Midterm1.

(** A pandas Series over a DatetimeIndex, the index increasing; a time
    stamp is its count of nanoseconds. *)
Abbreviation timestamp := Z (only parsing).
Definition series : Type := list (timestamp * Q).
Definition raw_series : Type := list (timestamp * option Q).

(** Lines 15 and 21: [dropna()]. *)
Fixpoint dropna (s : raw_series) : series :=
  match s with
  | [] => []
  | (t, Some v) :: s' => (t, v) :: dropna s'
  | (_, None) :: s' => dropna s'
  end.

Definition index (s : series) : list timestamp := map fst s.
Definition values (s : series) : vec := map snd s.

(** [index.min()] and [index.max()].  Lines 16 and 22 have printed
    [index[0]] before, which ends the run with IndexError when the index
    is empty. *)
Definition index_bounds (s : series) : outcome (timestamp * timestamp) :=
  match index s with
  | [] => Raise IndexError
  | t :: ts => Ok (fold_left Z.min ts t, fold_left Z.max ts t)
  end.

(** The label slice [s[start:stop]] of an increasing index: both ends are
    included. *)
Definition slice (s : series) (start stop : timestamp) : series :=
  List.filter (fun p => (start <=? fst p)%Z && (fst p <=? stop)%Z) s.

(** Lines 25 to 29. *)
Definition align_common_range (spain_gdp japan_gdp : series)
  : outcome (series * series) :=
  '(spain_min, spain_max) ← index_bounds spain_gdp;
  '(japan_min, japan_max) ← index_bounds japan_gdp;
  let common_start := Z.max spain_min japan_min in
  let common_end := Z.min spain_max japan_max in
  let spain_gdp_aligned := slice spain_gdp common_start common_end in
  let japan_gdp_aligned := slice japan_gdp common_start common_end in
  Ok (spain_gdp_aligned, japan_gdp_aligned).

(** Lines 41 and 42, for the logarithms of the two aligned series: the
    first component of each returned pair goes to the variable named
    trend, the second to the variable named cycle.  The script passes
    [lamb=1600]. *)
Record filtered : Type := {
  spain_trend : vec;
  spain_cycle : vec;
  japan_trend : vec;
  japan_cycle : vec
}.

Definition apply_hpfilter (lamb : Q) (log_spain_gdp log_japan_gdp : vec)
  : outcome filtered :=
  '(s1, s2) ← hpfilter log_spain_gdp lamb;
  '(j1, j2) ← hpfilter log_japan_gdp lamb;
  Ok {| spain_trend := s1; spain_cycle := s2;
        japan_trend := j1; japan_cycle := j2 |}.

Definition script_lamb : Q := 1600.

(** [Series.std()]: the sample standard deviation (one degree of freedom
    removed), nan on fewer than two values.  The variance is computed
    here; the square root, no rational operation, is the argument [sqrt]
    of [std], standing for the square root on floats. *)
Definition mean (xs : vec) : Q :=
  fold_right Qplus 0 xs / inject_Z (Z.of_nat (length xs)).

Definition variance (xs : vec) : outcome Q :=
  if (length xs <? 2)%nat then NonFinite
  else
    let m := mean xs in
    Ok (fold_right Qplus 0 (map (fun x => (x - m) * (x - m)) xs)
        / inject_Z (Z.of_nat (length xs - 1))).

Definition has_variance (xs : vec) (v : Q) : Prop :=
  exists v' : Q, variance xs = Ok v' /\ v' == v.

Definition std (sqrt : Q -> Q) (xs : vec) : outcome Q :=
  v ← variance xs;
  Ok (sqrt v).

(** Line 55: a quotient of two NumPy scalars. *)
Definition std_ratio (spain_cycle_std japan_cycle_std : Q) : outcome Q :=
  np_divide spain_cycle_std japan_cycle_std.

(** Lines 49 to 55: the two standard deviations and their ratio.  A
    standard deviation that is nan makes the ratio nan. *)
Definition cycle_std_ratio (sqrt : Q -> Q) (spain_cycle japan_cycle : vec)
  : outcome Q :=
  spain_cycle_std ← std sqrt spain_cycle;
  japan_cycle_std ← std sqrt japan_cycle;
  std_ratio spain_cycle_std japan_cycle_std.

(** An instance of the argument [sqrt], for examples: the square root of
    [n / d] computed as the integer square root of [n * d] over [d],
    which is exact on the square of a rational and rounded down elsewhere. *)
Definition sqrt_down (v : Q) : Q :=
  inject_Z (Z.sqrt (Qnum v * QDen v)) / inject_Z (QDen v).

(** Lines 66 to 79.  The labels are named after their translations in
    the specification. *)
Inductive strength : Type :=
| very_strong_positive
| strong_positive
| moderate_positive
| weak_positive
| negligible
| weak_negative
| moderate_or_stronger_negative.

Definition correlation_strength (correlation : Q) : strength :=
  if gt correlation 0.7 then very_strong_positive
  else if gt correlation 0.5 then strong_positive
  else if gt correlation 0.3 then moderate_positive
  else if gt correlation 0.1 then weak_positive
  else if gt correlation (-0.1) then negligible
  else if gt correlation (-0.3) then weak_negative
  else moderate_or_stronger_negative.

End Midterm1.

(** ** project1.py: the filter under three penalties *)

Module Project1.

(** Line 18. *)
Definition lambdas : list Z := [10; 100; 1600]%Z.

(** Lines 19 and 20: the two dictionaries the loop fills. *)
Record dicts : Type := {
  trends : gmap Z vec;
  cycles : gmap Z vec
}.

Definition empty_dicts : dicts := {| trends := ∅; cycles := ∅ |}.

(** Line 23: the first component of the returned pair goes to [cycle],
    the second to [trend]. *)
Record unpacked : Type := {
  cycle : vec;
  trend : vec
}.

Definition unpack (log_gdp : vec) (lam : Q) : outcome unpacked :=
  '(c, t) ← hpfilter log_gdp lam;
  Ok {| cycle := c; trend := t |}.

(** Lines 23 to 25, one turn of the loop. *)
Definition body (log_gdp : vec) (st : dicts) (lam : Z) : outcome dicts :=
  u ← unpack log_gdp (inject_Z lam);
  Ok {| trends := <[lam := trend u]> (trends st);
        cycles := <[lam := cycle u]> (cycles st) |}.

(** Lines 22 to 25. *)
Fixpoint loop (log_gdp : vec) (lams : list Z) (st : dicts) : outcome dicts :=
  match lams with
  | [] => Ok st
  | lam :: rest => st' ← body log_gdp st lam; loop log_gdp rest st'
  end.

Definition run (log_gdp : vec) : outcome dicts :=
  loop log_gdp lambdas empty_dicts.

End Project1.

(** ** midterm2.py: growth accounting *)

Module Midterm2.

(** The class [GrowthAccounting], lines 27 to 49. *)
Record GrowthAccounting : Type := {
  start_year : Z;
  end_year : Z;
  alpha : Q;
  beta : Q;
  countries : list string
}.

Definition init (start_year end_year : Z) (alpha : Q) : GrowthAccounting :=
  {| start_year := start_year;
     end_year := end_year;
     alpha := alpha;
     beta := 1 - alpha;
     countries :=
       ["Australia"; "Austria"; "Belgium"; "Canada"; "Denmark";
        "Finland"; "France"; "Germany"; "Greece"; "Iceland";
        "Ireland"; "Italy"; "Japan"; "Netherlands"; "New Zealand";
        "Norway"; "Portugal"; "Spain"; "Sweden"; "Switzerland";
        "United Kingdom"; "United States"]%string |}.

(** A row of the data frame of lines 92 to 98. *)
Record obs : Type := {
  Country : string;
  Year : Z;
  GDP : Q;
  Capital : Q;
  Labor : Q
}.

(** The local variables of one turn of the loop of
    [calculate_growth_rates], lines 147 to 170. *)
Record locals : Type := {
  gdp_growth : Q;
  capital_growth : Q;
  labor_growth : Q;
  tfp_growth : Q;
  capital_contribution : Q;
  labor_contribution : Q;
  total_growth : Q;
  tfp_share : Q;
  capital_share : Q;
  capital_deepening : Q
}.

(** A row of the result, lines 172 to 179. *)
Record result : Type := {
  Result_Country : string;
  Growth_Rate : Q;
  TFP_Growth : Q;
  Capital_Deepening : Q;
  TFP_Share : Q;
  Capital_Share : Q
}.

(** Line 139: [sort_values('Year')]. *)
Fixpoint insert_by_year (r : obs) (l : list obs) : list obs :=
  match l with
  | [] => [r]
  | r' :: l' =>
      if (Year r <=? Year r')%Z then r :: l else r' :: insert_by_year r l'
  end.

Definition sort_values_Year (l : list obs) : list obs :=
  fold_right insert_by_year [] l.

(** Lines 147 to 149: [(last / first) ** (1 / n_years) - 1].  The power
    with a fractional exponent is no rational operation: it is the
    argument [pow], standing for [x ** (1 / n)]. *)
Definition annualized (pow : Q -> nat -> Q) (last first : Q) (n_years : nat)
  : outcome Q :=
  ratio ← np_divide last first;
  Ok (pow ratio n_years - 1).

(** Lines 160 to 167. *)
Definition shares (tfp_growth capital_contribution total_growth : Q)
  : outcome (Q * Q) :=
  if gt total_growth 0 then
    tfp_share ← np_divide tfp_growth total_growth;
    capital_share ← np_divide capital_contribution total_growth;
    Ok (tfp_share, capital_share)
  else Ok (0, 0).

(** Lines 147 to 170, from the first and last rows of a country. *)
Definition account (pow : Q -> nat -> Q) (self : GrowthAccounting)
  (first last : obs) (n_years : nat) : outcome locals :=
  gdp_growth ← annualized pow (GDP last) (GDP first) n_years;
  capital_growth ← annualized pow (Capital last) (Capital first) n_years;
  labor_growth ← annualized pow (Labor last) (Labor first) n_years;
  let tfp_growth :=
    gdp_growth - alpha self * capital_growth - beta self * labor_growth in
  let capital_contribution := alpha self * capital_growth in
  let labor_contribution := beta self * labor_growth in
  let total_growth := gdp_growth in
  '(tfp_share, capital_share) ←
    shares tfp_growth capital_contribution total_growth;
  let capital_deepening := capital_growth - labor_growth in
  Ok {| gdp_growth := gdp_growth;
        capital_growth := capital_growth;
        labor_growth := labor_growth;
        tfp_growth := tfp_growth;
        capital_contribution := capital_contribution;
        labor_contribution := labor_contribution;
        total_growth := total_growth;
        tfp_share := tfp_share;
        capital_share := capital_share;
        capital_deepening := capital_deepening |}.

(** Lines 138 to 170 for one country: [None] is the [continue] of line
    142. *)
Definition country_locals (pow : Q -> nat -> Q) (self : GrowthAccounting)
  (data : list obs) (country : string) : option (outcome locals) :=
  let country_data :=
    sort_values_Year
      (List.filter (fun r => String.eqb (Country r) country) data) in
  match country_data with
  | first :: _ :: _ =>
      let n_years := (length country_data - 1)%nat in
      Some (account pow self first (List.last country_data first) n_years)
  | _ => None
  end.

Definition to_result (country : string) (v : locals) : result :=
  {| Result_Country := country;
     Growth_Rate := gdp_growth v * 100;
     TFP_Growth := tfp_growth v * 100;
     Capital_Deepening := capital_deepening v * 100;
     TFP_Share := tfp_share v;
     Capital_Share := capital_share v |}.

(** Lines 137 to 181, over the countries still to visit. *)
Fixpoint rows_for (pow : Q -> nat -> Q) (self : GrowthAccounting)
  (data : list obs) (todo : list string) : outcome (list result) :=
  match todo with
  | [] => Ok []
  | country :: todo' =>
      match country_locals pow self data country with
      | None => rows_for pow self data todo'
      | Some m =>
          v ← m;
          results ← rows_for pow self data todo';
          Ok (to_result country v :: results)
      end
  end.

Definition calculate_growth_rates (pow : Q -> nat -> Q)
  (self : GrowthAccounting) (data : list obs) : outcome (list result) :=
  rows_for pow self data (countries self).

End Midterm2.

(** ** Sums over a series *)

Module Aggregates.

(** [sum(v)]. *)
Definition total (v : vec) : Q := fold_right Qplus 0 v.

Definition ones (n : nat) : vec := repeat 1 n.

(** Every entry is zero. *)
Definition all_zero (v : vec) : Prop := Forall (fun d => d == 0) v.

End Aggregates.

Import Aggregates.

(** ** midterm1-4,5.py: the printed summary *)

Module Midterm1Summary.

(** A strictly increasing index. *)
Fixpoint increasing (l : list Z) : Prop :=
  match l with
  | [] => True
  | t :: l' => Forall (Z.lt t) l' /\ increasing l'
  end.

(** Lines 58 to 61: which country is reported as the more volatile one,
    and by which factor.  On line 61 the quotient [1/std_ratio] has a NumPy
    scalar as its divisor. *)
Inductive country : Type :=
| Spain
| Japan.

Definition ratio_report (std_ratio : Q) : outcome (country * Q) :=
  if gt std_ratio 1 then Ok (Spain, std_ratio)
  else
    factor ← np_divide 1 std_ratio;
    Ok (Japan, factor).

(** Lines 150 to 155. *)
Inductive synchronisation : Type :=
| high
| moderate
| low.

(** The value of [spain_cycle.corr(japan_cycle)], line 63: a number, or
    nan (when one of the two cycles has no variance, or fewer than two
    entries). *)
Inductive corr_value : Type :=
| number (c : Q)
| nan.

(** [x > t] on such a value: every comparison with nan is false. *)
Definition exceeds (x : corr_value) (t : Q) : bool :=
  match x with
  | number c => gt c t
  | nan => false
  end.

(** [abs(x)] and [-x]: nan stays nan. *)
Definition abs (x : corr_value) : corr_value :=
  match x with
  | number c => number (Qabs c)
  | nan => nan
  end.

Definition neg (x : corr_value) : corr_value :=
  match x with
  | number c => number (- c)
  | nan => nan
  end.

(** Lines 66 to 79 on a value that may be nan: the chain of comparisons
    of [Midterm1.correlation_strength], each of them false on nan. *)
Definition label_of (correlation : corr_value) : Midterm1.strength :=
  if exceeds correlation 0.7 then Midterm1.very_strong_positive
  else if exceeds correlation 0.5 then Midterm1.strong_positive
  else if exceeds correlation 0.3 then Midterm1.moderate_positive
  else if exceeds correlation 0.1 then Midterm1.weak_positive
  else if exceeds correlation (-0.1) then Midterm1.negligible
  else if exceeds correlation (-0.3) then Midterm1.weak_negative
  else Midterm1.moderate_or_stronger_negative.

Definition synchronisation_of (correlation : corr_value) : synchronisation :=
  if exceeds (abs correlation) 0.5 then high
  else if exceeds (abs correlation) 0.3 then moderate
  else low.

(** Lines 157 to 162. *)
Inductive instability : Type :=
| spain_more_unstable
| japan_more_unstable
| similar.

Definition instability_of (std_ratio : Q) : instability :=
  if gt std_ratio 1.2 then spain_more_unstable
  else if gt 0.8 std_ratio then japan_more_unstable
  else similar.

End Midterm1Summary.

(** ** midterm2.py: the synthetic data *)

Module Midterm2Data.

Import Midterm2.

(** The exceptions of the dictionary, random-number and data-frame calls
    of [generate_synthetic_data] and [format_results]: a missing key; a
    negative scale handed to [np.random.normal]; columns of different
    lengths handed to [pd.DataFrame]; an empty list handed to
    [pd.concat]. *)
Inductive pyerr : Type :=
| KeyError (key : string)
| ValueError_scale
| ValueError_lengths
| ValueError_no_objects.

Inductive attempt (A : Type) : Type :=
| Done (a : A)
| Fail (e : pyerr).

Arguments Done {A} a.
Arguments Fail {A} e.

#[global] Instance attempt_ret : MRet attempt := @Done.
#[global] Instance attempt_bind : MBind attempt :=
  fun A B k m => match m with Done a => k a | Fail e => Fail e end.

(** [d[key]]. *)
Definition getitem (d : gmap string Q) (key : string) : attempt Q :=
  match d !! key with
  | Some v => Done v
  | None => Fail (KeyError key)
  end.

(** Lines 107 to 113. *)
Definition base_params : gmap string Q :=
  list_to_map
    [("gdp_trend", 2.5); ("gdp_vol", 1.5); ("labor_trend", 0.8);
     ("labor_vol", 0.8); ("capital_premium", 1.0)]%string.

(** The keys of the dictionary of lines 107 to 113. *)
Definition parameter_keys : list string :=
  ["gdp_trend"; "gdp_vol"; "labor_trend"; "labor_vol"; "capital_premium"]%string.

(** Lines 116 to 126. *)
Definition adjustments : gmap string (gmap string Q) :=
  list_to_map
    [("Ireland", list_to_map [("gdp_trend", 4.5); ("gdp_vol", 3.0)]);
     ("Iceland", list_to_map [("gdp_trend", 3.0); ("gdp_vol", 2.5)]);
     ("Greece", list_to_map [("gdp_trend", 1.5); ("gdp_vol", 2.0)]);
     ("Italy", list_to_map [("gdp_trend", 1.2); ("gdp_vol", 1.2)]);
     ("Japan", list_to_map [("gdp_trend", 1.0); ("gdp_vol", 1.0)]);
     ("Germany", list_to_map [("gdp_trend", 1.8); ("gdp_vol", 1.2)]);
     ("United States", list_to_map [("gdp_trend", 2.2); ("gdp_vol", 1.8)]);
     ("Switzerland", list_to_map [("gdp_trend", 1.8); ("gdp_vol", 1.0)]);
     ("New Zealand", list_to_map [("gdp_trend", 2.0); ("gdp_vol", 1.8)])]%string.

(** Lines 104 to 131; [params.update(d)] lets the entries of [d] win. *)
Definition _get_country_parameters (country : string) : gmap string Q :=
  let params := base_params in
  match adjustments !! country with
  | Some adjustment => adjustment ∪ params
  | None => params
  end.

(** [np.random.normal(loc, scale)]: after the seeding of line 56 the
    value of the [k]-th call is a function [draw] of [k] and of the
    arguments; a negative scale is refused. *)
Definition normal (draw : nat -> Q -> Q -> Q) (k : nat) (loc scale : Q)
  : attempt (Q * nat) :=
  if gt 0 scale then Fail ValueError_scale
  else Done (draw k loc scale, S k).

(** The three lists of lines 71 to 73. *)
Record series3 : Type := {
  gdp_series : list Q;
  capital_series : list Q;
  labor_series : list Q
}.

(** Lines 77 to 89, one turn of the loop over the years; [k] counts the
    draws made so far. *)
Definition year_step (draw : nat -> Q -> Q -> Q) (country_params : gmap string Q)
  (s : series3) (k : nat) : attempt (series3 * nat) :=
  gdp_trend ← getitem country_params "gdp_trend";
  gdp_vol ← getitem country_params "gdp_vol";
  '(shock, k) ← normal draw k 0 gdp_vol;
  let gdp_growth := gdp_trend + shock in
  let gdp_new := List.last (gdp_series s) 0 * (1 + gdp_growth / 100) in
  capital_premium ← getitem country_params "capital_premium";
  '(shock, k) ← normal draw k 0 0.5;
  let capital_growth := gdp_growth + capital_premium + shock in
  let capital_new :=
    List.last (capital_series s) 0 * (1 + capital_growth / 100) in
  labor_trend ← getitem country_params "labor_trend";
  labor_vol ← getitem country_params "labor_vol";
  '(shock, k) ← normal draw k 0 labor_vol;
  let labor_growth := labor_trend + shock in
  let labor_new := List.last (labor_series s) 0 * (1 + labor_growth / 100) in
  Done ({| gdp_series := gdp_series s ++ [gdp_new];
           capital_series := capital_series s ++ [capital_new];
           labor_series := labor_series s ++ [labor_new] |}, k).

(** Lines 75 to 89: [turns] turns of the loop. *)
Fixpoint year_loop (draw : nat -> Q -> Q -> Q) (country_params : gmap string Q)
  (turns : nat) (s : series3) (k : nat) : attempt (series3 * nat) :=
  match turns with
  | O => Done (s, k)
  | S turns' =>
      '(s', k') ← year_step draw country_params s k;
      year_loop draw country_params turns' s' k'
  end.

Fixpoint frame_rows (country : string) (years : list Z) (g c l : list Q)
  : list obs :=
  match years, g, c, l with
  | y :: years', g0 :: g', c0 :: c', l0 :: l' =>
      {| Country := country; Year := y; GDP := g0; Capital := c0; Labor := l0 |}
      :: frame_rows country years' g' c' l'
  | _, _, _, _ => []
  end.

(** Lines 92 to 98: the data frame of one country; its columns must have
    one length. *)
Definition DataFrame (country : string) (years : list Z) (s : series3)
  : attempt (list obs) :=
  if ((length years =? length (gdp_series s))
      && (length years =? length (capital_series s))
      && (length years =? length (labor_series s)))%nat
  then Done (frame_rows country years
               (gdp_series s) (capital_series s) (labor_series s))
  else Fail ValueError_lengths.

(** [list(range(a, b))]. *)
Definition range (a b : Z) : list Z :=
  map (fun i => (a + Z.of_nat i)%Z) (seq 0 (Z.to_nat (b - a))).

(** Lines 62 to 100, for one country. *)
Definition country_frame (draw : nat -> Q -> Q -> Q) (years : list Z)
  (country : string) (k : nat) : attempt (list obs * nat) :=
  let country_params := _get_country_parameters country in
  let gdp_base := 100 in
  let capital_base := 300 in
  let labor_base := 100 in
  let s0 := {| gdp_series := [gdp_base];
               capital_series := [capital_base];
               labor_series := [labor_base] |} in
  '(s, k) ← year_loop draw country_params (length years - 1) s0 k;
  country_data ← DataFrame country years s;
  Done (country_data, k).

(** Lines 61 to 100. *)
Fixpoint country_loop (draw : nat -> Q -> Q -> Q) (years : list Z)
  (todo : list string) (k : nat) : attempt (list (list obs)) :=
  match todo with
  | [] => Done []
  | country :: todo' =>
      '(country_data, k') ← country_frame draw years country k;
      data ← country_loop draw years todo' k';
      Done (country_data :: data)
  end.

(** [pd.concat(data, ignore_index=True)]. *)
Definition pd_concat (data : list (list obs)) : attempt (list obs) :=
  match data with
  | [] => Fail ValueError_no_objects
  | _ => Done (concat data)
  end.

(** Lines 51 to 102. *)
Definition generate_synthetic_data (draw : nat -> Q -> Q -> Q)
  (self : GrowthAccounting) : attempt (list obs) :=
  let years := range (start_year self) (end_year self + 1) in
  data ← country_loop draw years (countries self) 0;
  pd_concat data.

End Midterm2Data.

(** ** Shapes of the generated data *)

Module Midterm2Shape.

Import Midterm2 Midterm2Data.

(** The frame of one country: the base values 100, 300, 100 in the first
    year, followed by the values [g], [c], [l] of the later years. *)
Definition frame_of (country : string) (years : list Z) (g c l : list Q)
  : list obs :=
  frame_rows country years (100 :: g) (300 :: c) (100 :: l).

Definition is_frame (years : list Z) (country : string) (rows : list obs)
  : Prop :=
  exists g c l : list Q,
    length g = (length years - 1)%nat
    /\ length c = (length years - 1)%nat
    /\ length l = (length years - 1)%nat
    /\ rows = frame_of country years g c l.

(** Every level of the data is positive. *)
Definition positive_levels (data : list obs) : Prop :=
  Forall (fun r => 0 < GDP r /\ 0 < Capital r /\ 0 < Labor r) data.

End Midterm2Shape.

(** ** midterm2.py: the formatted table *)

Module Midterm2Format.

Import Midterm2 Midterm2Data.

(** The five numeric columns of the result. *)
Definition columns : list (result -> Q) :=
  [Growth_Rate; TFP_Growth; Capital_Deepening; TFP_Share; Capital_Share].

(** Lines 187 to 191, on one row.  [round(2)] on a double multiplies it
    by 100, rounds the product and divides it by 100, all three on floats:
    it is no rational operation and is the argument [round2]. *)
Definition round_row (round2 : Q -> Q) (r : result) : result :=
  {| Result_Country := Result_Country r;
     Growth_Rate := round2 (Growth_Rate r);
     TFP_Growth := round2 (TFP_Growth r);
     Capital_Deepening := round2 (Capital_Deepening r);
     TFP_Share := round2 (TFP_Share r);
     Capital_Share := round2 (Capital_Share r) |}.

(** [mean()] of a column that is not empty. *)
Definition column_mean (v : list Q) : Q :=
  total v / inject_Z (Z.of_nat (length v)).

(** Lines 183 to 205.  A frame made from an empty list of rows has no
    columns: line 187 then fails on the first one it asks for. *)
Definition format_results (round2 : Q -> Q) (results : list result)
  : attempt (list result) :=
  match results with
  | [] => Fail (KeyError "Growth Rate")
  | _ =>
      let formatted := map (round_row round2) results in
      let avg_row :=
        {| Result_Country := "Average";
           Growth_Rate := round2 (column_mean (map Growth_Rate formatted));
           TFP_Growth := round2 (column_mean (map TFP_Growth formatted));
           Capital_Deepening :=
             round2 (column_mean (map Capital_Deepening formatted));
           TFP_Share := round2 (column_mean (map TFP_Share formatted));
           Capital_Share := round2 (column_mean (map Capital_Share formatted)) |} in
      Done (formatted ++ [avg_row])
  end.

(** Lines 262 to 264: the mean of a column over the rows that are not
    named Average; nan when there is none. *)
Definition summary_mean (column : result -> Q) (results : list result)
  : outcome Q :=
  let kept :=
    List.filter (fun r => negb (String.eqb (Result_Country r) "Average"))
      results in
  match kept with
  | [] => NonFinite
  | _ => Ok (column_mean (map column kept))
  end.

(** Lines 207 to 225. *)
Definition run_analysis (draw : nat -> Q -> Q -> Q) (pow : Q -> nat -> Q)
  (round2 : Q -> Q) (self : GrowthAccounting)
  : attempt (outcome (list result)) :=
  data ← generate_synthetic_data draw self;
  match calculate_growth_rates pow self data with
  | Ok results =>
      formatted_results ← format_results round2 results;
      Done (Ok formatted_results)
  | Raise e => Done (Raise e)
  | NonFinite => Done NonFinite
  end.

End Midterm2Format.


(** * Facts about vectors *)

Section VectorFacts.

Lemma veq_refl (u : vec) : veq u u.
Proof. induction u; constructor; [reflexivity | assumption]. Qed.

Lemma veq_sym (u v : vec) : veq u v -> veq v u.
Proof. induction 1; constructor; [symmetry|]; assumption. Qed.

Lemma veq_trans (u v w : vec) : veq u v -> veq v w -> veq u w.
Proof.
  intros Huv; revert w.
  induction Huv as [|a b u v Hab Huv IH]; intros w Hvw; inversion Hvw; subst.
  - constructor.
  - constructor; [etransitivity; eassumption | apply IH; assumption].
Qed.

Lemma veq_length (u v : vec) : veq u v -> length u = length v.
Proof. induction 1; simpl; congruence. Qed.

Lemma dot_nil_r (u : vec) : dot u [] = 0.
Proof. destruct u; reflexivity. Qed.

Lemma dot_comm (u v : vec) : dot u v == dot v u.
Proof.
  revert v; induction u as [|a u IH]; intros [|b v]; simpl; try reflexivity.
  rewrite (IH v). ring.
Qed.

Lemma dot_proper (u u' v v' : vec) :
  veq u u' -> veq v v' -> dot u v == dot u' v'.
Proof.
  intros Hu; revert v v'.
  induction Hu as [|a a' u u' Ha Hu IH]; intros v v' Hv; simpl.
  - reflexivity.
  - destruct Hv as [|b b' v v' Hb Hv]; [reflexivity|].
    rewrite (IH _ _ Hv), Ha, Hb. reflexivity.
Qed.

Lemma dot_zeros_l (n : nat) (v : vec) : dot (zeros n) v == 0.
Proof.
  revert v; induction n as [|n IH]; intros [|b v]; simpl; try reflexivity.
  rewrite (IH v). ring.
Qed.

Lemma dot_zeros_r (n : nat) (v : vec) : dot v (zeros n) == 0.
Proof. rewrite dot_comm. apply dot_zeros_l. Qed.

Lemma dot_vscale_l (c : Q) (u v : vec) : dot (vscale c u) v == c * dot u v.
Proof.
  revert v; induction u as [|a u IH]; intros [|b v]; simpl; try ring.
  rewrite (IH v). ring.
Qed.

Lemma dot_vscale_r (c : Q) (u v : vec) : dot u (vscale c v) == c * dot u v.
Proof. rewrite dot_comm, dot_vscale_l, dot_comm. reflexivity. Qed.

Lemma dot_vadd_l (u v w : vec) :
  length u = length v -> dot (vadd u v) w == dot u w + dot v w.
Proof.
  revert v w; induction u as [|a u IH]; intros [|b v] w Hlen;
    simpl in *; try discriminate; try ring.
  destruct w as [|c w]; [ring|].
  rewrite (IH v w) by congruence. ring.
Qed.

Lemma dot_vadd_r (u v w : vec) :
  length v = length w -> dot u (vadd v w) == dot u v + dot u w.
Proof.
  intros Hlen. rewrite dot_comm, dot_vadd_l by assumption.
  rewrite (dot_comm v u), (dot_comm w u). reflexivity.
Qed.

Lemma dot_vsub_l (u v w : vec) :
  length u = length v -> dot (vsub u v) w == dot u w - dot v w.
Proof.
  revert v w; induction u as [|a u IH]; intros [|b v] w Hlen;
    simpl in *; try discriminate; try ring.
  destruct w as [|c w]; [ring|].
  rewrite (IH v w) by congruence. ring.
Qed.

Lemma dot_vsub_r (u v w : vec) :
  length v = length w -> dot u (vsub v w) == dot u v - dot u w.
Proof.
  intros Hlen. rewrite dot_comm, dot_vsub_l by assumption.
  rewrite (dot_comm v u), (dot_comm w u). reflexivity.
Qed.

Lemma sqnorm_nonneg (v : vec) : 0 <= sqnorm v.
Proof.
  unfold sqnorm; induction v as [|a v IH]; simpl; [lra|].
  nra.
Qed.

Lemma length_vadd (u v : vec) : length u = length v -> length (vadd u v) = length u.
Proof.
  revert v; induction u as [|a u IH]; intros [|b v] H; simpl in *;
    try discriminate; auto.
Qed.

Lemma length_vsub (u v : vec) : length u = length v -> length (vsub u v) = length u.
Proof.
  revert v; induction u as [|a u IH]; intros [|b v] H; simpl in *;
    try discriminate; auto.
Qed.

Lemma length_vscale (c : Q) (v : vec) : length (vscale c v) = length v.
Proof. apply length_map. Qed.

Lemma length_zeros (n : nat) : length (zeros n) = n.
Proof. apply repeat_length. Qed.

End VectorFacts.

(** * The direct solver on positive definite systems *)

Section SolverFacts.

Lemma find_pivot_head (a11 : Q) (r1 : vec) (b1 : Q) (rest : system) :
  ~ a11 == 0 ->
  find_pivot ((a11 :: r1, b1) :: rest) = Some ((a11 :: r1, b1), rest).
Proof.
  intros Hne. simpl.
  destruct (Qeq_bool a11 0) eqn:E; [|reflexivity].
  apply Qeq_bool_iff in E. contradiction.
Qed.

Lemma posdef_pivot_pos (n : nat) (a11 : Q) (r1 : vec) (b1 : Q) (rest : system) :
  posdef (S n) ((a11 :: r1, b1) :: rest) -> 0 < a11.
Proof.
  intros Hpd.
  specialize (Hpd (1 :: zeros n)).
  unfold sqnorm in Hpd; simpl in Hpd.
  rewrite length_zeros in Hpd.
  pose proof (dot_zeros_l n (zeros n)) as H1.
  pose proof (dot_zeros_r n r1) as H2.
  pose proof (dot_zeros_l n (lhs rest (1 :: zeros n))) as H3.
  assert (Hpos : 0 < 1 * (a11 * 1 + dot r1 (zeros n))
                     + dot (zeros n) (lhs rest (1 :: zeros n))).
  { apply Hpd; [reflexivity | lra]. }
  lra.
Qed.

(** The reduced equation at [y] is the original one at [z :: y], for the
    [z] that solves the pivot equation with right-hand side 0. *)
Lemma reduce_dot (a11 : Q) (r1 : vec) (b1 ai1 : Q) (ri : vec) (bi : Q) (y : vec) :
  length ri = length r1 ->
  dot (fst (reduce (a11 :: r1, b1) (ai1 :: ri, bi))) y
  == dot ri y - (ai1 / a11) * dot r1 y.
Proof.
  intros Hlen. simpl.
  rewrite dot_vsub_l by (rewrite length_vscale; assumption).
  rewrite dot_vscale_l. reflexivity.
Qed.

Lemma reduce_square (n : nat) (piv : equation) (rest : system) :
  length (fst piv) = S n ->
  Forall (fun e : equation => length (fst e) = S n) rest ->
  Forall (fun e : equation => length (fst e) = n) (map (reduce piv) rest).
Proof.
  intros Hp Hrest. apply List.Forall_map.
  eapply List.Forall_impl; [|exact Hrest].
  intros [row bi] Hrow; simpl in *.
  destruct piv as [[|a11 r1] b1]; [discriminate|].
  destruct row as [|ai1 ri]; [discriminate|].
  unfold reduce; simpl in *.
  rewrite length_vsub; rewrite ?length_vscale; congruence.
Qed.

Lemma reduce_lhs (n : nat) (a11 : Q) (r1 : vec) (b1 : Q) (rest : system) (z : Q) (y : vec) :
  ~ a11 == 0 ->
  length r1 = n ->
  Forall (fun e : equation => length (fst e) = S n) rest ->
  a11 * z + dot r1 y == 0 ->
  veq (lhs rest (z :: y)) (lhs (map (reduce (a11 :: r1, b1)) rest) y).
Proof.
  intros Hne Hr1 Hrest Hz.
  induction Hrest as [|[row bi] rest Hrow Hrest IH]; simpl.
  - constructor.
  - constructor; [|exact IH].
    destruct row as [|ai1 ri]; [discriminate|].
    simpl in Hrow.
    rewrite reduce_dot by congruence.
    simpl.
    assert (Hz' : z == - dot r1 y / a11) by (field_simplify_eq; [lra | assumption]).
    rewrite Hz'. field. assumption.
Qed.

Lemma reduce_posdef (n : nat) (a11 : Q) (r1 : vec) (b1 : Q) (rest : system) :
  0 < a11 ->
  length r1 = n ->
  Forall (fun e : equation => length (fst e) = S n) rest ->
  posdef (S n) ((a11 :: r1, b1) :: rest) ->
  posdef n (map (reduce (a11 :: r1, b1)) rest).
Proof.
  intros Hpos Hr1 Hrest Hpd y Hy Hny.
  set (z := - dot r1 y / a11).
  assert (Hz : a11 * z + dot r1 y == 0) by (unfold z; field; lra).
  specialize (Hpd (z :: y)).
  unfold sqnorm in Hpd, Hny; simpl in Hpd.
  assert (H : 0 < z * (a11 * z + dot r1 y) + dot y (lhs rest (z :: y))).
  { apply Hpd; [congruence | nra]. }
  rewrite <- (dot_proper y y _ _ (veq_refl y)
                (reduce_lhs n a11 r1 b1 rest z y ltac:(lra) Hr1 Hrest Hz)).
  nra.
Qed.

Lemma back_substitute (a11 : Q) (r1 : vec) (b1 ai1 : Q) (ri : vec) (bi : Q) (y : vec) :
  ~ a11 == 0 ->
  length ri = length r1 ->
  satisfies y (reduce (a11 :: r1, b1) (ai1 :: ri, bi)) ->
  satisfies ((b1 - dot r1 y) / a11 :: y) (ai1 :: ri, bi).
Proof.
  intros Hne Hlen Hsat. unfold satisfies in *.
  rewrite reduce_dot in Hsat by assumption.
  simpl in *.
  assert (E : dot ri y == bi - ai1 / a11 * b1 + ai1 / a11 * dot r1 y) by lra.
  rewrite E. field. assumption.
Qed.

(** On a positive definite square system the solver finds a pivot in
    every column and returns a solution. *)
Theorem solve_posdef (n : nat) :
  forall sys : system,
    square n sys -> posdef n sys ->
    exists x : vec,
      solve n sys = Some x /\ length x = n /\ Forall (satisfies x) sys.
Proof.
  induction n as [|n IH]; intros sys [Hlen Hrows] Hpd.
  - destruct sys; [|discriminate].
    exists []. repeat split. constructor.
  - destruct sys as [|[row1 b1] rest]; [discriminate|].
    inversion Hrows as [|? ? Hrow1 Hrest]; subst.
    destruct row1 as [|a11 r1]; [discriminate|].
    simpl in Hlen, Hrow1.
    pose proof (posdef_pivot_pos n a11 r1 b1 rest Hpd) as Hpos.
    assert (Hne : ~ a11 == 0) by lra.
    assert (Hr1 : length r1 = n) by congruence.
    destruct (IH (map (reduce (a11 :: r1, b1)) rest)) as (y & Hy & Hleny & Hsat).
    + split; [rewrite length_map; congruence|].
      apply reduce_square; [simpl; congruence | assumption].
    + apply reduce_posdef; assumption.
    + exists ((b1 - dot r1 y) / a11 :: y).
      split; [|split].
      * cbn [solve]. rewrite find_pivot_head by assumption.
        rewrite Hy. reflexivity.
      * simpl; congruence.
      * constructor.
        -- unfold satisfies; simpl. field. assumption.
        -- rewrite List.Forall_map in Hsat.
           clear - Hsat Hrest Hne Hr1.
           induction Hrest as [|[row bi] rest Hrow Hrest IHr]; [constructor|].
           inversion Hsat; subst.
           constructor; [|apply IHr; assumption].
           destruct row as [|ai1 ri]; [discriminate|].
           apply back_substitute; [assumption | simpl in Hrow; congruence | assumption].
Qed.

End SolverFacts.

(** * Facts about matrices *)

Section MatrixFacts.

Lemma veq_map_in {A : Type} (f g : A -> Q) (l : list A) :
  (forall i, In i l -> f i == g i) -> veq (map f l) (map g l).
Proof.
  induction l as [|i l IH]; intros H; simpl; constructor.
  - apply H; left; reflexivity.
  - apply IH; intros j Hj; apply H; right; assumption.
Qed.

Lemma length_matvec (M : matrix) (v : vec) : length (matvec M v) = length M.
Proof. apply length_map. Qed.

Lemma length_from_entries (r c : nat) (f : nat -> nat -> Q) :
  length (from_entries r c f) = r.
Proof. unfold from_entries. rewrite length_map, length_seq. reflexivity. Qed.

Lemma rows_from_entries (r c : nat) (f : nat -> nat -> Q) :
  Forall (fun row => length row = c) (from_entries r c f).
Proof.
  unfold from_entries. apply List.Forall_map, List.Forall_forall.
  intros i _. rewrite length_map, length_seq. reflexivity.
Qed.

Lemma length_conscol (c : vec) (M : matrix) :
  length c = length M -> length (conscol c M) = length M.
Proof.
  revert M; induction c as [|a c IH]; intros [|r M] H; simpl in *;
    try discriminate; auto.
Qed.

Lemma rows_conscol (m : nat) (c : vec) (M : matrix) :
  Forall (fun r => length r = m) M ->
  Forall (fun r => length r = S m) (conscol c M).
Proof.
  intros HM; revert c.
  induction HM as [|r M Hr HM IH]; intros [|a c]; simpl; constructor;
    simpl; auto.
Qed.

Lemma length_transpose (n : nat) (M : matrix) :
  Forall (fun r => length r = n) M -> length (transpose n M) = n.
Proof.
  induction 1 as [|r M Hr HM IH]; simpl.
  - apply repeat_length.
  - rewrite length_conscol; congruence.
Qed.

Lemma rows_transpose (n : nat) (M : matrix) :
  Forall (fun r => length r = length M) (transpose n M).
Proof.
  induction M as [|r M IH]; simpl.
  - apply List.Forall_forall. intros r Hr. apply repeat_spec in Hr. subst. reflexivity.
  - apply rows_conscol. exact IH.
Qed.

Lemma matvec_no_columns (n : nat) (w : vec) : matvec (repeat [] n) w = zeros n.
Proof.
  unfold zeros; induction n as [|n IH]; simpl; [reflexivity|].
  f_equal. exact IH.
Qed.

Lemma matvec_conscol (c : vec) (M : matrix) (b : Q) (w : vec) :
  length c = length M ->
  veq (matvec (conscol c M) (b :: w)) (vadd (vscale b c) (matvec M w)).
Proof.
  revert M; induction c as [|a c IH]; intros [|r M] H; simpl in *;
    try discriminate; constructor.
  - ring.
  - apply IH. congruence.
Qed.

(** The transpose is the adjoint for the dot product. *)
Lemma dot_transpose (n : nat) (M : matrix) :
  Forall (fun r => length r = n) M ->
  forall u w : vec,
    length u = n -> length w = length M ->
    dot (matvec M u) w == dot u (matvec (transpose n M) w).
Proof.
  induction 1 as [|r M Hr HM IH]; intros u w Hu Hw.
  - destruct w; [|discriminate]. simpl.
    rewrite matvec_no_columns, dot_zeros_r. reflexivity.
  - destruct w as [|b w]; [discriminate|]. simpl in *.
    assert (Hlen : length r = length (transpose n M))
      by (rewrite length_transpose; assumption).
    rewrite (dot_proper u u _ _ (veq_refl u)
               (matvec_conscol r (transpose n M) b w Hlen)).
    rewrite dot_vadd_r
      by (rewrite length_vscale, length_matvec; assumption).
    rewrite dot_vscale_r, <- (IH u w) by congruence.
    rewrite (dot_comm u r). ring.
Qed.

Lemma matvec_matmul (n : nat) (A B : matrix) (v : vec) :
  Forall (fun r => length r = n) B ->
  Forall (fun r => length r = length B) A ->
  length v = n ->
  veq (matvec (matmul n A B) v) (matvec A (matvec B v)).
Proof.
  intros HB HA Hv. unfold matmul, matvec at 1 3.
  rewrite map_map.
  apply veq_map_in. intros r Hr.
  rewrite List.Forall_forall in HA.
  rewrite dot_comm, <- (dot_transpose n B HB v r Hv (HA r Hr)).
  apply dot_comm.
Qed.

Lemma matvec_mscale (c : Q) (A : matrix) (v : vec) :
  veq (matvec (mscale c A) v) (vscale c (matvec A v)).
Proof.
  unfold mscale, matvec, vscale. rewrite !map_map.
  apply veq_map_in. intros r _. apply dot_vscale_l.
Qed.

Lemma matvec_madd (n : nat) (A B : matrix) (v : vec) :
  Forall (fun r => length r = n) A ->
  Forall (fun r => length r = n) B ->
  veq (matvec (madd A B) v) (vadd (matvec A v) (matvec B v)).
Proof.
  intros HA; revert B.
  induction HA as [|r A Hr HA IH]; intros B HB; simpl.
  - constructor.
  - destruct HB as [|s B Hs HB]; simpl; constructor.
    + apply dot_vadd_l. congruence.
    + apply IH. assumption.
Qed.

Lemma length_madd (A B : matrix) :
  length A = length B -> length (madd A B) = length A.
Proof.
  revert B; induction A as [|r A IH]; intros [|s B] H; simpl in *;
    try discriminate; auto.
Qed.

Lemma rows_madd (n : nat) (A B : matrix) :
  Forall (fun r => length r = n) A ->
  Forall (fun r => length r = n) B ->
  Forall (fun r => length r = n) (madd A B).
Proof.
  intros HA; revert B.
  induction HA as [|r A Hr HA IH]; intros B HB; simpl; [constructor|].
  destruct HB as [|s B Hs HB]; constructor.
  - rewrite length_vadd; congruence.
  - apply IH; assumption.
Qed.

Lemma rows_mscale (n : nat) (c : Q) (A : matrix) :
  Forall (fun r => length r = n) A ->
  Forall (fun r => length r = n) (mscale c A).
Proof.
  intros HA. unfold mscale. apply List.Forall_map.
  eapply List.Forall_impl; [|exact HA].
  intros r Hr. simpl. rewrite length_vscale. exact Hr.
Qed.

Lemma rows_matmul (n : nat) (A B : matrix) :
  Forall (fun r => length r = n) B ->
  Forall (fun r => length r = n) (matmul n A B).
Proof.
  intros HB. unfold matmul. apply List.Forall_map, List.Forall_forall.
  intros r _. rewrite length_matvec. apply length_transpose. exact HB.
Qed.

(** Rows given by their entries, against a vector. *)
Lemma dot_entries_ext (f g : nat -> Q) (l : list nat) (v : vec) :
  (forall j, f j == g j) -> dot (map f l) v == dot (map g l) v.
Proof.
  intros H; revert v; induction l as [|j l IH]; intros [|b v]; simpl;
    try reflexivity.
  rewrite (IH v), (H j). reflexivity.
Qed.

Lemma dot_entries_comb (c1 c2 c3 : Q) (f1 f2 f3 : nat -> Q) (l : list nat) (v : vec) :
  dot (map (fun j => c1 * f1 j + c2 * f2 j + c3 * f3 j) l) v
  == c1 * dot (map f1 l) v + c2 * dot (map f2 l) v + c3 * dot (map f3 l) v.
Proof.
  revert v; induction l as [|j l IH]; intros [|b v]; simpl; try ring.
  rewrite (IH v). ring.
Qed.

Lemma dot_delta (k : nat) (v : vec) :
  forall a : nat,
    dot (map (delta k) (seq a (length v))) v
    == if ((a <=? k) && (k <? a + length v))%nat then nth (k - a) v 0 else 0.
Proof.
  induction v as [|b v IH]; intros a; simpl.
  - destruct ((a <=? k) && (k <? a + 0))%nat eqn:E; [|reflexivity].
    apply andb_true_iff in E. destruct E as [E1 E2].
    apply Nat.leb_le in E1. apply Nat.ltb_lt in E2. lia.
  - rewrite (IH (S a)). unfold delta.
    destruct (Nat.eqb_spec a k) as [->|Hne].
    + replace (k - k)%nat with 0%nat by lia.
      rewrite Nat.leb_refl.
      replace (S k <=? k)%nat with false by (symmetry; apply Nat.leb_gt; lia).
      replace (k <? k + S (length v))%nat with true
        by (symmetry; apply Nat.ltb_lt; lia).
      simpl. ring.
    + destruct (Nat.leb_spec (S a) k) as [Hle|Hgt].
      * replace (a <=? k)%nat with true by (symmetry; apply Nat.leb_le; lia).
        replace (a + S (length v))%nat with (S a + length v)%nat by lia.
        replace (k - a)%nat with (S (k - S a)) by lia.
        simpl. destruct (k <? S (a + length v))%nat; ring.
      * replace (a <=? k)%nat with false by (symmetry; apply Nat.leb_gt; lia).
        simpl. ring.
Qed.

Lemma nth_seq_self (v : vec) :
  forall a : nat, map (fun i => nth (i - a) v 0) (seq a (length v)) = v.
Proof.
  induction v as [|b v IH]; intros a; simpl; [reflexivity|].
  rewrite Nat.sub_diag. f_equal.
  rewrite <- (IH (S a)) at 2.
  apply map_ext_in. intros i Hi. apply in_seq in Hi.
  replace (i - a)%nat with (S (i - S a)) by lia. reflexivity.
Qed.

Lemma matvec_eye (v : vec) : veq (matvec (eye (length v)) v) v.
Proof.
  unfold eye, from_entries, matvec. rewrite map_map.
  assert (E : veq (map (fun i => dot (map (fun j => if (i =? j)%nat then 1 else 0)
                                         (seq 0 (length v))) v)
                       (seq 0 (length v)))
                  (map (fun i => nth (i - 0) v 0) (seq 0 (length v)))).
  { apply veq_map_in. intros i Hi. apply in_seq in Hi.
    rewrite (dot_entries_ext _ (delta i)).
    - rewrite dot_delta.
      replace ((0 <=? i) && (i <? 0 + length v))%nat with true; [reflexivity|].
      symmetry. apply andb_true_iff.
      split; [apply Nat.leb_le | apply Nat.ltb_lt]; lia.
    - intros j. unfold delta. rewrite Nat.eqb_sym. reflexivity. }
  rewrite nth_seq_self in E. exact E.
Qed.

End MatrixFacts.

(** * The HP filter as penalised least squares *)

Section HPFacts.

Lemma diff2_entries (v : vec) :
  diff2 v
  = map (fun i => nth i v 0 - 2 * nth (S i) v 0 + nth (S (S i)) v 0)
        (seq 0 (length v - 2)).
Proof.
  induction v as [|a v IH]; [reflexivity|].
  destruct v as [|b [|c r]]; [reflexivity | reflexivity |].
  change (diff2 (a :: b :: c :: r)) with ((a - 2 * b + c) :: diff2 (b :: c :: r)).
  rewrite IH.
  replace (length (a :: b :: c :: r) - 2)%nat with (S (length (b :: c :: r) - 2))
    by (simpl; lia).
  set (m := (length (b :: c :: r) - 2)%nat).
  change (seq 0 (S m)) with (0%nat :: seq 1 m).
  rewrite <- seq_shift, map_cons, map_map. reflexivity.
Qed.

Lemma K_entry_delta (i j : nat) :
  K_entry i j == 1 * delta i j + (-2) * delta (i + 1) j + 1 * delta (i + 2) j.
Proof.
  unfold K_entry, delta.
  destruct (Nat.eqb_spec j i), (Nat.eqb_spec j (i + 1)), (Nat.eqb_spec j (i + 2));
    try lia; ring.
Qed.

Lemma K_row_dot (i : nat) (v : vec) :
  (i + 2 < length v)%nat ->
  dot (map (K_entry i) (seq 0 (length v))) v
  == nth i v 0 - 2 * nth (S i) v 0 + nth (S (S i)) v 0.
Proof.
  intros Hi.
  rewrite (dot_entries_ext _ _ _ _ (K_entry_delta i)).
  rewrite dot_entries_comb, !dot_delta.
  replace ((0 <=? i) && (i <? 0 + length v))%nat with true
    by (symmetry; apply andb_true_iff;
        split; [apply Nat.leb_le | apply Nat.ltb_lt]; lia).
  replace ((0 <=? i + 1) && (i + 1 <? 0 + length v))%nat with true
    by (symmetry; apply andb_true_iff;
        split; [apply Nat.leb_le | apply Nat.ltb_lt]; lia).
  replace ((0 <=? i + 2) && (i + 2 <? 0 + length v))%nat with true
    by (symmetry; apply andb_true_iff;
        split; [apply Nat.leb_le | apply Nat.ltb_lt]; lia).
  replace (i - 0)%nat with i by lia.
  replace (i + 1 - 0)%nat with (S i) by lia.
  replace (i + 2 - 0)%nat with (S (S i)) by lia.
  ring.
Qed.

(** [K] is the second-difference operator. *)
Lemma matvec_Kmat (v : vec) : veq (matvec (Kmat (length v)) v) (diff2 v).
Proof.
  rewrite diff2_entries.
  unfold Kmat, from_entries, matvec. rewrite map_map.
  apply veq_map_in. intros i Hi. apply in_seq in Hi.
  apply K_row_dot. lia.
Qed.

Lemma rows_Kmat (n : nat) : Forall (fun r => length r = n) (Kmat n).
Proof. apply rows_from_entries. Qed.

Lemma length_hp_matrix (n : nat) (lamb : Q) : length (hp_matrix n lamb) = n.
Proof.
  unfold hp_matrix, eye, mscale, matmul.
  rewrite length_madd; rewrite ?length_from_entries, ?length_map; [reflexivity|].
  rewrite length_transpose; [reflexivity | apply rows_Kmat].
Qed.

Lemma rows_hp_matrix (n : nat) (lamb : Q) :
  Forall (fun r => length r = n) (hp_matrix n lamb).
Proof.
  unfold hp_matrix. apply rows_madd.
  - apply rows_from_entries.
  - apply rows_mscale, rows_matmul, rows_Kmat.
Qed.

(** The bilinear form of [I + lamb * K.T.dot(K)]. *)
Lemma hp_bilinear (n : nat) (lamb : Q) (h v : vec) :
  length h = n -> length v = n ->
  dot h (matvec (hp_matrix n lamb) v)
  == dot h v + lamb * dot (matvec (Kmat n) h) (matvec (Kmat n) v).
Proof.
  intros Hh Hv. unfold hp_matrix.
  set (K := Kmat n).
  set (KtK := matmul n (transpose n K) K).
  assert (HK : Forall (fun r => length r = n) K) by apply rows_Kmat.
  rewrite (dot_proper h h _ _ (veq_refl h)
             (matvec_madd n (eye n) (mscale lamb KtK) v
                (rows_from_entries _ _ _)
                (rows_mscale n lamb KtK (rows_matmul n _ K HK)))).
  rewrite dot_vadd_r.
  2:{ rewrite !length_matvec. unfold eye, mscale, KtK, matmul.
      rewrite length_from_entries, !length_map, length_transpose; auto. }
  subst n.
  rewrite <- Hv at 1.
  rewrite (dot_proper h h _ _ (veq_refl h) (matvec_eye v)).
  rewrite (dot_proper h h _ _ (veq_refl h) (matvec_mscale lamb KtK v)).
  rewrite dot_vscale_r. unfold KtK.
  rewrite (dot_proper h h _ _ (veq_refl h)
             (matvec_matmul (length h) (transpose (length h) K) K v HK
                (rows_transpose _ K) Hv)).
  rewrite <- (dot_transpose (length h) K HK h (matvec K v) eq_refl
                (length_matvec K v)).
  reflexivity.
Qed.

Lemma lhs_augment (A : matrix) (b v : vec) :
  length A = length b -> lhs (augment A b) v = matvec A v.
Proof.
  revert b; induction A as [|r A IH]; intros [|c b] H; simpl in *;
    try discriminate; [reflexivity|].
  f_equal. apply IH. congruence.
Qed.

Lemma square_augment (n : nat) (A : matrix) (b : vec) :
  length A = n -> length b = n -> Forall (fun r => length r = n) A ->
  square n (augment A b).
Proof.
  intros HA Hb Hrows. split.
  - unfold augment. change (length (combine A b) = n).
    rewrite List.length_combine. lia.
  - clear HA Hb. revert b.
    induction Hrows as [|r A Hr Hrows IH]; intros [|c b]; simpl;
      constructor; auto.
Qed.

Lemma satisfies_augment (A : matrix) (b v : vec) :
  length A = length b ->
  Forall (satisfies v) (augment A b) -> veq (matvec A v) b.
Proof.
  revert b; induction A as [|r A IH]; intros [|c b] H Hsat; simpl in *;
    try discriminate; [constructor|].
  inversion Hsat; subst.
  constructor; [assumption | apply IH; [congruence | assumption]].
Qed.

Lemma hp_posdef (lamb : Q) (x : vec) :
  0 <= lamb -> posdef (length x) (augment (hp_matrix (length x) lamb) x).
Proof.
  intros Hl v Hv Hpos.
  rewrite lhs_augment by (rewrite length_hp_matrix; reflexivity).
  rewrite hp_bilinear by auto.
  pose proof (sqnorm_nonneg (matvec (Kmat (length x)) v)) as HK.
  unfold sqnorm in *. nra.
Qed.

(** The linear system of the filter has a solution, which the solver
    returns, whenever the penalty is not negative. *)
Lemma spsolve_hp (lamb : Q) (x : vec) :
  0 <= lamb ->
  exists trend : vec,
    spsolve (length x) (hp_matrix (length x) lamb) x = Some trend
    /\ length trend = length x
    /\ veq (matvec (hp_matrix (length x) lamb) trend) x.
Proof.
  intros Hl.
  destruct (solve_posdef (length x) (augment (hp_matrix (length x) lamb) x))
    as (trend & Hs & Hlen & Hsat).
  - apply square_augment;
      [apply length_hp_matrix | reflexivity | apply rows_hp_matrix].
  - apply hp_posdef; assumption.
  - exists trend. repeat split; try assumption.
    apply satisfies_augment; [apply length_hp_matrix | assumption].
Qed.

Lemma hpfilter_returns (lamb : Q) (x : vec) :
  (2 <= length x)%nat -> 0 <= lamb ->
  exists trend : vec,
    hpfilter x lamb = Ok (vsub x trend, trend)
    /\ length trend = length x
    /\ veq (matvec (hp_matrix (length x) lamb) trend) x.
Proof.
  intros Hn Hl.
  destruct (spsolve_hp lamb x Hl) as (trend & Hs & Hlen & Heq).
  exists trend. repeat split; try assumption.
  unfold hpfilter.
  replace (length x <? 2)%nat with false by (symmetry; apply Nat.ltb_ge; lia).
  rewrite Hs. reflexivity.
Qed.

End HPFacts.

(** * Optimality of the trend and monotonicity in the penalty *)

Section Optimality.

Lemma sqnorm_proper (u v : vec) : veq u v -> sqnorm u == sqnorm v.
Proof. intros H. unfold sqnorm. apply dot_proper; assumption. Qed.

Lemma sqnorm_vsub_expand (x u t : vec) :
  length x = length u -> length u = length t ->
  sqnorm (vsub x u)
  == sqnorm (vsub x t) - 2 * dot (vsub u t) (vsub x t) + sqnorm (vsub u t).
Proof.
  unfold sqnorm.
  revert u t; induction x as [|a x IH]; intros [|b u] [|c t] H1 H2;
    simpl in *; try discriminate; try ring.
  rewrite (IH u t) by congruence. ring.
Qed.

Lemma sqnorm_matvec_expand (M : matrix) (u t : vec) :
  length u = length t ->
  sqnorm (matvec M u)
  == sqnorm (matvec M t)
     + 2 * dot (matvec M (vsub u t)) (matvec M t)
     + sqnorm (matvec M (vsub u t)).
Proof.
  intros Hlen. unfold sqnorm.
  induction M as [|r M IH]; simpl; [ring|].
  rewrite IH, (dot_vsub_r r u t Hlen). ring.
Qed.

(** The solution of the filter's linear system minimises the penalised
    least-squares objective. *)
Lemma hp_minimiser (lamb : Q) (x trend u : vec) :
  0 <= lamb ->
  length trend = length x -> length u = length x ->
  veq (matvec (hp_matrix (length x) lamb) trend) x ->
  hp_objective lamb x trend <= hp_objective lamb x u.
Proof.
  intros Hl Ht Hu Hsol. unfold hp_objective.
  set (h := vsub u trend).
  assert (Hh : length h = length x) by (unfold h; rewrite length_vsub; congruence).
  rewrite <- (sqnorm_proper _ _ (matvec_Kmat u)).
  rewrite <- (sqnorm_proper _ _ (matvec_Kmat trend)).
  rewrite Hu, Ht.
  set (K := Kmat (length x)).
  pose proof (sqnorm_vsub_expand x u trend ltac:(congruence) ltac:(congruence)) as E1.
  pose proof (sqnorm_matvec_expand K u trend ltac:(congruence)) as E2.
  fold h in E1, E2.
  assert (E : dot h (vsub x trend) == lamb * dot (matvec K h) (matvec K trend)).
  { rewrite dot_vsub_r by congruence.
    rewrite <- (dot_proper h h _ _ (veq_refl h) Hsol).
    rewrite hp_bilinear by assumption. fold K. ring. }
  pose proof (sqnorm_nonneg h) as H1.
  pose proof (sqnorm_nonneg (matvec K h)) as H2.
  rewrite E1, E2, E. nra.
Qed.

(** Of two minimisers, the one for the larger penalty has the smaller
    penalised term. *)
Lemma penalty_antitone (l1 l2 F1 P1 F2 P2 : Q) :
  l1 < l2 ->
  F1 + l1 * P1 <= F2 + l1 * P2 ->
  F2 + l2 * P2 <= F1 + l2 * P1 ->
  P2 <= P1.
Proof. intros Hl H1 H2. nra. Qed.

Lemma hp_roughness_antitone (l1 l2 : Q) (x t1 t2 : vec) :
  0 <= l1 -> l1 < l2 ->
  length t1 = length x -> length t2 = length x ->
  veq (matvec (hp_matrix (length x) l1) t1) x ->
  veq (matvec (hp_matrix (length x) l2) t2) x ->
  sqnorm (diff2 t2) <= sqnorm (diff2 t1).
Proof.
  intros H0 Hl Ht1 Ht2 Hs1 Hs2.
  pose proof (hp_minimiser l1 x t1 t2 H0 Ht1 Ht2 Hs1) as M1.
  pose proof (hp_minimiser l2 x t2 t1 ltac:(lra) Ht2 Ht1 Hs2) as M2.
  unfold hp_objective in *.
  eapply (penalty_antitone l1 l2); eassumption.
Qed.

End Optimality.

(** * The scripts' calls of the filter *)

Section Decomposition.

Lemma nth_vsub_add (x t : vec) (i : nat) :
  length t = length x -> (i < length x)%nat ->
  nth i (vsub x t) 0 + nth i t 0 == nth i x 0.
Proof.
  revert t i; induction x as [|a x IH]; intros [|b t] i Hlen Hi;
    simpl in *; try discriminate; try lia.
  destruct i as [|i]; [ring|].
  apply IH; [congruence | lia].
Qed.

Lemma rel_close_eq (a b : Q) : a == b -> rel_close a b.
Proof.
  intros E. unfold rel_close. rewrite E.
  setoid_replace (b - b) with 0 using relation Qeq by ring.
  change (Qabs 0) with 0. pose proof (Qabs_nonneg b). lra.
Qed.

Lemma recomposes_cycle_trend (x t : vec) :
  length t = length x -> recomposes x (vsub x t) t.
Proof.
  intros Hlen. split; [|split].
  - rewrite length_vsub; congruence.
  - assumption.
  - intros i Hi. pose proof (nth_vsub_add x t i Hlen Hi) as E.
    split; [exact E | apply rel_close_eq; exact E].
Qed.

Lemma recomposes_comm (s a b : vec) : recomposes s a b -> recomposes s b a.
Proof.
  intros (Ha & Hb & H). split; [|split]; try assumption.
  intros i Hi. destruct (H i Hi) as [E _].
  assert (E' : nth i b 0 + nth i a 0 == nth i s 0) by (rewrite <- E; ring).
  split; [exact E' | apply rel_close_eq; exact E'].
Qed.

Lemma unpack_hpfilter (x : vec) (lamb : Q) (c t : vec) :
  hpfilter x lamb = Ok (c, t) ->
  Project1.unpack x lamb = Ok {| Project1.cycle := c; Project1.trend := t |}.
Proof. intros H. unfold Project1.unpack. rewrite H. reflexivity. Qed.

Lemma apply_hpfilter_hpfilter (lamb : Q) (x y c t c' t' : vec) :
  hpfilter x lamb = Ok (c, t) ->
  hpfilter y lamb = Ok (c', t') ->
  Midterm1.apply_hpfilter lamb x y
  = Ok {| Midterm1.spain_trend := c; Midterm1.spain_cycle := t;
          Midterm1.japan_trend := c'; Midterm1.japan_cycle := t' |}.
Proof.
  intros H H'. unfold Midterm1.apply_hpfilter. rewrite H, H'. reflexivity.
Qed.

End Decomposition.

(** * The claims *)

(** C1. For every series of at least 3 observations and every positive
    [lamb], both scripts obtain a decomposition, and the two components they
    bind add up to the series at every index: exactly, hence within the
    relative tolerance 1e-9.  In midterm1-4,5.py this holds for the Spanish
    series [s] and for the Japanese one [s']. *)
Theorem C1_trend_plus_cycle (s s' : vec) (lamb : Q) :
  (3 <= length s)%nat -> (3 <= length s')%nat -> 0 < lamb ->
  (exists u : Project1.unpacked,
      Project1.unpack s lamb = Ok u
      /\ recomposes s (Project1.trend u) (Project1.cycle u))
  /\ (exists f : Midterm1.filtered,
        Midterm1.apply_hpfilter lamb s s' = Ok f
        /\ recomposes s (Midterm1.spain_trend f) (Midterm1.spain_cycle f)
        /\ recomposes s' (Midterm1.japan_trend f) (Midterm1.japan_cycle f)).
Proof.
  intros Hn Hn' Hl.
  destruct (hpfilter_returns lamb s ltac:(lia) ltac:(lra)) as (t & Hf & Hlen & _).
  destruct (hpfilter_returns lamb s' ltac:(lia) ltac:(lra))
    as (t' & Hf' & Hlen' & _).
  pose proof (recomposes_cycle_trend s t Hlen) as R.
  pose proof (recomposes_cycle_trend s' t' Hlen') as R'.
  split.
  - eexists. split; [apply unpack_hpfilter; exact Hf|].
    simpl. apply recomposes_comm. exact R.
  - eexists. split; [apply (apply_hpfilter_hpfilter _ _ _ _ _ _ _ Hf Hf')|].
    simpl. auto.
Qed.

Lemma C1_witness :
  (exists u : Project1.unpacked,
      Project1.unpack [1; 2; 4] 1 = Ok u
      /\ recomposes [1; 2; 4] (Project1.trend u) (Project1.cycle u))
  /\ (exists f : Midterm1.filtered,
        Midterm1.apply_hpfilter 1 [1; 2; 4] [3; 1; 2; 5] = Ok f
        /\ recomposes [1; 2; 4] (Midterm1.spain_trend f) (Midterm1.spain_cycle f)
        /\ recomposes [3; 1; 2; 5]
             (Midterm1.japan_trend f) (Midterm1.japan_cycle f)).
Proof.
  apply (C1_trend_plus_cycle [1; 2; 4] [3; 1; 2; 5] 1);
    [simpl; lia | simpl; lia | reflexivity].
Defined.

(** C3. The two scripts unpack the pair returned by [hpfilter] in opposite
    orders: on the same series and penalty, what midterm1-4,5.py binds to
    its variable named trend is what project1.py binds to its variable named
    cycle, and the other way round; the runs also fail alike. *)
Theorem C3_bindings_swapped (x : vec) (lamb : Q) :
  Project1.unpack x lamb
  = (f ← Midterm1.apply_hpfilter lamb x x;
     Ok {| Project1.cycle := Midterm1.spain_trend f;
           Project1.trend := Midterm1.spain_cycle f |})
  /\ Midterm1.apply_hpfilter lamb x x
     = (u ← Project1.unpack x lamb;
        Ok {| Midterm1.spain_trend := Project1.cycle u;
              Midterm1.spain_cycle := Project1.trend u;
              Midterm1.japan_trend := Project1.cycle u;
              Midterm1.japan_cycle := Project1.trend u |}).
Proof.
  unfold Project1.unpack, Midterm1.apply_hpfilter.
  destruct (hpfilter x lamb) as [[c t]| |]; split; reflexivity.
Qed.

(** The swap is a real one: on the series 1, 2, 4 with penalty 1 the
    variable named trend in midterm1-4,5.py holds the residual 1/7, -2/7,
    1/7, while the one in project1.py holds the smooth component. *)
Example bindings_differ :
  exists (f : Midterm1.filtered) (u : Project1.unpacked),
    Midterm1.apply_hpfilter 1 [1; 2; 4] [1; 2; 4] = Ok f
    /\ Project1.unpack [1; 2; 4] 1 = Ok u
    /\ veq (Midterm1.spain_trend f) [1 # 7; -2 # 7; 1 # 7]
    /\ veq (Project1.trend u) [6 # 7; 16 # 7; 27 # 7].
Proof.
  do 2 eexists. split; [vm_compute; reflexivity|].
  split; [vm_compute; reflexivity|].
  split; repeat constructor.
Qed.

(** With two observations the penalty matrix is empty and the system of
    the filter is the identity, whatever the penalty. *)
Lemma hpfilter_two (a b lamb : Q) :
  exists c t : vec,
    hpfilter [a; b] lamb = Ok (c, t) /\ veq t [a; b] /\ veq c (zeros 2).
Proof.
  unfold hpfilter. simpl length. cbn [Nat.ltb Nat.leb].
  unfold spsolve, hp_matrix, Kmat, eye, from_entries.
  cbn -[Qplus Qmult Qminus Qdiv Qeq_bool Qopp].
  destruct (Qeq_bool (1 + lamb * 0) 0) eqn:E1.
  { apply Qeq_bool_iff in E1. lra. }
  cbn -[Qplus Qmult Qminus Qdiv Qeq_bool Qopp].
  assert (P : 1 + lamb * 0 - (0 + lamb * 0) / (1 + lamb * 0) * (0 + lamb * 0) == 1)
    by field.
  match goal with
  | |- context [Qeq_bool ?p 0] => destruct (Qeq_bool p 0) eqn:E2
  end.
  { apply Qeq_bool_iff in E2. lra. }
  cbn -[Qplus Qmult Qminus Qdiv Qeq_bool Qopp].
  do 2 eexists. split; [reflexivity|].
  assert (T2 : (b - (0 + lamb * 0) / (1 + lamb * 0) * a - 0)
               / (1 + lamb * 0 - (0 + lamb * 0) / (1 + lamb * 0) * (0 + lamb * 0))
               == b).
  { rewrite P. field. }
  assert (T1 : (a - ((0 + lamb * 0)
                     * ((b - (0 + lamb * 0) / (1 + lamb * 0) * a - 0)
                        / (1 + lamb * 0
                           - (0 + lamb * 0) / (1 + lamb * 0) * (0 + lamb * 0)))
                     + 0))
               / (1 + lamb * 0) == a).
  { rewrite T2. field. }
  split; repeat constructor; try assumption.
  - rewrite T1. ring.
  - rewrite T2. ring.
Qed.

(** C4, as the code has it.  Neither script checks the length of the series
    before it calls [hpfilter], and nothing raises InsufficientDataError: a
    series of exactly 2 observations is decomposed, into itself as the trend
    and a cycle of zeros; with fewer than 2 the call ends with the
    ValueError of the library. *)
Theorem C4_short_series (x : vec) (lamb : Q) :
  (length x < 3)%nat ->
  (length x = 2%nat ->
   exists c t : vec,
     hpfilter x lamb = Ok (c, t)
     /\ Project1.unpack x lamb = Ok {| Project1.cycle := c; Project1.trend := t |}
     /\ veq t x /\ veq c (zeros 2))
  /\ ((length x < 2)%nat ->
      raises (hpfilter x lamb) ValueError
      /\ raises (Project1.unpack x lamb) ValueError
      /\ raises (Midterm1.apply_hpfilter lamb x x) ValueError)
  /\ ~ raises (hpfilter x lamb) InsufficientDataError
  /\ ~ raises (Project1.unpack x lamb) InsufficientDataError
  /\ ~ raises (Midterm1.apply_hpfilter lamb x x) InsufficientDataError.
Proof.
  intros Hlt.
  assert (Hshort : (length x < 2)%nat -> hpfilter x lamb = Raise ValueError).
  { intros H. unfold hpfilter.
    replace (length x <? 2)%nat with true by (symmetry; apply Nat.ltb_lt; lia).
    reflexivity. }
  assert (Htwo : length x = 2%nat ->
                 exists c t, hpfilter x lamb = Ok (c, t) /\ veq t x /\ veq c (zeros 2)).
  { intros H. destruct x as [|a [|b [|? ?]]]; try discriminate.
    apply hpfilter_two. }
  split; [|split].
  - intros H. destruct (Htwo H) as (c & t & Hf & Ht & Hc).
    exists c, t. repeat split; try assumption.
    apply unpack_hpfilter; assumption.
  - intros H. specialize (Hshort H).
    unfold raises, Project1.unpack, Midterm1.apply_hpfilter.
    rewrite Hshort. repeat split; reflexivity.
  - unfold raises, Project1.unpack, Midterm1.apply_hpfilter.
    destruct (Nat.eq_dec (length x) 2%nat) as [H2|H2].
    + destruct (Htwo H2) as (c & t & Hf & _). rewrite Hf.
      repeat split; discriminate.
    + rewrite Hshort by lia. repeat split; discriminate.
Qed.

Lemma C4_witness :
  (length [1; 2] = 2%nat ->
   exists c t : vec,
     hpfilter [1; 2] 1600 = Ok (c, t)
     /\ Project1.unpack [1; 2] 1600
        = Ok {| Project1.cycle := c; Project1.trend := t |}
     /\ veq t [1; 2] /\ veq c (zeros 2))
  /\ ((length [1; 2] < 2)%nat ->
      raises (hpfilter [1; 2] 1600) ValueError
      /\ raises (Project1.unpack [1; 2] 1600) ValueError
      /\ raises (Midterm1.apply_hpfilter 1600 [1; 2] [1; 2]) ValueError)
  /\ ~ raises (hpfilter [1; 2] 1600) InsufficientDataError
  /\ ~ raises (Project1.unpack [1; 2] 1600) InsufficientDataError
  /\ ~ raises (Midterm1.apply_hpfilter 1600 [1; 2] [1; 2]) InsufficientDataError.
Proof. apply (C4_short_series [1; 2] 1600). simpl. lia. Defined.

(** The claim C4 fails on the series 1, 2: the filter returns a
    decomposition instead of failing. *)
Lemma C4_counterexample :
  (length [1; 2] < 3)%nat
  /\ hpfilter [1; 2] 1600 = Ok ([0; 0], [1; 2])
  /\ Project1.unpack [1; 2] 1600
     = Ok {| Project1.cycle := [0; 0]; Project1.trend := [1; 2] |}
  /\ ~ raises (hpfilter [1; 2] 1600) InsufficientDataError.
Proof.
  split; [simpl; lia|].
  split; [vm_compute; reflexivity|].
  split; [vm_compute; reflexivity|].
  unfold raises. vm_compute. discriminate.
Qed.

(** * Labels, alignment and the ratio of standard deviations *)

Section Midterm1Facts.

Lemma gt_true (a b : Q) : gt a b = true <-> b < a.
Proof.
  unfold gt. rewrite negb_true_iff.
  destruct (Qle_bool a b) eqn:E.
  - apply Qle_bool_iff in E. split; [discriminate | lra].
  - split; [intros _ | reflexivity].
    apply Qnot_le_lt. intros H. apply Qle_bool_iff in H. congruence.
Qed.

Lemma gt_false (a b : Q) : gt a b = false <-> a <= b.
Proof.
  destruct (gt a b) eqn:E.
  - apply gt_true in E. split; [discriminate | lra].
  - split; [intros _ | reflexivity].
    apply Qnot_lt_le. intros H. apply gt_true in H. congruence.
Qed.

Lemma np_divide_zero (a b : Q) : b == 0 -> np_divide a b = NonFinite.
Proof.
  intros H. unfold np_divide.
  apply Qeq_bool_iff in H. rewrite H. reflexivity.
Qed.

Lemma np_divide_nonzero (a b : Q) : ~ b == 0 -> np_divide a b = Ok (a / b).
Proof.
  intros H. unfold np_divide.
  destruct (Qeq_bool b 0) eqn:E; [|reflexivity].
  apply Qeq_bool_iff in E. contradiction.
Qed.


Lemma slice_In (s : Midterm1.series) (start stop : Z) (p : Z * Q) :
  In p (Midterm1.slice s start stop)
  <-> In p s /\ (start <= fst p <= stop)%Z.
Proof.
  unfold Midterm1.slice. rewrite filter_In, andb_true_iff, !Z.leb_le.
  tauto.
Qed.

Lemma slice_empty_range (s : Midterm1.series) (start stop : Z) :
  (stop < start)%Z -> Midterm1.slice s start stop = [].
Proof.
  intros H. unfold Midterm1.slice.
  induction s as [|p s IH]; simpl; [reflexivity|].
  rewrite IH.
  destruct (start <=? fst p)%Z eqn:E1, (fst p <=? stop)%Z eqn:E2;
    try reflexivity.
  apply Z.leb_le in E1, E2. lia.
Qed.

Lemma fold_min_spec (ts : list Z) :
  forall t0 : Z,
    In (fold_left Z.min ts t0) (t0 :: ts)
    /\ forall t, In t (t0 :: ts) -> (fold_left Z.min ts t0 <= t)%Z.
Proof.
  induction ts as [|t1 ts IH]; intros t0; simpl.
  - split; [left; reflexivity | intros t [<-|[]]; lia].
  - destruct (IH (Z.min t0 t1)) as [Hin Hle]. split.
    + destruct Hin as [E|Hin]; [|right; right; exact Hin].
      rewrite <- E. destruct (Z.min_spec t0 t1) as [[_ ->]|[_ ->]]; auto.
    + intros t [<-|[<-|Ht]].
      * etransitivity; [apply Hle; left; reflexivity | lia].
      * etransitivity; [apply Hle; left; reflexivity | lia].
      * apply Hle. right. exact Ht.
Qed.

Lemma fold_max_spec (ts : list Z) :
  forall t0 : Z,
    In (fold_left Z.max ts t0) (t0 :: ts)
    /\ forall t, In t (t0 :: ts) -> (t <= fold_left Z.max ts t0)%Z.
Proof.
  induction ts as [|t1 ts IH]; intros t0; simpl.
  - split; [left; reflexivity | intros t [<-|[]]; lia].
  - destruct (IH (Z.max t0 t1)) as [Hin Hle]. split.
    + destruct Hin as [E|Hin]; [|right; right; exact Hin].
      rewrite <- E. destruct (Z.max_spec t0 t1) as [[_ ->]|[_ ->]]; auto.
    + intros t [<-|[<-|Ht]].
      * etransitivity; [|apply Hle; left; reflexivity]. lia.
      * etransitivity; [|apply Hle; left; reflexivity]. lia.
      * apply Hle. right. exact Ht.
Qed.

(** [index_bounds] returns the least and the greatest time stamp. *)
Lemma index_bounds_spec (s : Midterm1.series) (lo hi : Z) :
  Midterm1.index_bounds s = Ok (lo, hi) ->
  In lo (Midterm1.index s) /\ In hi (Midterm1.index s)
  /\ forall t, In t (Midterm1.index s) -> (lo <= t <= hi)%Z.
Proof.
  unfold Midterm1.index_bounds.
  destruct (Midterm1.index s) as [|t0 ts]; [discriminate|].
  intros H. inversion H; subst.
  destruct (fold_min_spec ts t0) as [H1 H2].
  destruct (fold_max_spec ts t0) as [H3 H4].
  repeat split; auto.
Qed.

End Midterm1Facts.

(** C2, as the code has it.  The label is a total function of the
    correlation, read from the thresholds top-down with the strict
    comparison [>]: each band excludes its lower bound and includes its
    upper one.  0.65 is a strong positive correlation and -0.5 a moderate or
    stronger negative one. *)
Theorem C2_strength_table (c : Q) :
  (0.7 < c -> Midterm1.correlation_strength c = Midterm1.very_strong_positive)
  /\ (0.5 < c /\ c <= 0.7 ->
      Midterm1.correlation_strength c = Midterm1.strong_positive)
  /\ (0.3 < c /\ c <= 0.5 ->
      Midterm1.correlation_strength c = Midterm1.moderate_positive)
  /\ (0.1 < c /\ c <= 0.3 ->
      Midterm1.correlation_strength c = Midterm1.weak_positive)
  /\ (-0.1 < c /\ c <= 0.1 ->
      Midterm1.correlation_strength c = Midterm1.negligible)
  /\ (-0.3 < c /\ c <= -0.1 ->
      Midterm1.correlation_strength c = Midterm1.weak_negative)
  /\ (c <= -0.3 ->
      Midterm1.correlation_strength c = Midterm1.moderate_or_stronger_negative)
  /\ Midterm1.correlation_strength 0.65 = Midterm1.strong_positive
  /\ Midterm1.correlation_strength (-0.5) = Midterm1.moderate_or_stronger_negative.
Proof.
  unfold Midterm1.correlation_strength.
  destruct (gt c 0.7) eqn:E1; [apply gt_true in E1 | apply gt_false in E1];
  destruct (gt c 0.5) eqn:E2; [apply gt_true in E2 | apply gt_false in E2 | |];
  destruct (gt c 0.3) eqn:E3;
  destruct (gt c 0.1) eqn:E4;
  destruct (gt c (-0.1)) eqn:E5;
  destruct (gt c (-0.3)) eqn:E6;
  rewrite ?gt_true, ?gt_false in *;
  repeat split; try reflexivity; intros; try reflexivity; exfalso; lra.
Qed.

(** The claim C2 fails at every threshold: at 0.7 the first test
    [correlation > 0.7] is false and the label is the one of the second
    band. *)
Lemma C2_counterexample :
  0.7 <= 0.7
  /\ Midterm1.correlation_strength 0.7 = Midterm1.strong_positive
  /\ Midterm1.correlation_strength 0.7 <> Midterm1.very_strong_positive.
Proof. split; [lra | split; [reflexivity | discriminate]]. Qed.

(** C5, as the code has it.  Two series with a first entry each are cut to
    the common range from the later start to the earlier end, ends included,
    the start and the end of a series being its least and its greatest time
    stamp; when the two ranges do not overlap no error is raised: both cuts
    are empty. *)
Theorem C5_align_common_range
  (spain_gdp japan_gdp : Midterm1.series) (minA maxA minB maxB : Z) :
  Midterm1.index_bounds spain_gdp = Ok (minA, maxA) ->
  Midterm1.index_bounds japan_gdp = Ok (minB, maxB) ->
  (forall t, In t (Midterm1.index spain_gdp) -> (minA <= t <= maxA)%Z)
  /\ (forall t, In t (Midterm1.index japan_gdp) -> (minB <= t <= maxB)%Z)
  /\ exists a b : Midterm1.series,
      Midterm1.align_common_range spain_gdp japan_gdp = Ok (a, b)
      /\ (forall p, In p a <->
                    In p spain_gdp
                    /\ (Z.max minA minB <= fst p <= Z.min maxA maxB)%Z)
      /\ (forall p, In p b <->
                    In p japan_gdp
                    /\ (Z.max minA minB <= fst p <= Z.min maxA maxB)%Z)
      /\ ((Z.min maxA maxB < Z.max minA minB)%Z -> a = [] /\ b = [])
      /\ ~ raises (Midterm1.align_common_range spain_gdp japan_gdp)
            EmptyIntersectionError.
Proof.
  intros HA HB.
  split; [apply (index_bounds_spec _ _ _ HA)|].
  split; [apply (index_bounds_spec _ _ _ HB)|].
  unfold Midterm1.align_common_range. rewrite HA, HB.
  do 2 eexists. split; [reflexivity|].
  split; [intros p; apply slice_In|].
  split; [intros p; apply slice_In|].
  split; [|discriminate].
  intros H. split; apply slice_empty_range; exact H.
Qed.

Lemma C5_witness :
  (forall t, In t (Midterm1.index [(1%Z, 10); (2%Z, 11); (3%Z, 12)]) ->
             (1 <= t <= 3)%Z)
  /\ (forall t, In t (Midterm1.index [(2%Z, 20); (3%Z, 21); (4%Z, 22)]) ->
                (2 <= t <= 4)%Z)
  /\ exists a b : Midterm1.series,
      Midterm1.align_common_range
        [(1%Z, 10); (2%Z, 11); (3%Z, 12)] [(2%Z, 20); (3%Z, 21); (4%Z, 22)]
      = Ok (a, b)
      /\ (forall p, In p a <->
                    In p [(1%Z, 10); (2%Z, 11); (3%Z, 12)]
                    /\ (Z.max 1 2 <= fst p <= Z.min 3 4)%Z)
      /\ (forall p, In p b <->
                    In p [(2%Z, 20); (3%Z, 21); (4%Z, 22)]
                    /\ (Z.max 1 2 <= fst p <= Z.min 3 4)%Z)
      /\ ((Z.min 3 4 < Z.max 1 2)%Z -> a = [] /\ b = [])
      /\ ~ raises (Midterm1.align_common_range
                     [(1%Z, 10); (2%Z, 11); (3%Z, 12)]
                     [(2%Z, 20); (3%Z, 21); (4%Z, 22)])
            EmptyIntersectionError.
Proof.
  apply (C5_align_common_range
           [(1%Z, 10); (2%Z, 11); (3%Z, 12)] [(2%Z, 20); (3%Z, 21); (4%Z, 22)]
           1 3 2 4); reflexivity.
Defined.

(** The claim C5 fails on two series whose ranges are disjoint: the time
    stamps 1, 2 against 5, 6.  The later start 5 exceeds the earlier end 2,
    and the alignment returns two empty series. *)
Lemma C5_counterexample :
  Midterm1.index_bounds [(1%Z, 10); (2%Z, 11)] = Ok (1, 2)%Z
  /\ Midterm1.index_bounds [(5%Z, 20); (6%Z, 21)] = Ok (5, 6)%Z
  /\ (Z.min 2 6 < Z.max 1 5)%Z
  /\ Midterm1.align_common_range [(1%Z, 10); (2%Z, 11)] [(5%Z, 20); (6%Z, 21)]
     = Ok ([], [])
  /\ ~ raises (Midterm1.align_common_range
                 [(1%Z, 10); (2%Z, 11)] [(5%Z, 20); (6%Z, 21)])
        EmptyIntersectionError.
Proof.
  split; [reflexivity|]. split; [reflexivity|]. split; [reflexivity|].
  split; [reflexivity | discriminate].
Qed.

Section StdFacts.







End StdFacts.




(** A denominator whose standard deviation is no rational number: the
    ratio of the series 0, 2 to itself is 1. *)
Example ratio_over_irrational_std :
  exists q : Q,
    Midterm1.cycle_std_ratio Midterm1.sqrt_down [0; 2] [0; 2] = Ok q /\ q == 1.
Proof. eexists. split; [vm_compute; reflexivity | reflexivity]. Qed.

(** * The loop of project1.py *)

Section LoopFacts.

(** Unfolds the sequencing of outcomes in one turn of the loop. *)
Ltac run_bind :=
  unfold Project1.body, mbind, outcome_bind, bind.
Tactic Notation "run_bind" "in" hyp(H) :=
  unfold Project1.body, mbind, outcome_bind, bind in H.

Lemma unpack_returns (x : vec) (lam : Q) :
  (2 <= length x)%nat -> 0 <= lam ->
  exists t : vec,
    Project1.unpack x lam
    = Ok {| Project1.cycle := vsub x t; Project1.trend := t |}
    /\ length t = length x
    /\ veq (matvec (hp_matrix (length x) lam) t) x.
Proof.
  intros Hn Hl.
  destruct (hpfilter_returns lam x Hn Hl) as (t & Hf & Hlen & Hsol).
  exists t. split; [apply unpack_hpfilter; exact Hf | auto].
Qed.

(** What the loop leaves in the two dictionaries: under every penalty it
    went through, the components of that penalty's decomposition, and
    under the other keys what was there before. *)
Lemma loop_Ok (x : vec) (lams : list Z) :
  forall st r : Project1.dicts,
    Project1.loop x lams st = Ok r ->
    (forall lam : Z, In lam lams ->
       exists u : Project1.unpacked,
         Project1.unpack x (inject_Z lam) = Ok u
         /\ Project1.trends r !! lam = Some (Project1.trend u)
         /\ Project1.cycles r !! lam = Some (Project1.cycle u))
    /\ (forall lam : Z, ~ In lam lams ->
          Project1.trends r !! lam = Project1.trends st !! lam
          /\ Project1.cycles r !! lam = Project1.cycles st !! lam).
Proof.
  induction lams as [|l lams IH]; intros st r Hr; simpl in Hr.
  - inversion Hr; subst. split; [intros lam []| auto].
  - run_bind in Hr.
    destruct (Project1.unpack x (inject_Z l)) as [u| |] eqn:Hu; try discriminate.
    destruct (IH _ _ Hr) as [Hin Hout]. simpl in Hout.
    split.
    + intros lam Hlam.
      destruct (in_dec Z.eq_dec lam lams) as [Hi|Hi]; [apply Hin; exact Hi|].
      destruct Hlam as [<-|Hlam]; [|contradiction].
      exists u. destruct (Hout l Hi) as [Ht Hc].
      rewrite Ht, Hc, !lookup_insert_eq. auto.
    + intros lam Hlam.
      destruct (Hout lam ltac:(intros H; apply Hlam; right; exact H)) as [Ht Hc].
      rewrite Ht, Hc, !lookup_insert_ne
        by (intros ->; apply Hlam; left; reflexivity).
      auto.
Qed.

Lemma loop_returns (x : vec) (lams : list Z) :
  (2 <= length x)%nat -> Forall (fun l => (0 <= l)%Z) lams ->
  forall st : Project1.dicts, exists r, Project1.loop x lams st = Ok r.
Proof.
  intros Hn Hl. induction Hl as [|l lams Hl0 Hl IH]; intros st; simpl.
  - eexists; reflexivity.
  - destruct (unpack_returns x (inject_Z l) Hn) as (t & Hu & _).
    { change 0 with (inject_Z 0). rewrite <- Zle_Qle. exact Hl0. }
    run_bind. rewrite Hu. apply IH.
Qed.

End LoopFacts.

(** * Smoothness of the trend *)

Section SmoothnessFacts.

Lemma Qdiv_le_mono (a b d : Q) : 0 <= d -> a <= b -> a / d <= b / d.
Proof.
  intros Hd Hab. unfold Qdiv.
  apply Qmult_le_compat_r; [exact Hab | apply Qinv_le_0_compat; exact Hd].
Qed.

Lemma Qdiv_nonneg (a d : Q) : 0 <= a -> 0 <= d -> 0 <= a / d.
Proof.
  intros Ha Hd. unfold Qdiv.
  apply Qmult_le_0_compat; [exact Ha | apply Qinv_le_0_compat; exact Hd].
Qed.

Lemma inject_nat_nonneg (k : nat) : 0 <= inject_Z (Z.of_nat k).
Proof. change 0 with (inject_Z 0). rewrite <- Zle_Qle. lia. Qed.

Lemma mean_sq_diff2_nonneg (u : vec) : 0 <= mean_sq_diff2 u.
Proof.
  unfold mean_sq_diff2.
  apply Qdiv_nonneg; [apply sqnorm_nonneg | apply inject_nat_nonneg].
Qed.

(** Of the trends of one series under two penalties, the one under the
    larger penalty is the smoother. *)
Lemma trend_roughness_antitone (s : vec) (l1 l2 : Q) (c1 t1 c2 t2 : vec) :
  0 <= l1 -> l1 < l2 ->
  hpfilter s l1 = Ok (c1, t1) ->
  hpfilter s l2 = Ok (c2, t2) ->
  mean_sq_diff2 t2 <= mean_sq_diff2 t1
  /\ roughness_ratio t2 s <= roughness_ratio t1 s.
Proof.
  intros H0 Hl H1 H2.
  assert (Hn : (2 <= length s)%nat).
  { unfold hpfilter in H1.
    destruct (length s <? 2)%nat eqn:E; [discriminate|].
    apply Nat.ltb_ge in E. exact E. }
  destruct (hpfilter_returns l1 s Hn H0) as (t1' & E1 & Hlen1 & Hs1).
  destruct (hpfilter_returns l2 s Hn ltac:(lra)) as (t2' & E2 & Hlen2 & Hs2).
  rewrite H1 in E1. rewrite H2 in E2.
  inversion E1; subst t1'. inversion E2; subst t2'.
  pose proof (hp_roughness_antitone l1 l2 s t1 t2 H0 Hl Hlen1 Hlen2 Hs1 Hs2) as R.
  assert (M : mean_sq_diff2 t2 <= mean_sq_diff2 t1).
  { unfold mean_sq_diff2. rewrite Hlen1, Hlen2.
    apply Qdiv_le_mono; [apply inject_nat_nonneg | exact R]. }
  split; [exact M|].
  unfold roughness_ratio.
  apply Qdiv_le_mono; [apply mean_sq_diff2_nonneg | exact M].
Qed.

End SmoothnessFacts.

(** C7. For a fixed series the smoothness of the trend is monotone in the
    penalty: of two penalties [0 < l1 < l2], the larger one gives a trend
    whose mean squared second difference, taken relative to that of the
    series, is not larger.  In the run of project1.py the ratio does not
    increase from penalty 10 to 100 to 1600. *)
Theorem C7_smoothness_monotone (s : vec) (l1 l2 : Q) :
  (3 <= length s)%nat -> 0 < l1 -> l1 < l2 ->
  (exists u1 u2 : Project1.unpacked,
      Project1.unpack s l1 = Ok u1
      /\ Project1.unpack s l2 = Ok u2
      /\ roughness_ratio (Project1.trend u2) s
         <= roughness_ratio (Project1.trend u1) s)
  /\ (exists (st : Project1.dicts) (t10 t100 t1600 : vec),
        Project1.run s = Ok st
        /\ Project1.trends st !! 10%Z = Some t10
        /\ Project1.trends st !! 100%Z = Some t100
        /\ Project1.trends st !! 1600%Z = Some t1600
        /\ roughness_ratio t1600 s <= roughness_ratio t100 s
        /\ roughness_ratio t100 s <= roughness_ratio t10 s).
Proof.
  intros Hn H1 H12.
  assert (Hn2 : (2 <= length s)%nat) by lia.
  split.
  - destruct (hpfilter_returns l1 s Hn2 ltac:(lra)) as (t1 & E1 & _).
    destruct (hpfilter_returns l2 s Hn2 ltac:(lra)) as (t2 & E2 & _).
    do 2 eexists.
    split; [apply unpack_hpfilter; exact E1|].
    split; [apply unpack_hpfilter; exact E2|].
    simpl.
    apply (trend_roughness_antitone s l1 l2 _ t1 _ t2 ltac:(lra) H12 E1 E2).
  - destruct (loop_returns s Project1.lambdas Hn2
                ltac:(repeat constructor; lia) Project1.empty_dicts) as [st Hst].
    destruct (loop_Ok s Project1.lambdas _ st Hst) as [Hin _].
    destruct (Hin 10%Z ltac:(simpl; auto)) as (u10 & Hu10 & Ht10 & _).
    destruct (Hin 100%Z ltac:(simpl; auto)) as (u100 & Hu100 & Ht100 & _).
    destruct (Hin 1600%Z ltac:(simpl; auto)) as (u1600 & Hu1600 & Ht1600 & _).
    exists st, (Project1.trend u10), (Project1.trend u100), (Project1.trend u1600).
    repeat split; try assumption.
    + unfold Project1.unpack, mbind, outcome_bind, bind in Hu100, Hu1600.
      destruct (hpfilter s (inject_Z 100)) as [[c1 t1]| |] eqn:E1; try discriminate.
      destruct (hpfilter s (inject_Z 1600)) as [[c2 t2]| |] eqn:E2; try discriminate.
      inversion Hu100; subst u100. inversion Hu1600; subst u1600. simpl.
      apply (trend_roughness_antitone s (inject_Z 100) (inject_Z 1600)
               c1 t1 c2 t2 ltac:(unfold Qle; simpl; lia) ltac:(reflexivity)
               E1 E2).
    + unfold Project1.unpack, mbind, outcome_bind, bind in Hu10, Hu100.
      destruct (hpfilter s (inject_Z 10)) as [[c1 t1]| |] eqn:E1; try discriminate.
      destruct (hpfilter s (inject_Z 100)) as [[c2 t2]| |] eqn:E2; try discriminate.
      inversion Hu10; subst u10. inversion Hu100; subst u100. simpl.
      apply (trend_roughness_antitone s (inject_Z 10) (inject_Z 100)
               c1 t1 c2 t2 ltac:(unfold Qle; simpl; lia) ltac:(reflexivity)
               E1 E2).
Qed.

Lemma C7_witness :
  (exists u1 u2 : Project1.unpacked,
      Project1.unpack [1; 2; 4; 3] 1 = Ok u1
      /\ Project1.unpack [1; 2; 4; 3] 2 = Ok u2
      /\ roughness_ratio (Project1.trend u2) [1; 2; 4; 3]
         <= roughness_ratio (Project1.trend u1) [1; 2; 4; 3])
  /\ (exists (st : Project1.dicts) (t10 t100 t1600 : vec),
        Project1.run [1; 2; 4; 3] = Ok st
        /\ Project1.trends st !! 10%Z = Some t10
        /\ Project1.trends st !! 100%Z = Some t100
        /\ Project1.trends st !! 1600%Z = Some t1600
        /\ roughness_ratio t1600 [1; 2; 4; 3] <= roughness_ratio t100 [1; 2; 4; 3]
        /\ roughness_ratio t100 [1; 2; 4; 3] <= roughness_ratio t10 [1; 2; 4; 3]).
Proof.
  apply (C7_smoothness_monotone [1; 2; 4; 3] 1 2);
    [simpl; lia | reflexivity | reflexivity].
Defined.

(** On the series 1, 2, 4, 3 the ratio falls strictly from penalty 1 to
    penalty 2. *)
Example roughness_falls :
  exists u1 u2 : Project1.unpacked,
    Project1.unpack [1; 2; 4; 3] 1 = Ok u1
    /\ Project1.unpack [1; 2; 4; 3] 2 = Ok u2
    /\ roughness_ratio (Project1.trend u2) [1; 2; 4; 3]
       < roughness_ratio (Project1.trend u1) [1; 2; 4; 3].
Proof.
  do 2 eexists. split; [vm_compute; reflexivity|].
  split; [vm_compute; reflexivity|].
  vm_compute. reflexivity.
Qed.

(** * Growth accounting *)

Section GrowthAccountingFacts.

(** The power [x ** (1 / n)] of line 147, any function. *)
Variable pow : Q -> nat -> Q.

Lemma shares_spec (tfp cc total : Q) :
  exists ts cs : Q,
    Midterm2.shares tfp cc total = Ok (ts, cs)
    /\ (total <= 0 -> ts = 0 /\ cs = 0)
    /\ (0 < total -> ts = tfp / total /\ cs = cc / total).
Proof.
  unfold Midterm2.shares.
  destruct (gt total 0) eqn:E.
  - apply gt_true in E.
    rewrite !np_divide_nonzero by lra. simpl.
    do 2 eexists. split; [reflexivity|]. split; [lra | auto].
  - apply gt_false in E.
    do 2 eexists. split; [reflexivity|]. split; [auto | lra].
Qed.

Lemma account_Ok (self : Midterm2.GrowthAccounting) (first last : Midterm2.obs)
  (n_years : nat) (v : Midterm2.locals) :
  Midterm2.account pow self first last n_years = Ok v ->
  Midterm2.tfp_growth v
  = Midterm2.gdp_growth v
    - Midterm2.alpha self * Midterm2.capital_growth v
    - Midterm2.beta self * Midterm2.labor_growth v
  /\ Midterm2.capital_contribution v
     = Midterm2.alpha self * Midterm2.capital_growth v
  /\ Midterm2.total_growth v = Midterm2.gdp_growth v
  /\ Midterm2.shares (Midterm2.tfp_growth v) (Midterm2.capital_contribution v)
       (Midterm2.total_growth v)
     = Ok (Midterm2.tfp_share v, Midterm2.capital_share v).
Proof.
  unfold Midterm2.account, mbind, outcome_bind, bind.
  destruct (Midterm2.annualized pow (Midterm2.GDP last) (Midterm2.GDP first) n_years)
    as [g| |]; try discriminate.
  destruct (Midterm2.annualized pow (Midterm2.Capital last) (Midterm2.Capital first)
              n_years) as [k| |]; try discriminate.
  destruct (Midterm2.annualized pow (Midterm2.Labor last) (Midterm2.Labor first)
              n_years) as [l| |]; try discriminate.
  destruct (Midterm2.shares _ _ _) as [[ts cs]| |] eqn:E; try discriminate.
  intros H. inversion H; subst; simpl. auto.
Qed.

Lemma country_locals_account (self : Midterm2.GrowthAccounting)
  (data : list Midterm2.obs) (country : string) (v : Midterm2.locals) :
  Midterm2.country_locals pow self data country = Some (Ok v) ->
  exists (first last : Midterm2.obs) (n_years : nat),
    Midterm2.account pow self first last n_years = Ok v.
Proof.
  unfold Midterm2.country_locals.
  destruct (Midterm2.sort_values_Year _) as [|first [|second rest]];
    try discriminate.
  intros H. injection H as H'. do 3 eexists. exact H'.
Qed.

Lemma locals_shares (self : Midterm2.GrowthAccounting)
  (data : list Midterm2.obs) (country : string) (v : Midterm2.locals) :
  Midterm2.country_locals pow self data country = Some (Ok v) ->
  (Midterm2.gdp_growth v <= 0 ->
   Midterm2.tfp_share v = 0 /\ Midterm2.capital_share v = 0)
  /\ (0 < Midterm2.gdp_growth v ->
      Midterm2.tfp_share v = Midterm2.tfp_growth v / Midterm2.gdp_growth v
      /\ Midterm2.capital_share v
         = Midterm2.capital_contribution v / Midterm2.gdp_growth v).
Proof.
  intros H.
  destruct (country_locals_account self data country v H) as (f & l & n & Ha).
  destruct (account_Ok self f l n v Ha) as (_ & _ & Ht & Hs).
  destruct (shares_spec (Midterm2.tfp_growth v) (Midterm2.capital_contribution v)
              (Midterm2.total_growth v)) as (ts & cs & E & Hle & Hgt).
  rewrite Hs in E. inversion E; subst ts cs.
  rewrite Ht in Hle, Hgt. auto.
Qed.

(** Every row of the result is the row of a country's local variables. *)
Lemma rows_for_Ok (self : Midterm2.GrowthAccounting) (data : list Midterm2.obs)
  (todo : list string) :
  forall results : list Midterm2.result,
    Midterm2.rows_for pow self data todo = Ok results ->
    forall r : Midterm2.result, In r results ->
      exists (country : string) (v : Midterm2.locals),
        In country todo
        /\ Midterm2.country_locals pow self data country = Some (Ok v)
        /\ r = Midterm2.to_result country v.
Proof.
  induction todo as [|c todo IH]; intros results H r Hr; simpl in H.
  - inversion H; subst. destruct Hr.
  - destruct (Midterm2.country_locals pow self data c) as [[v| |]|] eqn:E;
      unfold mbind, outcome_bind, bind in H; try discriminate.
    + destruct (Midterm2.rows_for pow self data todo) as [rs| |];
        try discriminate.
      inversion H; subst results.
      destruct Hr as [<-|Hr].
      * exists c, v. split; [left; reflexivity | auto].
      * destruct (IH rs eq_refl r Hr) as (c' & v' & Hin & Hl & Hrow).
        exists c', v'. split; [right; exact Hin | auto].
    + destruct (IH results H r Hr) as (c' & v' & Hin & Hl & Hrow).
      exists c', v'. split; [right; exact Hin | auto].
Qed.

(** C9. For every country that [calculate_growth_rates] accounts for, the
    growth-accounting identity holds exactly: the growth of GDP is the
    growth of TFP plus [alpha] times the growth of capital plus
    [1 - alpha] times the growth of labour, [beta] being [1 - alpha] in an
    object made by [__init__]. *)
Theorem C9_growth_identity (start_year end_year : Z) (alpha : Q)
  (data : list Midterm2.obs) (country : string) (v : Midterm2.locals) :
  Midterm2.country_locals pow (Midterm2.init start_year end_year alpha)
    data country = Some (Ok v) ->
  Midterm2.gdp_growth v
  == Midterm2.tfp_growth v
     + alpha * Midterm2.capital_growth v
     + (1 - alpha) * Midterm2.labor_growth v.
Proof.
  intros H.
  destruct (country_locals_account _ data country v H) as (f & l & n & Ha).
  destruct (account_Ok _ f l n v Ha) as (Ht & _).
  rewrite Ht. simpl. ring.
Qed.

(** C10. The two shares are quotients by the growth of GDP only when that
    growth is strictly positive; for a country whose annualized GDP growth
    is zero or negative both shares are 0, in the local variables and in
    the row of the result.  The computation of the shares never divides by
    zero: it returns for all values. *)
Theorem C10_shares_guarded (self : Midterm2.GrowthAccounting)
  (data : list Midterm2.obs) (country : string) (v : Midterm2.locals) :
  Midterm2.country_locals pow self data country = Some (Ok v) ->
  (Midterm2.gdp_growth v <= 0 ->
   Midterm2.tfp_share v = 0 /\ Midterm2.capital_share v = 0)
  /\ (0 < Midterm2.gdp_growth v ->
      Midterm2.tfp_share v = Midterm2.tfp_growth v / Midterm2.gdp_growth v
      /\ Midterm2.capital_share v
         = Midterm2.capital_contribution v / Midterm2.gdp_growth v)
  /\ (forall tfp cc total : Q,
        exists p : Q * Q, Midterm2.shares tfp cc total = Ok p)
  /\ (forall (results : list Midterm2.result) (r : Midterm2.result),
        Midterm2.calculate_growth_rates pow self data = Ok results ->
        In r results ->
        Midterm2.Growth_Rate r <= 0 ->
        Midterm2.TFP_Share r = 0 /\ Midterm2.Capital_Share r = 0).
Proof.
  intros H.
  destruct (locals_shares self data country v H) as [Hle Hgt].
  split; [exact Hle|]. split; [exact Hgt|]. split.
  - intros tfp cc total.
    destruct (shares_spec tfp cc total) as (ts & cs & E & _).
    exists (ts, cs). exact E.
  - intros results r Hres Hr Hg.
    destruct (rows_for_Ok self data _ results Hres r Hr) as (c & v' & _ & Hl & ->).
    simpl in *.
    apply (locals_shares self data c v' Hl). lra.
Qed.

End GrowthAccountingFacts.

Lemma C9_witness :
  exists v : Midterm2.locals,
    Midterm2.country_locals (fun x _ => x) (Midterm2.init 1990 1991 0.33)
      [ {| Midterm2.Country := "Japan"; Midterm2.Year := 1990;
           Midterm2.GDP := 100; Midterm2.Capital := 300; Midterm2.Labor := 100 |};
        {| Midterm2.Country := "Japan"; Midterm2.Year := 1991;
           Midterm2.GDP := 102; Midterm2.Capital := 309; Midterm2.Labor := 101 |} ]
      "Japan" = Some (Ok v)
    /\ Midterm2.gdp_growth v
       == Midterm2.tfp_growth v
          + 0.33 * Midterm2.capital_growth v
          + (1 - 0.33) * Midterm2.labor_growth v.
Proof.
  eexists. split; [vm_compute; reflexivity|].
  apply (C9_growth_identity (fun x _ => x) 1990 1991 0.33
           [ {| Midterm2.Country := "Japan"; Midterm2.Year := 1990;
                Midterm2.GDP := 100; Midterm2.Capital := 300;
                Midterm2.Labor := 100 |};
             {| Midterm2.Country := "Japan"; Midterm2.Year := 1991;
                Midterm2.GDP := 102; Midterm2.Capital := 309;
                Midterm2.Labor := 101 |} ]
           "Japan").
  vm_compute. reflexivity.
Defined.

Lemma C10_witness :
  let pow : Q -> nat -> Q := fun x _ => x in
  let self := Midterm2.init 1990 1991 0.33 in
  let data :=
    [ {| Midterm2.Country := "Japan"; Midterm2.Year := 1990;
         Midterm2.GDP := 100; Midterm2.Capital := 300; Midterm2.Labor := 100 |};
      {| Midterm2.Country := "Japan"; Midterm2.Year := 1991;
         Midterm2.GDP := 98; Midterm2.Capital := 303; Midterm2.Labor := 101 |} ] in
  exists v : Midterm2.locals,
    Midterm2.country_locals pow self data "Japan" = Some (Ok v)
    /\ Midterm2.gdp_growth v <= 0
    /\ (Midterm2.gdp_growth v <= 0 ->
        Midterm2.tfp_share v = 0 /\ Midterm2.capital_share v = 0)
    /\ (0 < Midterm2.gdp_growth v ->
        Midterm2.tfp_share v = Midterm2.tfp_growth v / Midterm2.gdp_growth v
        /\ Midterm2.capital_share v
           = Midterm2.capital_contribution v / Midterm2.gdp_growth v)
    /\ (forall tfp cc total : Q,
          exists p : Q * Q, Midterm2.shares tfp cc total = Ok p)
    /\ (forall (results : list Midterm2.result) (r : Midterm2.result),
          Midterm2.calculate_growth_rates pow self data = Ok results ->
          In r results ->
          Midterm2.Growth_Rate r <= 0 ->
          Midterm2.TFP_Share r = 0 /\ Midterm2.Capital_Share r = 0).
Proof.
  intros pow self data.
  eexists. split; [vm_compute; reflexivity|].
  split; [vm_compute; discriminate|].
  apply (C10_shares_guarded pow self data "Japan").
  vm_compute. reflexivity.
Defined.

(** The run of [calculate_growth_rates] on these two rows: one row of
    result, for Japan, with a growth rate of -2 percent and both shares 0. *)
Example growth_rates_japan :
  exists r : Midterm2.result,
    Midterm2.calculate_growth_rates (fun x _ => x) (Midterm2.init 1990 1991 0.33)
      [ {| Midterm2.Country := "Japan"; Midterm2.Year := 1991;
           Midterm2.GDP := 98; Midterm2.Capital := 303; Midterm2.Labor := 101 |};
        {| Midterm2.Country := "Japan"; Midterm2.Year := 1990;
           Midterm2.GDP := 100; Midterm2.Capital := 300; Midterm2.Labor := 100 |} ]
    = Ok [r]
    /\ Midterm2.Result_Country r = "Japan"%string
    /\ Midterm2.Growth_Rate r == -2
    /\ Midterm2.TFP_Share r = 0
    /\ Midterm2.Capital_Share r = 0.
Proof.
  eexists. split; [vm_compute; reflexivity|].
  repeat split.
Qed.

(** * Further properties of the code *)

(** ** The solver and the filter beyond positive penalties *)

Section SolverSoundness.

Lemma find_pivot_Some (sys : system) :
  forall (p : equation) (rest : system),
    find_pivot sys = Some (p, rest) ->
    Permutation sys (p :: rest)
    /\ exists (a : Q) (r : vec), fst p = a :: r /\ ~ a == 0.
Proof.
  induction sys as [|e sys IH]; intros p rest H; simpl in H; [discriminate|].
  destruct (fst e) as [|a r] eqn:Ee; [discriminate|].
  destruct (Qeq_bool a 0) eqn:Ea.
  - destruct (find_pivot sys) as [[p' others]|]; [|discriminate].
    inversion H; subst p' rest.
    destruct (IH p others eq_refl) as [HP Hp].
    split; [|exact Hp].
    etransitivity; [apply perm_skip; exact HP | apply perm_swap].
  - inversion H; subst e rest. split; [reflexivity|].
    exists a, r. split; [exact Ee|].
    intros E. apply Qeq_bool_iff in E. congruence.
Qed.

(** Whatever the solver returns solves the system. *)
Theorem solve_sound (n : nat) :
  forall (sys : system) (x : vec),
    square n sys -> solve n sys = Some x ->
    length x = n /\ Forall (satisfies x) sys.
Proof.
  induction n as [|n IH]; intros sys x [Hlen Hrows] Hs.
  - destruct sys; [|discriminate]. inversion Hs; subst. split; constructor.
  - cbn [solve] in Hs.
    destruct (find_pivot sys) as [[[row b1] rest]|] eqn:Ep; [|discriminate].
    destruct (find_pivot_Some sys _ _ Ep) as [HP (a & r & Hrow & Hne)].
    simpl in Hrow. subst row. cbv beta iota in Hs.
    pose proof (Permutation_length HP) as HL. simpl in HL.
    pose proof (Permutation_Forall HP Hrows) as HR.
    inversion HR as [|? ? Hr1 Hrest]; subst.
    simpl in Hr1.
    match type of Hs with
    | context [solve n ?s] => destruct (solve n s) as [y|] eqn:Ey
    end; [|discriminate].
    inversion Hs; subst x.
    assert (Hsq : square n (map (reduce (a :: r, b1)) rest)).
    { split; [rewrite length_map; lia|].
      apply reduce_square; [simpl; congruence | assumption]. }
    destruct (IH _ y Hsq Ey) as [Hy Hsat].
    split; [simpl; congruence|].
    apply (Permutation_Forall (Permutation_sym HP)).
    constructor.
    + unfold satisfies; simpl. field. assumption.
    + rewrite List.Forall_map in Hsat.
      clear - Hsat Hrest Hne Hr1 Hy.
      induction Hrest as [|[row bi] rest Hrow Hrest IHr]; [constructor|].
      inversion Hsat; subst.
      constructor; [|apply IHr; assumption].
      destruct row as [|ai1 ri]; [discriminate|].
      apply back_substitute; [assumption | simpl in *; congruence | assumption].
Qed.

(** What a returned decomposition is, for any penalty. *)
Lemma hpfilter_Ok (x : vec) (lamb : Q) (c t : vec) :
  hpfilter x lamb = Ok (c, t) ->
  (2 <= length x)%nat
  /\ c = vsub x t
  /\ length t = length x
  /\ veq (matvec (hp_matrix (length x) lamb) t) x.
Proof.
  unfold hpfilter.
  destruct (length x <? 2)%nat eqn:E; [discriminate|].
  apply Nat.ltb_ge in E.
  destruct (spsolve (length x) (hp_matrix (length x) lamb) x) as [t'|] eqn:Es;
    [|discriminate].
  intros H. inversion H; subst c t'.
  destruct (solve_sound (length x) _ t
              (square_augment _ _ _ (length_hp_matrix _ _) eq_refl
                 (rows_hp_matrix _ _)) Es) as [Hlen Hsat].
  repeat split; try assumption.
  apply satisfies_augment; [apply length_hp_matrix | assumption].
Qed.

End SolverSoundness.

(** ** What the filter removes and what it keeps *)

Section FilterFacts.

Lemma dot_all_zero_l (z w : vec) : all_zero z -> dot z w == 0.
Proof.
  intros Hz; revert w.
  induction Hz as [|a z Ha Hz IH]; intros [|b w]; simpl; try reflexivity.
  rewrite (IH w), Ha. ring.
Qed.

Lemma all_zero_veq (z z' : vec) : veq z z' -> all_zero z -> all_zero z'.
Proof.
  induction 1 as [|a b z z' Hab Hz IH]; intros H; inversion H; subst;
    constructor; [rewrite <- Hab; assumption | apply IH; assumption].
Qed.

Lemma sqnorm_all_zero (v : vec) : sqnorm v <= 0 -> all_zero v.
Proof.
  unfold sqnorm.
  induction v as [|a v IH]; intros H; simpl in *; [constructor|].
  pose proof (sqnorm_nonneg v) as Hv. unfold sqnorm in Hv.
  constructor; [nra | apply IH; nra].
Qed.

Lemma all_zero_sqnorm (v : vec) : all_zero v -> sqnorm v == 0.
Proof. intros H. unfold sqnorm. apply dot_all_zero_l. exact H. Qed.

Lemma dot_ones (v : vec) : dot (ones (length v)) v == total v.
Proof.
  unfold ones, total. induction v as [|a v IH]; simpl; [reflexivity|].
  rewrite IH. ring.
Qed.

Lemma diff2_const (c : Q) (n : nat) : all_zero (diff2 (repeat c n)).
Proof.
  rewrite diff2_entries. apply List.Forall_map, List.Forall_forall.
  intros i Hi. apply in_seq in Hi. rewrite repeat_length in Hi.
  assert (E : forall k, (k < n)%nat -> nth k (repeat c n) 0 = c).
  { intros k Hk. apply nth_repeat_lt. exact Hk. }
  rewrite !E by lia. ring.
Qed.

(** The cycle is orthogonal to every series without second differences. *)
Lemma cycle_orthogonal (x : vec) (lamb : Q) (c t h : vec) :
  hpfilter x lamb = Ok (c, t) ->
  length h = length x -> all_zero (diff2 h) ->
  dot h c == 0.
Proof.
  intros Hf Hh Hz.
  destruct (hpfilter_Ok x lamb c t Hf) as (_ & -> & Hlen & Hsol).
  rewrite dot_vsub_r by congruence.
  rewrite <- (dot_proper h h _ _ (veq_refl h) Hsol).
  rewrite hp_bilinear by assumption.
  assert (Z : all_zero (matvec (Kmat (length x)) h)).
  { rewrite <- Hh. apply (all_zero_veq (diff2 h)); [|exact Hz].
    apply veq_sym, matvec_Kmat. }
  rewrite (dot_all_zero_l _ _ Z). ring.
Qed.

(** The trend, as the minimiser it is. *)
Lemma trend_minimises (x : vec) (lamb : Q) (c t : vec) :
  0 <= lamb -> hpfilter x lamb = Ok (c, t) ->
  forall u : vec, length u = length x ->
    hp_objective lamb x t <= hp_objective lamb x u.
Proof.
  intros Hl Hf u Hu.
  destruct (hpfilter_Ok x lamb c t Hf) as (_ & _ & Hlen & Hsol).
  apply hp_minimiser; assumption.
Qed.

Lemma vsub_self (x : vec) : all_zero (vsub x x).
Proof. induction x as [|a x IH]; simpl; constructor; [ring | exact IH]. Qed.

Lemma vsub_all_zero_veq (x t : vec) :
  length t = length x -> all_zero (vsub x t) -> veq t x.
Proof.
  revert t; induction x as [|a x IH]; intros [|b t] Hlen H; simpl in *;
    try discriminate; [constructor|].
  inversion H; subst. constructor; [lra | apply IH; [congruence | assumption]].
Qed.

Lemma cycle_total_zero (x : vec) (lamb : Q) (c t : vec) :
  hpfilter x lamb = Ok (c, t) -> total c == 0.
Proof.
  intros Hf.
  destruct (hpfilter_Ok x lamb c t Hf) as (_ & Hc & Hlen & _).
  assert (Hlc : length c = length x) by (subst c; rewrite length_vsub; congruence).
  rewrite <- dot_ones, Hlc.
  apply (cycle_orthogonal x lamb c t _ Hf);
    [apply repeat_length | apply diff2_const].
Qed.

End FilterFacts.

(** X1. Whatever the penalty, a decomposition that [hpfilter] returns has
    a cycle that sums to 0 and is orthogonal to the time index 0, 1, 2,
    ...: the trend carries the whole level and the whole linear drift of
    the series. *)
Theorem X1_cycle_sums_to_zero (x : vec) (lamb : Q) (u : Project1.unpacked) :
  Project1.unpack x lamb = Ok u ->
  total (Project1.cycle u) == 0
  /\ total (Project1.trend u) == total x
  /\ dot (map (fun i => inject_Z (Z.of_nat i)) (seq 0 (length x)))
         (Project1.cycle u) == 0.
Proof.
  unfold Project1.unpack, mbind, outcome_bind, bind.
  destruct (hpfilter x lamb) as [[c t]| |] eqn:Hf; try discriminate.
  intros H. inversion H; subst u. simpl.
  destruct (hpfilter_Ok x lamb c t Hf) as (_ & Hc & Hlen & _).
  assert (Hlc : length c = length x) by (subst c; rewrite length_vsub; congruence).
  pose proof (cycle_total_zero x lamb c t Hf) as S0.
  split; [exact S0|]. split.
  - rewrite <- (dot_ones t), <- (dot_ones x), Hlen.
    pose proof (dot_vsub_r (ones (length x)) x t ltac:(congruence)) as E.
    rewrite <- Hc, <- Hlc, dot_ones, S0 in E. rewrite Hlc in E. lra.
  - apply (cycle_orthogonal x lamb c t _ Hf).
    + rewrite length_map, length_seq. reflexivity.
    + rewrite diff2_entries, length_map, length_seq.
      apply List.Forall_map, List.Forall_forall.
      intros i Hi. apply in_seq in Hi.
      set (f := fun i : nat => inject_Z (Z.of_nat i)).
      assert (E : forall k, (k < length x)%nat ->
                            nth k (map f (seq 0 (length x))) 0 = f k).
      { intros k Hk. rewrite (nth_indep _ 0 (f 0%nat))
          by (rewrite length_map, length_seq; exact Hk).
        rewrite map_nth, seq_nth by exact Hk. reflexivity. }
      rewrite !E by lia. unfold f.
      rewrite !Nat2Z.inj_succ. unfold Z.succ. rewrite !inject_Z_plus. ring.
Qed.

Lemma X1_witness :
  exists u : Project1.unpacked,
    Project1.unpack [1; 2; 4] 1 = Ok u
    /\ total (Project1.cycle u) == 0
    /\ total (Project1.trend u) == total [1; 2; 4]
    /\ dot (map (fun i => inject_Z (Z.of_nat i)) (seq 0 (length [1; 2; 4])))
           (Project1.cycle u) == 0.
Proof.
  eexists. split; [vm_compute; reflexivity|].
  apply (X1_cycle_sums_to_zero [1; 2; 4] 1). vm_compute. reflexivity.
Defined.

(** X2. A series without second differences (a constant one, a straight
    line) is its own trend under every penalty that is not negative: the
    cycle is 0 at every index. *)
Theorem X2_straight_line_has_no_cycle (x : vec) (lamb : Q) :
  (2 <= length x)%nat -> 0 <= lamb -> all_zero (diff2 x) ->
  exists u : Project1.unpacked,
    Project1.unpack x lamb = Ok u
    /\ all_zero (Project1.cycle u)
    /\ veq (Project1.trend u) x.
Proof.
  intros Hn Hl Hz.
  destruct (hpfilter_returns lamb x Hn Hl) as (t & Hf & Hlen & Hsol).
  eexists. split; [apply unpack_hpfilter; exact Hf|]. simpl.
  pose proof (hp_minimiser lamb x t x Hl Hlen eq_refl Hsol) as M.
  unfold hp_objective in M.
  rewrite (all_zero_sqnorm _ (vsub_self x)), (all_zero_sqnorm _ Hz) in M.
  pose proof (sqnorm_nonneg (diff2 t)) as P.
  assert (Z : all_zero (vsub x t)) by (apply sqnorm_all_zero; nra).
  split; [exact Z | apply vsub_all_zero_veq; assumption].
Qed.

Lemma X2_witness :
  exists u : Project1.unpacked,
    Project1.unpack [3; 5; 7; 9] 1600 = Ok u
    /\ all_zero (Project1.cycle u)
    /\ veq (Project1.trend u) [3; 5; 7; 9].
Proof.
  apply (X2_straight_line_has_no_cycle [3; 5; 7; 9] 1600);
    [simpl; lia | unfold Qle; simpl; lia | repeat constructor].
Defined.

Section FitFacts.

Lemma Qdiv_le_1 (a d : Q) : 0 <= a -> a <= d -> a / d <= 1.
Proof.
  intros Ha Had.
  destruct (Qeq_dec d 0) as [E|E].
  - assert (a == 0) by lra. rewrite H. unfold Qdiv. lra.
  - apply Qle_shift_div_r; lra.
Qed.

(** The two sides of the trade-off, against the series itself as a
    candidate trend. *)
Lemma fit_and_roughness_bounds (x : vec) (lamb : Q) (c t : vec) :
  0 < lamb -> hpfilter x lamb = Ok (c, t) ->
  sqnorm (diff2 t) <= sqnorm (diff2 x)
  /\ sqnorm c <= lamb * sqnorm (diff2 x).
Proof.
  intros Hl Hf.
  pose proof (trend_minimises x lamb c t ltac:(lra) Hf x eq_refl) as M.
  destruct (hpfilter_Ok x lamb c t Hf) as (_ & -> & _ & _).
  unfold hp_objective in M.
  rewrite (all_zero_sqnorm _ (vsub_self x)) in M.
  pose proof (sqnorm_nonneg (vsub x t)) as F.
  pose proof (sqnorm_nonneg (diff2 t)) as P.
  split; nra.
Qed.

(** Of two decompositions of one series, the one under the larger penalty
    leaves the larger cycle. *)
Lemma cycle_energy_monotone (x : vec) (l1 l2 : Q) (c1 t1 c2 t2 : vec) :
  0 <= l1 -> l1 < l2 ->
  hpfilter x l1 = Ok (c1, t1) -> hpfilter x l2 = Ok (c2, t2) ->
  sqnorm c1 <= sqnorm c2.
Proof.
  intros H0 Hl H1 H2.
  pose proof (hpfilter_Ok x l1 c1 t1 H1) as (_ & E1 & Hlen1 & Hs1).
  pose proof (hpfilter_Ok x l2 c2 t2 H2) as (_ & E2 & Hlen2 & Hs2).
  pose proof (hp_roughness_antitone l1 l2 x t1 t2 H0 Hl Hlen1 Hlen2 Hs1 Hs2) as R.
  pose proof (hp_minimiser l1 x t1 t2 H0 Hlen1 Hlen2 Hs1) as M.
  unfold hp_objective in M. subst c1 c2. nra.
Qed.

Lemma sum_sq_dev_zero_mean (m : Q) (xs : vec) :
  m == 0 ->
  fold_right Qplus 0 (map (fun x => (x - m) * (x - m)) xs) == sqnorm xs.
Proof.
  intros Hm. unfold sqnorm.
  induction xs as [|a xs IH]; simpl; [reflexivity|].
  rewrite IH, Hm. ring.
Qed.

(** The sample variance of a series that sums to 0. *)
Lemma variance_zero_sum (xs : vec) :
  (2 <= length xs)%nat -> total xs == 0 ->
  Midterm1.has_variance xs
    (sqnorm xs / inject_Z (Z.of_nat (length xs - 1))).
Proof.
  intros Hn Hs. unfold Midterm1.has_variance, Midterm1.variance.
  replace (length xs <? 2)%nat with false by (symmetry; apply Nat.ltb_ge; lia).
  eexists. split; [reflexivity|].
  rewrite sum_sq_dev_zero_mean; [reflexivity|].
  unfold Midterm1.mean. fold (total xs). rewrite Hs. unfold Qdiv. ring.
Qed.

End FitFacts.

(** X3. Under a positive penalty the trend is never rougher than the
    series, and the cycle is never larger than the penalty allows: the
    ratio of mean squared second differences lies between 0 and 1, and the
    sum of squares of the cycle is at most [lamb] times that of the second
    differences of the series. *)
Theorem X3_trend_smoother_than_series (x : vec) (lamb : Q) (u : Project1.unpacked) :
  0 < lamb -> Project1.unpack x lamb = Ok u ->
  0 <= roughness_ratio (Project1.trend u) x
  /\ roughness_ratio (Project1.trend u) x <= 1
  /\ sqnorm (Project1.cycle u) <= lamb * sqnorm (diff2 x).
Proof.
  intros Hl. unfold Project1.unpack, mbind, outcome_bind, bind.
  destruct (hpfilter x lamb) as [[c t]| |] eqn:Hf; try discriminate.
  intros H. inversion H; subst u. simpl.
  destruct (fit_and_roughness_bounds x lamb c t Hl Hf) as [R F].
  destruct (hpfilter_Ok x lamb c t Hf) as (_ & _ & Hlen & _).
  split; [|split; [|exact F]].
  - unfold roughness_ratio.
    apply Qdiv_nonneg; apply mean_sq_diff2_nonneg.
  - unfold roughness_ratio.
    apply Qdiv_le_1; [apply mean_sq_diff2_nonneg|].
    unfold mean_sq_diff2. rewrite Hlen.
    apply Qdiv_le_mono; [apply inject_nat_nonneg | exact R].
Qed.

Lemma X3_witness :
  exists u : Project1.unpacked,
    Project1.unpack [1; 2; 4; 3] 10 = Ok u
    /\ 0 <= roughness_ratio (Project1.trend u) [1; 2; 4; 3]
    /\ roughness_ratio (Project1.trend u) [1; 2; 4; 3] <= 1
    /\ sqnorm (Project1.cycle u) <= 10 * sqnorm (diff2 [1; 2; 4; 3]).
Proof.
  eexists. split; [vm_compute; reflexivity|].
  apply (X3_trend_smoother_than_series [1; 2; 4; 3] 10);
    [reflexivity | vm_compute; reflexivity].
Defined.

(** X4. The cycle grows with the penalty: of two penalties
    [0 <= l1 < l2] on one series, the larger leaves a cycle with the larger
    sum of squares, and with the larger sample variance, the one
    [Series.std()] takes the root of. *)
Theorem X4_cycle_variance_monotone (x : vec) (l1 l2 : Q) (u1 u2 : Project1.unpacked) :
  0 <= l1 -> l1 < l2 ->
  Project1.unpack x l1 = Ok u1 -> Project1.unpack x l2 = Ok u2 ->
  sqnorm (Project1.cycle u1) <= sqnorm (Project1.cycle u2)
  /\ exists v1 v2 : Q,
      Midterm1.has_variance (Project1.cycle u1) v1
      /\ Midterm1.has_variance (Project1.cycle u2) v2
      /\ v1 <= v2.
Proof.
  intros H0 Hl. unfold Project1.unpack, mbind, outcome_bind, bind.
  destruct (hpfilter x l1) as [[c1 t1]| |] eqn:Hf1; try discriminate.
  destruct (hpfilter x l2) as [[c2 t2]| |] eqn:Hf2; try discriminate.
  intros E1 E2. inversion E1; subst u1. inversion E2; subst u2. simpl.
  pose proof (cycle_energy_monotone x l1 l2 c1 t1 c2 t2 H0 Hl Hf1 Hf2) as M.
  split; [exact M|].
  destruct (hpfilter_Ok x l1 c1 t1 Hf1) as (Hn & Hc1 & Hlen1 & _).
  destruct (hpfilter_Ok x l2 c2 t2 Hf2) as (_ & Hc2 & Hlen2 & _).
  assert (L1 : length c1 = length x) by (subst c1; rewrite length_vsub; congruence).
  assert (L2 : length c2 = length x) by (subst c2; rewrite length_vsub; congruence).
  pose proof (cycle_total_zero x l1 c1 t1 Hf1) as S1.
  pose proof (cycle_total_zero x l2 c2 t2 Hf2) as S2.
  do 2 eexists.
  split; [apply variance_zero_sum; [lia | exact S1]|].
  split; [apply variance_zero_sum; [lia | exact S2]|].
  rewrite L1, L2. apply Qdiv_le_mono; [apply inject_nat_nonneg | exact M].
Qed.

Lemma X4_witness :
  exists u1 u2 : Project1.unpacked,
    Project1.unpack [1; 2; 4; 3] 1 = Ok u1
    /\ Project1.unpack [1; 2; 4; 3] 2 = Ok u2
    /\ sqnorm (Project1.cycle u1) <= sqnorm (Project1.cycle u2)
    /\ exists v1 v2 : Q,
        Midterm1.has_variance (Project1.cycle u1) v1
        /\ Midterm1.has_variance (Project1.cycle u2) v2
        /\ v1 <= v2.
Proof.
  do 2 eexists. split; [vm_compute; reflexivity|].
  split; [vm_compute; reflexivity|].
  apply (X4_cycle_variance_monotone [1; 2; 4; 3] 1 2);
    [unfold Qle; simpl; lia | reflexivity
     | vm_compute; reflexivity | vm_compute; reflexivity].
Defined.

(** X5. In midterm1-4,5.py the variables named cycle hold the smooth
    component: [spain_cycle] and [japan_cycle], of which lines 49 and 50
    take the standard deviation, minimise the penalised least-squares
    objective over all series of their length, while [spain_trend] and
    [japan_trend] sum to 0 as a residual does. *)
Theorem X5_midterm_std_is_over_trend
  (lamb : Q) (log_spain_gdp log_japan_gdp : vec) (f : Midterm1.filtered) :
  0 <= lamb ->
  Midterm1.apply_hpfilter lamb log_spain_gdp log_japan_gdp = Ok f ->
  (forall u : vec, length u = length log_spain_gdp ->
     hp_objective lamb log_spain_gdp (Midterm1.spain_cycle f)
     <= hp_objective lamb log_spain_gdp u)
  /\ (forall u : vec, length u = length log_japan_gdp ->
        hp_objective lamb log_japan_gdp (Midterm1.japan_cycle f)
        <= hp_objective lamb log_japan_gdp u)
  /\ total (Midterm1.spain_trend f) == 0
  /\ total (Midterm1.japan_trend f) == 0.
Proof.
  intros Hl. unfold Midterm1.apply_hpfilter, mbind, outcome_bind, bind.
  destruct (hpfilter log_spain_gdp lamb) as [[s1 s2]| |] eqn:Hs; try discriminate.
  destruct (hpfilter log_japan_gdp lamb) as [[j1 j2]| |] eqn:Hj; try discriminate.
  intros H. inversion H; subst f. simpl.
  split; [apply (trend_minimises _ _ _ _ Hl Hs)|].
  split; [apply (trend_minimises _ _ _ _ Hl Hj)|].
  split; [apply (cycle_total_zero _ _ _ _ Hs) | apply (cycle_total_zero _ _ _ _ Hj)].
Qed.

Lemma X5_witness :
  exists f : Midterm1.filtered,
    Midterm1.apply_hpfilter 1 [1; 2; 4] [3; 1; 2; 5] = Ok f
    /\ (forall u : vec, length u = length [1; 2; 4] ->
          hp_objective 1 [1; 2; 4] (Midterm1.spain_cycle f)
          <= hp_objective 1 [1; 2; 4] u)
    /\ (forall u : vec, length u = length [3; 1; 2; 5] ->
          hp_objective 1 [3; 1; 2; 5] (Midterm1.japan_cycle f)
          <= hp_objective 1 [3; 1; 2; 5] u)
    /\ total (Midterm1.spain_trend f) == 0
    /\ total (Midterm1.japan_trend f) == 0.
Proof.
  eexists. split; [vm_compute; reflexivity|].
  apply (X5_midterm_std_is_over_trend 1 [1; 2; 4] [3; 1; 2; 5]);
    [unfold Qle; simpl; lia | vm_compute; reflexivity].
Defined.

Section RunFacts.

Lemma unpack_raises_short (x : vec) (lam : Q) :
  (length x < 2)%nat -> Project1.unpack x lam = Raise ValueError.
Proof.
  intros H. unfold Project1.unpack, hpfilter.
  replace (length x <? 2)%nat with true by (symmetry; apply Nat.ltb_lt; lia).
  reflexivity.
Qed.

Lemma unpack_recomposes (x : vec) (lam : Q) (u : Project1.unpacked) :
  Project1.unpack x lam = Ok u ->
  recomposes x (Project1.trend u) (Project1.cycle u).
Proof.
  unfold Project1.unpack, mbind, outcome_bind, bind.
  destruct (hpfilter x lam) as [[c t]| |] eqn:Hf; try discriminate.
  intros H. inversion H; subst u. simpl.
  destruct (hpfilter_Ok x lam c t Hf) as (_ & -> & Hlen & _).
  apply recomposes_comm, recomposes_cycle_trend. exact Hlen.
Qed.

End RunFacts.

(** X6. The run of project1.py ends with ValueError exactly on a series of
    fewer than 2 observations.  Otherwise it returns, the two dictionaries
    have the keys 10, 100 and 1600 and no other, and under each key the
    stored trend and cycle add up to the series. *)
Theorem X6_run_outcome (log_gdp : vec) :
  ((length log_gdp < 2)%nat -> raises (Project1.run log_gdp) ValueError)
  /\ ((2 <= length log_gdp)%nat ->
      exists st : Project1.dicts,
        Project1.run log_gdp = Ok st
        /\ (forall k : Z,
              is_Some (Project1.trends st !! k) <-> In k Project1.lambdas)
        /\ (forall k : Z,
              is_Some (Project1.cycles st !! k) <-> In k Project1.lambdas)
        /\ (forall (k : Z) (t c : vec),
              Project1.trends st !! k = Some t ->
              Project1.cycles st !! k = Some c ->
              recomposes log_gdp t c)).
Proof.
  split.
  - intros H. unfold raises, Project1.run, Project1.lambdas. simpl.
    unfold Project1.body, mbind, outcome_bind, bind.
    rewrite unpack_raises_short by exact H. reflexivity.
  - intros H.
    destruct (loop_returns log_gdp Project1.lambdas H
                ltac:(repeat constructor; lia) Project1.empty_dicts) as [st Hst].
    destruct (loop_Ok log_gdp Project1.lambdas _ st Hst) as [Hin Hout].
    exists st. split; [exact Hst|].
    assert (K : forall k, In k Project1.lambdas \/ ~ In k Project1.lambdas).
    { intros k. destruct (in_dec Z.eq_dec k Project1.lambdas); auto. }
    split; [|split].
    + intros k. split.
      * intros [t Ht]. destruct (K k) as [|Hn]; [assumption|].
        destruct (Hout k Hn) as [E _]. rewrite Ht in E. simpl in E.
        rewrite lookup_empty in E. discriminate.
      * intros Hk. destruct (Hin k Hk) as (u & _ & Ht & _). rewrite Ht. eauto.
    + intros k. split.
      * intros [c Hc]. destruct (K k) as [|Hn]; [assumption|].
        destruct (Hout k Hn) as [_ E]. rewrite Hc in E. simpl in E.
        rewrite lookup_empty in E. discriminate.
      * intros Hk. destruct (Hin k Hk) as (u & _ & _ & Hc). rewrite Hc. eauto.
    + intros k t c Ht Hc.
      destruct (K k) as [Hk|Hn].
      * destruct (Hin k Hk) as (u & Hu & Ht' & Hc').
        rewrite Ht in Ht'. rewrite Hc in Hc'.
        inversion Ht'; inversion Hc'; subst.
        apply (unpack_recomposes _ _ _ Hu).
      * destruct (Hout k Hn) as [E _]. rewrite Ht in E. simpl in E.
        rewrite lookup_empty in E. discriminate.
Qed.

(** ** Cleaning and aligning the two series *)

Section SeriesFacts.

Import Midterm1Summary.

Lemma slice_increasing (s : Midterm1.series) (start stop : Z) :
  increasing (Midterm1.index s) ->
  increasing (Midterm1.index (Midterm1.slice s start stop)).
Proof.
  unfold Midterm1.index, Midterm1.slice.
  induction s as [|p s IH]; simpl; [tauto|].
  intros [Hlt Hinc]. specialize (IH Hinc).
  destruct ((start <=? fst p)%Z && (fst p <=? stop)%Z); [|exact IH].
  simpl. split; [|exact IH].
  rewrite List.Forall_forall in *.
  intros t Ht. apply Hlt.
  apply in_map_iff in Ht. destruct Ht as (q & <- & Hq).
  apply filter_In in Hq. apply in_map. tauto.
Qed.

End SeriesFacts.

(** X8. For two series with a first entry each, the alignment returns two
    empty series exactly when the ranges do not overlap; when they overlap,
    the series that starts later keeps its first entry.  Increasing indexes
    stay increasing. *)
Theorem X8_alignment_empty_iff_disjoint
  (spain_gdp japan_gdp : Midterm1.series) (minA maxA minB maxB : Z) :
  Midterm1.index_bounds spain_gdp = Ok (minA, maxA) ->
  Midterm1.index_bounds japan_gdp = Ok (minB, maxB) ->
  exists a b : Midterm1.series,
    Midterm1.align_common_range spain_gdp japan_gdp = Ok (a, b)
    /\ ((a = [] /\ b = []) <-> (Z.min maxA maxB < Z.max minA minB)%Z)
    /\ ((Z.max minA minB <= Z.min maxA maxB)%Z ->
        In (Z.max minA minB) (Midterm1.index a)
        \/ In (Z.max minA minB) (Midterm1.index b))
    /\ (Midterm1Summary.increasing (Midterm1.index spain_gdp) ->
        Midterm1Summary.increasing (Midterm1.index a))
    /\ (Midterm1Summary.increasing (Midterm1.index japan_gdp) ->
        Midterm1Summary.increasing (Midterm1.index b)).
Proof.
  intros HA HB.
  destruct (index_bounds_spec _ _ _ HA) as (HminA & _ & _).
  destruct (index_bounds_spec _ _ _ HB) as (HminB & _ & _).
  unfold Midterm1.align_common_range. rewrite HA, HB.
  do 2 eexists. split; [reflexivity|].
  set (cs := Z.max minA minB). set (ce := Z.min maxA maxB).
  assert (Hov : (cs <= ce)%Z ->
                In cs (Midterm1.index (Midterm1.slice spain_gdp cs ce))
                \/ In cs (Midterm1.index (Midterm1.slice japan_gdp cs ce))).
  { intros Hle. unfold Midterm1.index in *.
    destruct (Z.max_spec minA minB) as [[_ E]|[_ E]]; fold cs in E.
    - right. rewrite E. apply in_map_iff in HminB.
      destruct HminB as (p & Hp & Hin).
      apply in_map_iff. exists p. split; [exact Hp|].
      apply slice_In. split; [exact Hin | lia].
    - left. rewrite E. apply in_map_iff in HminA.
      destruct HminA as (p & Hp & Hin).
      apply in_map_iff. exists p. split; [exact Hp|].
      apply slice_In. split; [exact Hin | lia]. }
  split; [|split; [exact Hov | split; apply slice_increasing]].
  split.
  - intros [Ea Eb].
    destruct (Z.lt_ge_cases ce cs) as [H|H]; [exact H|].
    destruct (Hov H) as [Hin|Hin]; [rewrite Ea in Hin | rewrite Eb in Hin];
      destruct Hin.
  - intros H. split; apply slice_empty_range; exact H.
Qed.

Lemma X8_witness :
  exists a b : Midterm1.series,
    Midterm1.align_common_range
      [(1%Z, 10); (10%Z, 11)] [(2%Z, 20); (3%Z, 21); (9%Z, 22)] = Ok (a, b)
    /\ ((a = [] /\ b = []) <-> (Z.min 10 9 < Z.max 1 2)%Z)
    /\ ((Z.max 1 2 <= Z.min 10 9)%Z ->
        In (Z.max 1 2) (Midterm1.index a) \/ In (Z.max 1 2) (Midterm1.index b))
    /\ (Midterm1Summary.increasing
          (Midterm1.index [(1%Z, 10); (10%Z, 11)]) ->
        Midterm1Summary.increasing (Midterm1.index a))
    /\ (Midterm1Summary.increasing
          (Midterm1.index [(2%Z, 20); (3%Z, 21); (9%Z, 22)]) ->
        Midterm1Summary.increasing (Midterm1.index b)).
Proof.
  apply (X8_alignment_empty_iff_disjoint
           [(1%Z, 10); (10%Z, 11)] [(2%Z, 20); (3%Z, 21); (9%Z, 22)] 1 10 2 9);
    reflexivity.
Defined.

(** ** The printed interpretation *)

Section SummaryFacts.

Import Midterm1Summary.

Lemma Qabs_gt (c t : Q) : 0 <= t -> (t < Qabs c <-> t < c \/ c < - t).
Proof.
  intros Ht. split.
  - intros H. destruct (Qlt_le_dec c 0) as [Hc|Hc].
    + right. rewrite Qabs_neg in H by lra. lra.
    + left. rewrite Qabs_pos in H by lra. exact H.
  - intros [H|H].
    + rewrite Qabs_pos by lra. exact H.
    + rewrite Qabs_neg by lra. lra.
Qed.

Lemma synchronisation_spec (c : Q) :
  (synchronisation_of (number c) = high <-> 0.5 < c \/ c < -0.5)
  /\ (synchronisation_of (number c) = moderate <->
      (0.3 < c /\ c <= 0.5) \/ (-0.5 <= c /\ c < -0.3))
  /\ (synchronisation_of (number c) = low <-> -0.3 <= c /\ c <= 0.3).
Proof.
  unfold synchronisation_of, abs, exceeds.
  pose proof (Qabs_gt c 0.5 ltac:(lra)) as A5.
  pose proof (Qabs_gt c 0.3 ltac:(lra)) as A3.
  destruct (gt (Qabs c) 0.5) eqn:E5;
    [apply gt_true in E5 | apply gt_false in E5];
    (destruct (gt (Qabs c) 0.3) eqn:E3;
     [apply gt_true in E3 | apply gt_false in E3]).
  all: repeat split; intros; try discriminate; try reflexivity.
  all: try (apply A5 in E5); try (apply A3 in E3).
  all: try (assert (N5 : ~ (0.5 < c \/ c < - 0.5)) by (intros X; apply A5 in X; lra)).
  all: try (assert (N3 : ~ (0.3 < c \/ c < - 0.3)) by (intros X; apply A3 in X; lra)).
  all: try lra.
  all: try (exfalso; lra).
  all: try (destruct E5; lra).
  all: try (destruct E3; lra).
  all: try (exfalso; apply N5; lra).
  all: try (exfalso; apply N3; lra).
Qed.

(** On a number the label is the one of [Midterm1.correlation_strength]. *)
Lemma label_of_number (c : Q) :
  label_of (number c) = Midterm1.correlation_strength c.
Proof. reflexivity. Qed.

(** The band of each label of lines 66 to 79. *)
Lemma strength_bands (c : Q) :
  (Midterm1.correlation_strength c = Midterm1.very_strong_positive <-> 0.7 < c)
  /\ (Midterm1.correlation_strength c = Midterm1.strong_positive <->
      0.5 < c /\ c <= 0.7)
  /\ (Midterm1.correlation_strength c = Midterm1.moderate_positive <->
      0.3 < c /\ c <= 0.5)
  /\ (Midterm1.correlation_strength c = Midterm1.weak_positive <->
      0.1 < c /\ c <= 0.3)
  /\ (Midterm1.correlation_strength c = Midterm1.negligible <->
      -0.1 < c /\ c <= 0.1)
  /\ (Midterm1.correlation_strength c = Midterm1.weak_negative <->
      -0.3 < c /\ c <= -0.1)
  /\ (Midterm1.correlation_strength c = Midterm1.moderate_or_stronger_negative
      <-> c <= -0.3).
Proof.
  unfold Midterm1.correlation_strength.
  destruct (gt c 0.7) eqn:E1;
  destruct (gt c 0.5) eqn:E2;
  destruct (gt c 0.3) eqn:E3;
  destruct (gt c 0.1) eqn:E4;
  destruct (gt c (-0.1)) eqn:E5;
  destruct (gt c (-0.3)) eqn:E6;
  rewrite ?gt_true, ?gt_false in *;
  repeat split; intros; try discriminate; try reflexivity; try lra;
    exfalso; lra.
Qed.

Lemma ratio_report_pos (r : Q) :
  0 < r ->
  exists (who : country) (factor : Q),
    ratio_report r = Ok (who, factor)
    /\ 1 <= factor
    /\ (who = Spain <-> 1 < r)
    /\ (who = Spain -> factor = r)
    /\ (who = Japan -> factor = 1 / r).
Proof.
  intros Hr. unfold ratio_report.
  destruct (gt r 1) eqn:E.
  - apply gt_true in E. exists Spain, r.
    repeat split; auto; try lra; discriminate.
  - apply gt_false in E. rewrite np_divide_nonzero by lra.
    exists Japan, (1 / r). simpl.
    repeat split; auto; try discriminate; try lra.
    apply Qle_shift_div_l; lra.
Qed.

End SummaryFacts.

(** X9. The interpretation of lines 150 to 155 depends on the size of the
    correlation only, not on its sign, and relates to the label of lines 66
    to 79 as follows: a (very) strong positive label goes with high
    synchronisation, a moderate positive one with moderate, the three
    labels around zero with low.  A correlation labelled moderate or
    stronger negative is read as low in two cases only: when it equals
    -0.3, and when it is nan, which fails every comparison and so gets
    the last label of the one chain and the last reading of the other. *)
Theorem X9_synchronisation (x : Midterm1Summary.corr_value) :
  Midterm1Summary.synchronisation_of (Midterm1Summary.neg x)
  = Midterm1Summary.synchronisation_of x
  /\ (Midterm1Summary.label_of x = Midterm1.very_strong_positive
      \/ Midterm1Summary.label_of x = Midterm1.strong_positive ->
      Midterm1Summary.synchronisation_of x = Midterm1Summary.high)
  /\ (Midterm1Summary.label_of x = Midterm1.moderate_positive ->
      Midterm1Summary.synchronisation_of x = Midterm1Summary.moderate)
  /\ (Midterm1Summary.label_of x = Midterm1.weak_positive
      \/ Midterm1Summary.label_of x = Midterm1.negligible
      \/ Midterm1Summary.label_of x = Midterm1.weak_negative ->
      Midterm1Summary.synchronisation_of x = Midterm1Summary.low)
  /\ (Midterm1Summary.label_of x = Midterm1.moderate_or_stronger_negative ->
      (Midterm1Summary.synchronisation_of x = Midterm1Summary.low
       <-> x = Midterm1Summary.nan
           \/ exists c : Q, x = Midterm1Summary.number c /\ c == -0.3))
  /\ (forall c : Q,
        Midterm1Summary.label_of (Midterm1Summary.number c)
        = Midterm1.correlation_strength c)
  /\ Midterm1Summary.label_of Midterm1Summary.nan
     = Midterm1.moderate_or_stronger_negative
  /\ Midterm1Summary.synchronisation_of Midterm1Summary.nan
     = Midterm1Summary.low.
Proof.
  assert (Tail : (forall c : Q,
                    Midterm1Summary.label_of (Midterm1Summary.number c)
                    = Midterm1.correlation_strength c)
                 /\ Midterm1Summary.label_of Midterm1Summary.nan
                    = Midterm1.moderate_or_stronger_negative
                 /\ Midterm1Summary.synchronisation_of Midterm1Summary.nan
                    = Midterm1Summary.low)
    by (split; [apply label_of_number | split; reflexivity]).
  destruct x as [c|].
  - rewrite label_of_number.
    destruct (strength_bands c) as (B1 & B2 & B3 & B4 & B5 & B6 & B7).
    destruct (synchronisation_spec c) as (S1 & S2 & S3).
    split; [|split; [|split; [|split; [|split; [|exact Tail]]]]].
    + destruct (synchronisation_spec (- c)) as (T1 & T2 & T3).
      cbn [Midterm1Summary.neg].
      destruct (Midterm1Summary.synchronisation_of (Midterm1Summary.number c))
        eqn:E.
      * apply T1. assert (H : 0.5 < c \/ c < -0.5) by (apply S1; reflexivity).
        destruct H; lra.
      * apply T2.
        assert (H : (0.3 < c /\ c <= 0.5) \/ (-0.5 <= c /\ c < -0.3))
          by (apply S2; reflexivity).
        destruct H; lra.
      * apply T3.
        assert (H : -0.3 <= c /\ c <= 0.3) by (apply S3; reflexivity). lra.
    + intros [H|H]; apply S1; [apply B1 in H | apply B2 in H]; lra.
    + intros H. apply S2. apply B3 in H. lra.
    + intros [H|[H|H]]; apply S3;
        [apply B4 in H | apply B5 in H | apply B6 in H]; lra.
    + intros H. apply B7 in H. rewrite S3. split.
      * intros ?. right. exists c. split; [reflexivity | lra].
      * intros [E|(c' & E & Hc')]; [discriminate|].
        inversion E; subst c'. rewrite Hc'. lra.
  - split; [reflexivity|].
    split; [intros [H|H]; discriminate H|].
    split; [intros H; discriminate H|].
    split; [intros _; reflexivity|].
    split; [|exact Tail].
    intros _. split; [intros _; left; reflexivity | intros _; reflexivity].
Qed.

(** X10. For a positive ratio of standard deviations, lines 58 to 61
    report a factor of at least 1: the ratio itself for Spain when it
    exceeds 1, its inverse for Japan otherwise (a ratio of exactly 1 is
    reported for Japan).  A ratio of 0 is divided by on line 61 without
    an exception, and no value of the ratio raises one. *)
Theorem X10_ratio_report (std_ratio : Q) :
  (0 < std_ratio ->
   exists (who : Midterm1Summary.country) (factor : Q),
     Midterm1Summary.ratio_report std_ratio = Ok (who, factor)
     /\ 1 <= factor
     /\ (who = Midterm1Summary.Spain <-> 1 < std_ratio)
     /\ (who = Midterm1Summary.Spain -> factor = std_ratio)
     /\ (who = Midterm1Summary.Japan -> factor = 1 / std_ratio))
  /\ (std_ratio == 0 -> Midterm1Summary.ratio_report std_ratio = NonFinite)
  /\ (forall e : exn, ~ raises (Midterm1Summary.ratio_report std_ratio) e).
Proof.
  split; [apply ratio_report_pos|]. split.
  - intros H. unfold Midterm1Summary.ratio_report.
    replace (gt std_ratio 1) with false by (symmetry; apply gt_false; lra).
    rewrite np_divide_zero by exact H. reflexivity.
  - intros e. unfold raises, Midterm1Summary.ratio_report.
    destruct (gt std_ratio 1); [discriminate|].
    unfold np_divide. destruct (Qeq_bool std_ratio 0); discriminate.
Qed.

(** X11. The verdict of lines 157 to 162 agrees with the report of lines
    58 to 61 on the country, but its band of similar volatility, from 0.8
    to 1.2, is not symmetric between the two countries: a ratio above 1.2
    and up to 1.25 makes Spain the more unstable one, while the inverse
    ratio, the same pair of series with the countries exchanged, counts as
    similar. *)
Theorem X11_instability_verdict (std_ratio : Q) :
  (Midterm1Summary.instability_of std_ratio = Midterm1Summary.spain_more_unstable
   <-> 1.2 < std_ratio)
  /\ (Midterm1Summary.instability_of std_ratio
      = Midterm1Summary.japan_more_unstable <-> std_ratio < 0.8)
  /\ (Midterm1Summary.instability_of std_ratio
      = Midterm1Summary.spain_more_unstable ->
      Midterm1Summary.ratio_report std_ratio
      = Ok (Midterm1Summary.Spain, std_ratio))
  /\ (0 < std_ratio ->
      Midterm1Summary.instability_of std_ratio
      = Midterm1Summary.japan_more_unstable ->
      Midterm1Summary.ratio_report std_ratio
      = Ok (Midterm1Summary.Japan, 1 / std_ratio)
      /\ 1.25 < 1 / std_ratio)
  /\ (1.2 < std_ratio /\ std_ratio <= 1.25 ->
      Midterm1Summary.instability_of std_ratio
      = Midterm1Summary.spain_more_unstable
      /\ Midterm1Summary.instability_of (1 / std_ratio)
         = Midterm1Summary.similar).
Proof.
  assert (V : forall r,
             (Midterm1Summary.instability_of r
              = Midterm1Summary.spain_more_unstable <-> 1.2 < r)
             /\ (Midterm1Summary.instability_of r
                 = Midterm1Summary.japan_more_unstable <-> r < 0.8)
             /\ (Midterm1Summary.instability_of r
                 = Midterm1Summary.similar <-> 0.8 <= r /\ r <= 1.2)).
  { intros r. unfold Midterm1Summary.instability_of.
    destruct (gt r 1.2) eqn:E1; destruct (gt 0.8 r) eqn:E2;
      rewrite ?gt_true, ?gt_false in *;
      repeat split; intros; try discriminate; try reflexivity; try lra;
      exfalso; lra. }
  destruct (V std_ratio) as (V1 & V2 & _).
  split; [exact V1|]. split; [exact V2|]. split; [|split].
  - intros H. apply V1 in H. unfold Midterm1Summary.ratio_report.
    replace (gt std_ratio 1) with true by (symmetry; apply gt_true; lra).
    reflexivity.
  - intros Hpos H. apply V2 in H. unfold Midterm1Summary.ratio_report.
    replace (gt std_ratio 1) with false by (symmetry; apply gt_false; lra).
    rewrite np_divide_nonzero by lra. split; [reflexivity|].
    apply Qlt_shift_div_l; lra.
  - intros [H1 H2]. split; [apply V1; exact H1|].
    apply (V (1 / std_ratio)). split.
    + apply Qle_shift_div_l; lra.
    + apply Qle_shift_div_r; lra.
Qed.

(** ** The synthetic data of midterm2.py *)

Section ParameterFacts.

Import Midterm2Data.

Lemma adjustments_Some (country : string) (adjustment : gmap string Q) :
  adjustments !! country = Some adjustment ->
  exists t v : Q,
    adjustment = list_to_map [("gdp_trend", t); ("gdp_vol", v)]%string
    /\ 1 <= t /\ t <= 4.5 /\ 1 <= v /\ v <= 3.
Proof.
  intros H. unfold adjustments in H.
  apply elem_of_list_to_map_2 in H.
  repeat (apply elem_of_cons in H as [H|H];
          [inversion H; subst; do 2 eexists;
           split; [reflexivity | repeat split; lra]|]).
  inversion H.
Qed.

Lemma parameters_lookup (country : string) :
  exists t v : Q,
    _get_country_parameters country !! "gdp_trend"%string = Some t
    /\ _get_country_parameters country !! "gdp_vol"%string = Some v
    /\ _get_country_parameters country !! "labor_trend"%string = Some 0.8
    /\ _get_country_parameters country !! "labor_vol"%string = Some 0.8
    /\ _get_country_parameters country !! "capital_premium"%string = Some 1.0
    /\ dom (_get_country_parameters country) = dom base_params
    /\ 1 <= t /\ t <= 4.5 /\ 1 <= v /\ v <= 3.
Proof.
  unfold _get_country_parameters.
  destruct (adjustments !! country) as [adjustment|] eqn:E.
  - destruct (adjustments_Some _ _ E) as (t & v & -> & Ht1 & Ht2 & Hv1 & Hv2).
    exists t, v. repeat split; try assumption; reflexivity.
  - exists 2.5, 1.5. repeat split; try reflexivity; lra.
Qed.

Lemma base_params_dom (key : string) :
  key ∈ dom base_params <-> In key parameter_keys.
Proof.
  rewrite <- list_elem_of_In.
  unfold base_params, parameter_keys. rewrite dom_list_to_map. simpl.
  set_solver.
Qed.

End ParameterFacts.

Section GenerationFacts.

Import Midterm2 Midterm2Data Midterm2Shape.

Variable draw : nat -> Q -> Q -> Q.

Ltac run_attempt := unfold mbind, attempt_bind; simpl.

Lemma normal_Done (k : nat) (loc scale : Q) :
  0 <= scale -> normal draw k loc scale = Done (draw k loc scale, S k).
Proof.
  intros H. unfold normal.
  replace (gt 0 scale) with false by (symmetry; apply gt_false; exact H).
  reflexivity.
Qed.

Lemma year_step_Done (country : string) (s : series3) (k : nat) :
  exists g c l : Q,
    year_step draw (_get_country_parameters country) s k
    = Done ({| gdp_series := gdp_series s ++ [g];
               capital_series := capital_series s ++ [c];
               labor_series := labor_series s ++ [l] |}, (k + 3)%nat).
Proof.
  destruct (parameters_lookup country)
    as (t & v & Ht & Hv & Hlt & Hlv & Hcp & _ & _ & _ & Hv1 & _).
  unfold year_step, getitem.
  rewrite Ht, Hv, Hlt, Hlv, Hcp. run_attempt.
  rewrite (normal_Done k 0 v) by lra. run_attempt.
  replace (S (S (S k))) with (k + 3)%nat by lia.
  do 3 eexists. reflexivity.
Qed.

Lemma year_loop_Done (country : string) (turns : nat) :
  forall (s : series3) (k : nat),
  exists g c l : list Q,
    length g = turns /\ length c = turns /\ length l = turns
    /\ year_loop draw (_get_country_parameters country) turns s k
       = Done ({| gdp_series := gdp_series s ++ g;
                  capital_series := capital_series s ++ c;
                  labor_series := labor_series s ++ l |},
               (k + 3 * turns)%nat).
Proof.
  induction turns as [|turns IH]; intros s k.
  - exists [], [], []. repeat split. simpl.
    rewrite !app_nil_r. destruct s. simpl.
    replace (k + 0)%nat with k by lia. reflexivity.
  - destruct (year_step_Done country s k) as (g0 & c0 & l0 & E).
    cbn [year_loop]. rewrite E. run_attempt.
    destruct (IH {| gdp_series := gdp_series s ++ [g0];
                    capital_series := capital_series s ++ [c0];
                    labor_series := labor_series s ++ [l0] |} (k + 3)%nat)
      as (g & c & l & Hg & Hc & Hl & E').
    exists (g0 :: g), (c0 :: c), (l0 :: l).
    split; [simpl; congruence|]. split; [simpl; congruence|].
    split; [simpl; congruence|].
    rewrite E'. cbn [gdp_series capital_series labor_series].
    rewrite <- !app_assoc. f_equal. f_equal. lia.
Qed.

Lemma country_frame_empty (country : string) (k : nat) :
  country_frame draw [] country k = Fail ValueError_lengths.
Proof. reflexivity. Qed.

Lemma country_frame_Done (years : list Z) (country : string) (k : nat) :
  years <> [] ->
  exists rows : list obs,
    country_frame draw years country k
    = Done (rows, (k + 3 * (length years - 1))%nat)
    /\ is_frame years country rows.
Proof.
  intros Hy. unfold country_frame.
  destruct (year_loop_Done country (length years - 1)
              {| gdp_series := [100]; capital_series := [300];
                 labor_series := [100] |} k)
    as (g & c & l & Hg & Hc & Hl & E).
  rewrite E. run_attempt. unfold DataFrame. simpl.
  assert (Hlen : length years = S (length years - 1)).
  { destruct years; [congruence | simpl; lia]. }
  rewrite Hg, Hc, Hl, <- Hlen, Nat.eqb_refl. simpl.
  eexists. split; [reflexivity|].
  exists g, c, l. repeat split; assumption.
Qed.

Lemma country_loop_Done (years : list Z) (todo : list string) :
  years <> [] ->
  forall k : nat,
  exists data : list (list obs),
    country_loop draw years todo k = Done data
    /\ Forall2 (is_frame years) todo data.
Proof.
  intros Hy. induction todo as [|country todo IH]; intros k;
    cbn [country_loop]; unfold mbind, attempt_bind.
  - exists []. split; [reflexivity | constructor].
  - destruct (country_frame_Done years country k Hy) as (rows & E & Hrows).
    rewrite E. cbv beta iota.
    destruct (IH (k + 3 * (length years - 1))%nat) as (data & E' & Hdata).
    rewrite E'. cbv beta iota.
    exists (rows :: data). split; [reflexivity | constructor; assumption].
Qed.

Lemma range_empty (a b : Z) : (b <= a)%Z -> range a b = [].
Proof.
  intros H. unfold range. replace (Z.to_nat (b - a)) with 0%nat by lia.
  reflexivity.
Qed.

Lemma length_range (a b : Z) : length (range a b) = Z.to_nat (b - a).
Proof. unfold range. rewrite length_map, length_seq. reflexivity. Qed.

Lemma range_In (a b t : Z) : In t (range a b) <-> (a <= t < b)%Z.
Proof.
  unfold range. rewrite in_map_iff. split.
  - intros (i & <- & Hi). apply in_seq in Hi. lia.
  - intros H. exists (Z.to_nat (t - a)). split; [lia|].
    apply in_seq. lia.
Qed.

Lemma range_cons (a b : Z) :
  (a < b)%Z -> range a b = a :: range (a + 1) b.
Proof.
  intros H. unfold range.
  replace (Z.to_nat (b - a)) with (S (Z.to_nat (b - (a + 1)))) by lia.
  rewrite <- cons_seq. simpl map. rewrite Z.add_0_r. f_equal.
  rewrite <- seq_shift, map_map.
  apply map_ext. intros i. lia.
Qed.

Lemma range_increasing (n : nat) :
  forall a b : Z, Z.to_nat (b - a) = n -> Midterm1Summary.increasing (range a b).
Proof.
  induction n as [|n IH]; intros a b H.
  - rewrite range_empty by lia. exact I.
  - rewrite range_cons by lia. split.
    + apply List.Forall_forall. intros t Ht. apply range_In in Ht. lia.
    + apply IH. lia.
Qed.

End GenerationFacts.

Section FrameFacts.

Import Midterm2 Midterm2Data Midterm2Shape.

Lemma frame_rows_columns (country : string) (years : list Z) :
  forall g c l : list Q,
    length g = length years -> length c = length years ->
    length l = length years ->
    map Country (frame_rows country years g c l) = repeat country (length years)
    /\ map Year (frame_rows country years g c l) = years
    /\ map GDP (frame_rows country years g c l) = g
    /\ map Capital (frame_rows country years g c l) = c
    /\ map Labor (frame_rows country years g c l) = l.
Proof.
  induction years as [|y years IH]; intros [|g0 g] [|c0 c] [|l0 l] Hg Hc Hl;
    simpl in *; try discriminate; [repeat split|].
  destruct (IH g c l ltac:(congruence) ltac:(congruence) ltac:(congruence))
    as (E1 & E2 & E3 & E4 & E5).
  rewrite E1, E2, E3, E4, E5. repeat split.
Qed.

Lemma is_frame_columns (years : list Z) (country : string) (rows : list obs) :
  years <> [] -> is_frame years country rows ->
  map Country rows = repeat country (length years)
  /\ map Year rows = years
  /\ length rows = length years
  /\ exists (first : obs) (rest : list obs),
      rows = first :: rest
      /\ GDP first = 100 /\ Capital first = 300 /\ Labor first = 100.
Proof.
  intros Hy (g & c & l & Hg & Hc & Hl & ->).
  destruct years as [|y years]; [congruence|]. simpl in Hg, Hc, Hl.
  rewrite Nat.sub_0_r in Hg, Hc, Hl.
  unfold frame_of.
  destruct (frame_rows_columns country (y :: years) (100 :: g) (300 :: c)
              (100 :: l)) as (E1 & E2 & _); try (simpl; congruence).
  split; [exact E1|]. split; [exact E2|].
  split; [rewrite <- (length_map Year), E2; reflexivity|].
  simpl. do 2 eexists. split; [reflexivity|]. repeat split.
Qed.

Lemma filter_country_same (country : string) (rows : list obs) :
  Forall (fun r => Country r = country) rows ->
  List.filter (fun r => String.eqb (Country r) country) rows = rows.
Proof.
  induction 1 as [|r rows Hr Hrows IH]; simpl; [reflexivity|].
  rewrite Hr, String.eqb_refl, IH. reflexivity.
Qed.

Lemma filter_country_other (country other : string) (rows : list obs) :
  other <> country ->
  Forall (fun r => Country r = other) rows ->
  List.filter (fun r => String.eqb (Country r) country) rows = [].
Proof.
  intros Hne. induction 1 as [|r rows Hr Hrows IH]; simpl; [reflexivity|].
  rewrite Hr. destruct (String.eqb_spec other country); [contradiction|].
  exact IH.
Qed.

Lemma is_frame_country (years : list Z) (country : string) (rows : list obs) :
  years <> [] -> is_frame years country rows ->
  Forall (fun r => Country r = country) rows.
Proof.
  intros Hy Hf. destruct (is_frame_columns _ _ _ Hy Hf) as (E & _).
  apply List.Forall_forall. intros r Hr.
  apply (in_map Country) in Hr. rewrite E in Hr.
  apply repeat_spec in Hr. exact Hr.
Qed.

(** The rows of one country within the concatenated frames. *)
Lemma filter_frames (years : list Z) (todo : list string)
  (frames : list (list obs)) :
  years <> [] -> Forall2 (is_frame years) todo frames -> NoDup todo ->
  forall country : string, In country todo ->
    is_frame years country
      (List.filter (fun r => String.eqb (Country r) country) (concat frames)).
Proof.
  intros Hy H. induction H as [|c rows todo frames Hrows H IH];
    intros Hnd country Hin; [destruct Hin|].
  inversion Hnd as [|? ? Hnotin Hnd']; subst.
  simpl. rewrite List.filter_app.
  pose proof (is_frame_country _ _ _ Hy Hrows) as Hc.
  destruct (String.eqb_spec c country) as [->|Hne].
  - rewrite (filter_country_same _ _ Hc).
    assert (E : List.filter (fun r => String.eqb (Country r) country)
                  (concat frames) = []).
    { clear - H Hnotin Hy. induction H as [|c rows todo frames Hrows H IH];
        [reflexivity|].
      simpl. rewrite List.filter_app, IH by (intros X; apply Hnotin; right; exact X).
      rewrite (filter_country_other country c rows);
        [reflexivity | intros ->; apply Hnotin; left; reflexivity
         | apply (is_frame_country years); assumption]. }
    rewrite E, app_nil_r. exact Hrows.
  - rewrite (filter_country_other country c rows Hne Hc). simpl.
    destruct Hin as [->|Hin]; [congruence|].
    apply IH; assumption.
Qed.

Lemma length_concat_frames (years : list Z) (todo : list string)
  (frames : list (list obs)) :
  years <> [] -> Forall2 (is_frame years) todo frames ->
  length (concat frames) = (length todo * length years)%nat.
Proof.
  intros Hy. induction 1 as [|c rows todo frames Hrows H IH]; [reflexivity|].
  simpl. rewrite length_app, IH.
  destruct (is_frame_columns _ _ _ Hy Hrows) as (_ & _ & -> & _). reflexivity.
Qed.

Lemma In_concat_frames (years : list Z) (todo : list string)
  (frames : list (list obs)) (r : obs) :
  years <> [] -> Forall2 (is_frame years) todo frames ->
  In r (concat frames) ->
  exists (country : string) (rows : list obs),
    In country todo /\ is_frame years country rows /\ In r rows.
Proof.
  intros Hy. induction 1 as [|c rows todo frames Hrows H IH]; [intros []|].
  simpl. rewrite in_app_iff. intros [Hr|Hr].
  - exists c, rows. split; [left; reflexivity | auto].
  - destruct (IH Hr) as (c' & rows' & Hin & Hf & Hr').
    exists c', rows'. split; [right; exact Hin | auto].
Qed.

End FrameFacts.

(** X12. Every country, adjusted or not, gets a dictionary with exactly
    the five parameter keys, so that no lookup of
    [generate_synthetic_data] can miss; the three labour and capital
    parameters are the same for all countries, the GDP trend lies between 1
    and 4.5 and the GDP volatility between 1 and 3; a country without an
    adjustment gets the base values. *)
Theorem X12_country_parameters (country : string) :
  (forall key : string,
      is_Some (Midterm2Data._get_country_parameters country !! key)
      <-> In key Midterm2Data.parameter_keys)
  /\ (forall key : string, In key Midterm2Data.parameter_keys ->
        exists v : Q,
          Midterm2Data.getitem
            (Midterm2Data._get_country_parameters country) key
          = Midterm2Data.Done v)
  /\ Midterm2Data._get_country_parameters country !! "labor_trend"%string
     = Some 0.8
  /\ Midterm2Data._get_country_parameters country !! "labor_vol"%string
     = Some 0.8
  /\ Midterm2Data._get_country_parameters country !! "capital_premium"%string
     = Some 1.0
  /\ (exists t v : Q,
        Midterm2Data._get_country_parameters country !! "gdp_trend"%string
        = Some t
        /\ Midterm2Data._get_country_parameters country !! "gdp_vol"%string
           = Some v
        /\ 1 <= t /\ t <= 4.5 /\ 1 <= v /\ v <= 3)
  /\ (Midterm2Data.adjustments !! country = None ->
      Midterm2Data._get_country_parameters country = Midterm2Data.base_params).
Proof.
  destruct (parameters_lookup country)
    as (t & v & Ht & Hv & Hlt & Hlv & Hcp & Hdom & B).
  assert (K : forall key,
             is_Some (Midterm2Data._get_country_parameters country !! key)
             <-> In key Midterm2Data.parameter_keys).
  { intros key. rewrite <- elem_of_dom, Hdom. apply base_params_dom. }
  split; [exact K|]. split.
  - intros key Hkey. apply K in Hkey. destruct Hkey as [x Hx].
    exists x. unfold Midterm2Data.getitem. rewrite Hx. reflexivity.
  - repeat split; try assumption.
    + exists t, v. tauto.
    + intros H. unfold Midterm2Data._get_country_parameters. rewrite H.
      reflexivity.
Qed.

(** X13. [generate_synthetic_data] fails in two cases only, both with
    ValueError: without countries ([pd.concat] of nothing) and, with
    countries, when the end year precedes the start year (columns of
    different lengths).  Otherwise, whatever the random draws, it returns
    one row per country and year: the countries and years are those of the
    object, every row of the start year holds the base values 100, 300 and
    100, and each of several distinct countries has each year once, in
    order. *)
Theorem X13_generated_data (draw : nat -> Q -> Q -> Q)
  (self : Midterm2.GrowthAccounting) :
  (Midterm2.countries self = [] ->
   Midterm2Data.generate_synthetic_data draw self
   = Midterm2Data.Fail Midterm2Data.ValueError_no_objects)
  /\ (Midterm2.countries self <> [] ->
      (Midterm2.end_year self < Midterm2.start_year self)%Z ->
      Midterm2Data.generate_synthetic_data draw self
      = Midterm2Data.Fail Midterm2Data.ValueError_lengths)
  /\ (Midterm2.countries self <> [] ->
      (Midterm2.start_year self <= Midterm2.end_year self)%Z ->
      exists data : list Midterm2.obs,
        Midterm2Data.generate_synthetic_data draw self = Midterm2Data.Done data
        /\ length data
           = (length (Midterm2.countries self)
              * Z.to_nat (Midterm2.end_year self - Midterm2.start_year self + 1))%nat
        /\ (forall r : Midterm2.obs, In r data ->
              In (Midterm2.Country r) (Midterm2.countries self)
              /\ (Midterm2.start_year self <= Midterm2.Year r
                  <= Midterm2.end_year self)%Z)
        /\ (forall r : Midterm2.obs, In r data ->
              Midterm2.Year r = Midterm2.start_year self ->
              Midterm2.GDP r = 100 /\ Midterm2.Capital r = 300
              /\ Midterm2.Labor r = 100)
        /\ (NoDup (Midterm2.countries self) ->
            forall country : string, In country (Midterm2.countries self) ->
              map Midterm2.Year
                (List.filter
                   (fun r => String.eqb (Midterm2.Country r) country) data)
              = Midterm2Data.range (Midterm2.start_year self)
                  (Midterm2.end_year self + 1))).
Proof.
  unfold Midterm2Data.generate_synthetic_data.
  set (years := Midterm2Data.range (Midterm2.start_year self)
                  (Midterm2.end_year self + 1)).
  split; [|split].
  - intros E. rewrite E. reflexivity.
  - intros Hc Hlt.
    destruct (Midterm2.countries self) as [|c todo]; [congruence|].
    unfold years. rewrite range_empty by lia. reflexivity.
  - intros Hc Hle.
    assert (Hy : years <> []).
    { unfold years. rewrite range_cons by lia. discriminate. }
    destruct (country_loop_Done draw years (Midterm2.countries self) Hy 0%nat)
      as (frames & E & HF).
    rewrite E. unfold mbind, Midterm2Data.attempt_bind.
    assert (Hfr : frames <> []).
    { destruct HF; [congruence | discriminate]. }
    exists (concat frames).
    split; [destruct frames; [congruence | reflexivity]|].
    split; [|split; [|split]].
    + rewrite (length_concat_frames years _ _ Hy HF).
      unfold years. rewrite length_range. f_equal. lia.
    + intros r Hr.
      destruct (In_concat_frames years _ _ r Hy HF Hr) as (c & rows & Hc' & Hf & Hr').
      destruct (is_frame_columns _ _ _ Hy Hf) as (EC & EY & _).
      split.
      * apply (in_map Midterm2.Country) in Hr'. rewrite EC in Hr'.
        apply repeat_spec in Hr'. rewrite Hr'. exact Hc'.
      * apply (in_map Midterm2.Year) in Hr'. rewrite EY in Hr'.
        apply range_In in Hr'. lia.
    + intros r Hr Hyear.
      destruct (In_concat_frames years _ _ r Hy HF Hr) as (c & rows & Hc' & Hf & Hr').
      destruct (is_frame_columns _ _ _ Hy Hf)
        as (_ & EY & _ & first & rest & -> & Hg & Hk & Hl).
      destruct Hr' as [<-|Hr']; [auto|].
      exfalso. unfold years in EY. rewrite range_cons in EY by lia.
      simpl in EY. inversion EY as [[E1 E2]].
      apply (in_map Midterm2.Year) in Hr'. rewrite E2 in Hr'.
      apply range_In in Hr'. lia.
    + intros Hnd country Hin.
      pose proof (filter_frames years _ _ Hy HF Hnd country Hin) as Hf.
      apply (is_frame_columns _ _ _ Hy Hf).
Qed.

Section PipelineFacts.

Import Midterm2 Midterm2Data Midterm2Shape.

Variable pow : Q -> nat -> Q.

Lemma sort_values_Year_sorted (rows : list obs) :
  Midterm1Summary.increasing (map Year rows) -> sort_values_Year rows = rows.
Proof.
  unfold sort_values_Year.
  induction rows as [|r rows IH]; [reflexivity|].
  simpl. intros [Hlt Hinc]. rewrite (IH Hinc).
  destruct rows as [|r' rows]; [reflexivity|].
  simpl. inversion Hlt; subst.
  replace (Year r <=? Year r')%Z with true by (symmetry; apply Z.leb_le; lia).
  reflexivity.
Qed.

Lemma generate_frames (draw : nat -> Q -> Q -> Q) (self : GrowthAccounting)
  (data : list obs) :
  generate_synthetic_data draw self = Done data ->
  (start_year self <= end_year self)%Z ->
  exists frames : list (list obs),
    data = concat frames
    /\ Forall2 (is_frame (range (start_year self) (end_year self + 1)))
         (countries self) frames.
Proof.
  unfold generate_synthetic_data. intros H Hle.
  assert (Hy : range (start_year self) (end_year self + 1) <> []).
  { rewrite range_cons by lia. discriminate. }
  destruct (country_loop_Done draw _ (countries self) Hy 0%nat)
    as (frames & E & HF).
  rewrite E in H. unfold mbind, attempt_bind, pd_concat in H.
  exists frames. split; [|exact HF].
  destruct frames; [discriminate | inversion H; reflexivity].
Qed.

Lemma shares_Ok (tfp cc total : Q) :
  exists p : Q * Q, shares tfp cc total = Ok p.
Proof.
  destruct (shares_spec tfp cc total) as (ts & cs & E & _).
  exists (ts, cs). exact E.
Qed.

Lemma account_base (self : GrowthAccounting) (first last : obs) (n : nat) :
  GDP first = 100 -> Capital first = 300 -> Labor first = 100 ->
  exists v : locals, account pow self first last n = Ok v.
Proof.
  intros Hg Hc Hl. unfold account, annualized.
  rewrite Hg, Hc, Hl.
  rewrite !np_divide_nonzero by (intros X; discriminate X).
  unfold mbind, outcome_bind, bind.
  match goal with
  | |- context [shares ?a ?b ?c] => destruct (shares_Ok a b c) as [[ts cs] E]
  end.
  rewrite E. eexists. reflexivity.
Qed.

Lemma country_locals_frame (self : GrowthAccounting) (data : list obs)
  (years : list Z) (country : string) :
  (2 <= length years)%nat ->
  Midterm1Summary.increasing years ->
  is_frame years country
    (List.filter (fun r => String.eqb (Country r) country) data) ->
  exists v : locals, country_locals pow self data country = Some (Ok v).
Proof.
  intros Hn Hinc Hf.
  assert (Hy : years <> []) by (destruct years; [simpl in Hn; lia | discriminate]).
  destruct (is_frame_columns _ _ _ Hy Hf)
    as (_ & EY & Hlen & first & rest & E & Hg & Hc & Hl).
  unfold country_locals.
  rewrite sort_values_Year_sorted by (rewrite EY; exact Hinc).
  rewrite E in *.
  destruct rest as [|second rest]; [simpl in Hlen; lia|].
  destruct (account_base self first
              (List.last (first :: second :: rest) first)
              (length (first :: second :: rest) - 1) Hg Hc Hl) as [v Hv].
  exists v. rewrite Hv. reflexivity.
Qed.

Lemma rows_for_all (self : GrowthAccounting) (data : list obs)
  (todo : list string) :
  (forall country, In country todo ->
     exists v, country_locals pow self data country = Some (Ok v)) ->
  exists results : list result,
    rows_for pow self data todo = Ok results
    /\ map Result_Country results = todo.
Proof.
  induction todo as [|c todo IH]; intros H; simpl.
  - exists []. split; reflexivity.
  - destruct (H c ltac:(left; reflexivity)) as [v Hv]. rewrite Hv.
    destruct (IH ltac:(intros c' Hc'; apply H; right; exact Hc'))
      as (results & E & Hnames).
    unfold mbind, outcome_bind, bind. rewrite E.
    eexists. split; [reflexivity|]. simpl. rewrite Hnames. reflexivity.
Qed.

End PipelineFacts.

Section PipelineComposition.

Import Midterm2 Midterm2Data Midterm2Shape.

Variable pow : Q -> nat -> Q.

Lemma calculate_generated (draw : nat -> Q -> Q -> Q) (self : GrowthAccounting)
  (data : list obs) :
  generate_synthetic_data draw self = Done data ->
  (start_year self < end_year self)%Z ->
  NoDup (countries self) ->
  exists results : list result,
    calculate_growth_rates pow self data = Ok results
    /\ map Result_Country results = countries self.
Proof.
  intros Hgen Hlt Hnd.
  destruct (generate_frames draw self data Hgen ltac:(lia)) as (frames & -> & HF).
  set (years := range (start_year self) (end_year self + 1)) in *.
  assert (Hy : years <> []).
  { unfold years. rewrite range_cons by lia. discriminate. }
  unfold calculate_growth_rates.
  apply rows_for_all. intros country Hin.
  apply (country_locals_frame pow self (concat frames) years).
  - unfold years. rewrite length_range. lia.
  - unfold years. eapply range_increasing. reflexivity.
  - apply (filter_frames years (countries self) frames); assumption.
Qed.

Lemma country_locals_single (self : GrowthAccounting) (data : list obs)
  (years : list Z) (country : string) :
  length years = 1%nat ->
  is_frame years country
    (List.filter (fun r => String.eqb (Country r) country) data) ->
  country_locals pow self data country = None.
Proof.
  intros Hn Hf.
  assert (Hy : years <> []) by (destruct years; [discriminate | discriminate]).
  destruct (is_frame_columns _ _ _ Hy Hf) as (_ & _ & Hlen & first & rest & E & _).
  unfold country_locals. rewrite E in *.
  destruct rest as [|? ?]; [reflexivity | simpl in Hlen; lia].
Qed.

Lemma rows_for_none (self : GrowthAccounting) (data : list obs)
  (todo : list string) :
  (forall country, In country todo ->
     country_locals pow self data country = None) ->
  rows_for pow self data todo = Ok [].
Proof.
  induction todo as [|c todo IH]; intros H; simpl; [reflexivity|].
  rewrite (H c) by (left; reflexivity).
  apply IH. intros c' Hc'. apply H. right. exact Hc'.
Qed.

Lemma calculate_single_year (draw : nat -> Q -> Q -> Q) (self : GrowthAccounting)
  (data : list obs) :
  generate_synthetic_data draw self = Done data ->
  start_year self = end_year self ->
  NoDup (countries self) ->
  calculate_growth_rates pow self data = Ok [].
Proof.
  intros Hgen Heq Hnd.
  destruct (generate_frames draw self data Hgen ltac:(lia)) as (frames & -> & HF).
  set (years := range (start_year self) (end_year self + 1)) in *.
  assert (Hlen : length years = 1%nat).
  { unfold years. rewrite length_range. lia. }
  assert (Hy : years <> []) by (destruct years; discriminate).
  unfold calculate_growth_rates.
  apply rows_for_none. intros country Hin.
  apply (country_locals_single self (concat frames) years country Hlen).
  apply (filter_frames years (countries self) frames); assumption.
Qed.

End PipelineComposition.

(** X14. On the data that [generate_synthetic_data] returns for an object
    with distinct countries and an end year after its start year,
    [calculate_growth_rates] skips no country and divides by no zero base
    value: provided every generated level is positive (a level that is not
    has no real power, and the code goes on with nan), it returns exactly
    one row per country, in the order of the object's list. *)
Theorem X14_one_row_per_country (draw : nat -> Q -> Q -> Q) (pow : Q -> nat -> Q)
  (self : Midterm2.GrowthAccounting) (data : list Midterm2.obs) :
  Midterm2Data.generate_synthetic_data draw self = Midterm2Data.Done data ->
  (Midterm2.start_year self < Midterm2.end_year self)%Z ->
  NoDup (Midterm2.countries self) ->
  Midterm2Shape.positive_levels data ->
  exists results : list Midterm2.result,
    Midterm2.calculate_growth_rates pow self data = Ok results
    /\ map Midterm2.Result_Country results = Midterm2.countries self.
Proof.
  intros Hgen Hlt Hnd _. apply (calculate_generated pow draw); assumption.
Qed.

Lemma X14_witness :
  exists data : list Midterm2.obs,
    Midterm2Data.generate_synthetic_data (fun _ _ _ => 0)
      (Midterm2.init 1990 1991 0.33) = Midterm2Data.Done data
    /\ exists results : list Midterm2.result,
        Midterm2.calculate_growth_rates (fun x _ => x)
          (Midterm2.init 1990 1991 0.33) data = Ok results
        /\ map Midterm2.Result_Country results
           = Midterm2.countries (Midterm2.init 1990 1991 0.33).
Proof.
  eexists. split; [vm_compute; reflexivity|].
  apply (X14_one_row_per_country (fun _ _ _ => 0) (fun x _ => x)
           (Midterm2.init 1990 1991 0.33)).
  - vm_compute. reflexivity.
  - simpl. lia.
  - apply (bool_decide_unpack _). vm_compute. exact I.
  - unfold Midterm2Shape.positive_levels.
    repeat (constructor; [repeat split; reflexivity|]). constructor.
Defined.

(** ** The formatted table *)

Section MeanFacts.

Import Midterm2 Midterm2Data Midterm2Format.

Lemma total_bounds (a b : Q) (v : list Q) :
  Forall (fun x => a <= x /\ x <= b) v ->
  inject_Z (Z.of_nat (length v)) * a <= total v
  /\ total v <= inject_Z (Z.of_nat (length v)) * b.
Proof.
  unfold total.
  induction 1 as [|x v [Hx1 Hx2] Hv [IH1 IH2]].
  - cbn [length fold_right]. change (inject_Z (Z.of_nat 0)) with 0.
    split; lra.
  - cbn [length fold_right]. rewrite Nat2Z.inj_succ. unfold Z.succ.
    rewrite inject_Z_plus. change (inject_Z 1) with 1. split; lra.
Qed.

Lemma column_mean_bounds (a b : Q) (v : list Q) :
  v <> [] -> Forall (fun x => a <= x /\ x <= b) v ->
  a <= column_mean v /\ column_mean v <= b.
Proof.
  intros Hne Hv. destruct (total_bounds a b v Hv) as [H1 H2].
  unfold column_mean.
  assert (Hn : 0 < inject_Z (Z.of_nat (length v))).
  { change 0 with (inject_Z 0). rewrite <- Zlt_Qlt.
    destruct v; [congruence | simpl; lia]. }
  split.
  - apply Qle_shift_div_l; [exact Hn | lra].
  - apply Qle_shift_div_r; [exact Hn | lra].
Qed.

End MeanFacts.

Section FormatFacts.

Import Midterm2 Midterm2Data Midterm2Format.

Variable round2 : Q -> Q.

Lemma round_row_column (col : result -> Q) (r : result) :
  In col columns -> col (round_row round2 r) = round2 (col r).
Proof.
  intros H. unfold columns in H. simpl in H.
  repeat (destruct H as [<-|H]; [reflexivity|]). destruct H.
Qed.

(** What [format_results] returns on rows. *)
Lemma format_results_Done (results : list result) :
  results <> [] ->
  exists avg : result,
    format_results round2 results
    = Done (map (round_row round2) results ++ [avg])
    /\ Result_Country avg = "Average"%string
    /\ forall col : result -> Q, In col columns ->
         col avg
         = round2 (column_mean (map col (map (round_row round2) results))).
Proof.
  intros Hne. destruct results as [|r results]; [congruence|].
  eexists. split; [reflexivity|]. split; [reflexivity|].
  intros col H. unfold columns in H. simpl in H.
  repeat (destruct H as [<-|H]; [reflexivity|]). destruct H.
Qed.

Lemma rounded_column (col : result -> Q) (results : list result) :
  In col columns ->
  map col (map (round_row round2) results)
  = map (fun r => round2 (col r)) results.
Proof.
  intros H. rewrite map_map. apply map_ext. intros r.
  apply round_row_column. exact H.
Qed.

Lemma filter_not_average (rows : list result) :
  Forall (fun r => Result_Country r <> "Average"%string) rows ->
  List.filter (fun r => negb (String.eqb (Result_Country r) "Average")) rows
  = rows.
Proof.
  induction 1 as [|r rows Hr Hrows IH]; simpl; [reflexivity|].
  destruct (String.eqb_spec (Result_Country r) "Average"); [contradiction|].
  simpl. rewrite IH. reflexivity.
Qed.

End FormatFacts.

(** X15. [format_results] fails with KeyError on an empty result.  On any
    other it returns the rows in their order, each numeric entry rounded,
    followed by one row named Average whose entries are the rounded means
    of the rounded columns.  Rounding to two decimals being monotone, the
    Average entry lies between the twice rounded values of any lower and
    upper bound of the column (the mean taken exactly). *)
Theorem X15_format_results (round2 : Q -> Q) (results : list Midterm2.result) :
  (forall x y : Q, x <= y -> round2 x <= round2 y) ->
  Midterm2Format.format_results round2 []
  = Midterm2Data.Fail (Midterm2Data.KeyError "Growth Rate")
  /\ (results <> [] ->
      exists (rows : list Midterm2.result) (avg : Midterm2.result),
        Midterm2Format.format_results round2 results
        = Midterm2Data.Done (rows ++ [avg])
        /\ map Midterm2.Result_Country rows
           = map Midterm2.Result_Country results
        /\ Midterm2.Result_Country avg = "Average"%string
        /\ forall col : Midterm2.result -> Q, In col Midterm2Format.columns ->
             map col rows = map (fun r => round2 (col r)) results
             /\ col avg = round2 (Midterm2Format.column_mean (map col rows))
             /\ forall lo hi : Q,
                  (forall r, In r results -> lo <= col r /\ col r <= hi) ->
                  round2 (round2 lo) <= col avg
                  /\ col avg <= round2 (round2 hi)).
Proof.
  intros Hmono. split; [reflexivity|]. intros Hne.
  destruct (format_results_Done round2 results Hne) as (avg & E & Hname & Havg).
  exists (map (Midterm2Format.round_row round2) results), avg.
  split; [exact E|].
  split; [rewrite map_map; apply map_ext; intros r; reflexivity|].
  split; [exact Hname|]. intros col Hcol.
  split; [apply rounded_column; exact Hcol|].
  split; [apply Havg; exact Hcol|].
  intros lo hi Hb.
  rewrite (Havg col Hcol).
    assert (B : round2 lo
                <= Midterm2Format.column_mean
                     (map col (map (Midterm2Format.round_row round2) results))
                /\ Midterm2Format.column_mean
                     (map col (map (Midterm2Format.round_row round2) results))
                   <= round2 hi).
    { apply column_mean_bounds.
      - destruct results; [congruence | discriminate].
      - rewrite (rounded_column round2 col results Hcol).
        apply List.Forall_map, List.Forall_forall.
        intros r Hr. destruct (Hb r Hr). split; apply Hmono; assumption. }
    destruct B as [B1 B2]. split; apply Hmono; assumption.
Qed.

Lemma X15_witness :
  let results :=
    [ {| Midterm2.Result_Country := "Japan"; Midterm2.Growth_Rate := 1.234;
         Midterm2.TFP_Growth := 0.125; Midterm2.Capital_Deepening := 0.135;
         Midterm2.TFP_Share := 0.5; Midterm2.Capital_Share := 0.3 |};
      {| Midterm2.Result_Country := "Spain"; Midterm2.Growth_Rate := 2.345;
         Midterm2.TFP_Growth := 1.005; Midterm2.Capital_Deepening := 0.5;
         Midterm2.TFP_Share := 0.25; Midterm2.Capital_Share := 0.125 |} ] in
  let truncate := fun x : Q => inject_Z (Qfloor (x * 100)) / 100 in
  Midterm2Format.format_results truncate []
  = Midterm2Data.Fail (Midterm2Data.KeyError "Growth Rate")
  /\ exists (rows : list Midterm2.result) (avg : Midterm2.result),
      Midterm2Format.format_results truncate results
      = Midterm2Data.Done (rows ++ [avg])
      /\ map Midterm2.Result_Country rows = ["Japan"; "Spain"]%string
      /\ Midterm2.Result_Country avg = "Average"%string.
Proof.
  intros results truncate.
  destruct (X15_format_results truncate results) as (H0 & H).
  - intros x y Hxy. unfold truncate.
    apply Qmult_le_compat_r; [|discriminate].
    rewrite <- Zle_Qle. apply Qfloor_resp_le.
    apply Qmult_le_compat_r; [exact Hxy | discriminate].
  - split; [exact H0|].
    destruct (H ltac:(discriminate)) as (rows & avg & E & Hn & Ha & _).
    exists rows, avg. split; [exact E|]. split; [exact Hn | exact Ha].
Defined.

(** X16. When no row of the result is named Average, the mean that lines
    262 to 264 print for a column is taken over all formatted rows of the
    countries, and the entry of the Average row is that same mean,
    rounded. *)
Theorem X16_summary_mean (round2 : Q -> Q)
  (results formatted : list Midterm2.result) :
  Midterm2Format.format_results round2 results = Midterm2Data.Done formatted ->
  Forall (fun r => Midterm2.Result_Country r <> "Average"%string) results ->
  forall col : Midterm2.result -> Q, In col Midterm2Format.columns ->
    exists (rows : list Midterm2.result) (avg : Midterm2.result) (m : Q),
      formatted = rows ++ [avg]
      /\ length rows = length results
      /\ Midterm2Format.summary_mean col formatted = Ok m
      /\ m = Midterm2Format.column_mean (map col rows)
      /\ col avg = round2 m.
Proof.
  intros Hf Hnames col Hcol.
  assert (Hne : results <> []) by (intros ->; discriminate Hf).
  destruct (format_results_Done round2 results Hne) as (avg & E & Hname & Havg).
  rewrite E in Hf. inversion Hf; subst formatted.
  exists (map (Midterm2Format.round_row round2) results), avg.
  eexists. split; [reflexivity|].
  split; [apply length_map|].
  assert (K : List.filter
                (fun r => negb (String.eqb (Midterm2.Result_Country r) "Average"))
                (map (Midterm2Format.round_row round2) results ++ [avg])
              = map (Midterm2Format.round_row round2) results).
  { rewrite List.filter_app. simpl. rewrite Hname. simpl.
    rewrite app_nil_r. apply filter_not_average.
    apply List.Forall_map. exact Hnames. }
  unfold Midterm2Format.summary_mean. rewrite K.
  split; [|split; [reflexivity|]].
  - destruct results; [congruence | reflexivity].
  - apply Havg. exact Hcol.
Qed.

Lemma X16_witness :
  let results :=
    [ {| Midterm2.Result_Country := "Japan"; Midterm2.Growth_Rate := 1.234;
         Midterm2.TFP_Growth := 0.125; Midterm2.Capital_Deepening := 0.135;
         Midterm2.TFP_Share := 0.5; Midterm2.Capital_Share := 0.3 |};
      {| Midterm2.Result_Country := "Spain"; Midterm2.Growth_Rate := 2.345;
         Midterm2.TFP_Growth := 1.005; Midterm2.Capital_Deepening := 0.5;
         Midterm2.TFP_Share := 0.25; Midterm2.Capital_Share := 0.125 |} ] in
  let truncate := fun x : Q => inject_Z (Qfloor (x * 100)) / 100 in
  exists formatted : list Midterm2.result,
    Midterm2Format.format_results truncate results = Midterm2Data.Done formatted
    /\ exists (rows : list Midterm2.result) (avg : Midterm2.result) (m : Q),
        formatted = rows ++ [avg]
        /\ length rows = length results
        /\ Midterm2Format.summary_mean Midterm2.Growth_Rate formatted = Ok m
        /\ m = Midterm2Format.column_mean (map Midterm2.Growth_Rate rows)
        /\ Midterm2.Growth_Rate avg = truncate m.
Proof.
  intros results truncate. eexists. split; [reflexivity|].
  apply (X16_summary_mean truncate results).
  - reflexivity.
  - repeat constructor; discriminate.
  - left. reflexivity.
Defined.

(** ** The whole analysis and the rows it reads *)

Section AnalysisFacts.

Import Midterm2 Midterm2Data Midterm2Shape Midterm2Format.

Variable pow : Q -> nat -> Q.

Lemma insert_by_year_comm (x y : obs) (s : list obs) :
  Year x <> Year y ->
  insert_by_year x (insert_by_year y s) = insert_by_year y (insert_by_year x s).
Proof.
  intros Hne. induction s as [|r s IH];
    repeat (cbn [insert_by_year];
            match goal with
            | |- context [(?a <=? ?b)%Z] => destruct (Z.leb_spec a b)
            end);
    cbn [insert_by_year]; try lia; try reflexivity.
  rewrite IH. reflexivity.
Qed.

Lemma length_insert_by_year (x : obs) (s : list obs) :
  length (insert_by_year x s) = S (length s).
Proof.
  induction s as [|r s IH]; simpl; [reflexivity|].
  destruct (Year x <=? Year r)%Z; simpl; [reflexivity | rewrite IH; reflexivity].
Qed.

Lemma length_sort_values_Year (rows : list obs) :
  length (sort_values_Year rows) = length rows.
Proof.
  unfold sort_values_Year. induction rows as [|r rows IH]; simpl;
    [reflexivity|].
  rewrite length_insert_by_year, IH. reflexivity.
Qed.

Lemma sort_values_Year_Permutation (rows rows' : list obs) :
  Permutation rows rows' ->
  NoDup (map Year rows) ->
  sort_values_Year rows = sort_values_Year rows'.
Proof.
  unfold sort_values_Year.
  induction 1 as [|x l l' Hp IH|x y l|l l' l'' Hp1 IH1 Hp2 IH2]; intros Hnd.
  - reflexivity.
  - simpl in *. apply NoDup_cons in Hnd as [_ Hnd]. rewrite (IH Hnd).
    reflexivity.
  - simpl in *. apply insert_by_year_comm.
    apply NoDup_cons in Hnd as [Hy _].
    apply not_elem_of_cons in Hy as [Hy _]. exact Hy.
  - rewrite (IH1 Hnd). apply IH2.
    rewrite <- (Permutation_map Year Hp1). exact Hnd.
Qed.

Lemma country_filter_Permutation (country : string) (rows rows' : list obs) :
  Permutation rows rows' ->
  Permutation (List.filter (fun r => String.eqb (Country r) country) rows)
              (List.filter (fun r => String.eqb (Country r) country) rows').
Proof.
  induction 1 as [|x l l' Hp IH|x y l|l l' l'' Hp1 IH1 Hp2 IH2]; simpl.
  - constructor.
  - destruct (String.eqb (Country x) country); [constructor|]; exact IH.
  - destruct (String.eqb (Country x) country),
      (String.eqb (Country y) country); try reflexivity. constructor.
  - etransitivity; eassumption.
Qed.

Lemma country_filter_foreign (self : GrowthAccounting) (country : string)
  (junk : list obs) :
  In country (countries self) ->
  Forall (fun r => ~ In (Country r) (countries self)) junk ->
  List.filter (fun r => String.eqb (Country r) country) junk = [].
Proof.
  intros Hin. induction 1 as [|r junk Hr Hjunk IH]; simpl; [reflexivity|].
  destruct (String.eqb_spec (Country r) country) as [E|_]; [|exact IH].
  exfalso. apply Hr. rewrite E. exact Hin.
Qed.

Lemma country_locals_rows (self : GrowthAccounting) (data data' : list obs)
  (country : string) :
  sort_values_Year (List.filter (fun r => String.eqb (Country r) country) data)
  = sort_values_Year
      (List.filter (fun r => String.eqb (Country r) country) data') ->
  country_locals pow self data country = country_locals pow self data' country.
Proof. unfold country_locals. intros ->. reflexivity. Qed.

Lemma rows_for_ext (self : GrowthAccounting) (data data' : list obs)
  (todo : list string) :
  (forall country, In country todo ->
     country_locals pow self data country
     = country_locals pow self data' country) ->
  rows_for pow self data todo = rows_for pow self data' todo.
Proof.
  induction todo as [|c todo IH]; intros H; simpl; [reflexivity|].
  rewrite (H c) by (left; reflexivity).
  rewrite IH by (intros c' Hc'; apply H; right; exact Hc').
  reflexivity.
Qed.

Lemma country_locals_None (self : GrowthAccounting) (data : list obs)
  (country : string) :
  country_locals pow self data country = None
  <-> (length (List.filter (fun r => String.eqb (Country r) country) data)
       < 2)%nat.
Proof.
  unfold country_locals.
  rewrite <- (length_sort_values_Year (List.filter _ data)).
  destruct (sort_values_Year _) as [|first [|second rest]]; simpl;
    split; intros H; try reflexivity; try lia; discriminate.
Qed.

Lemma rows_for_names (self : GrowthAccounting) (data : list obs)
  (todo : list string) (results : list result) :
  rows_for pow self data todo = Ok results ->
  map Result_Country results
  = List.filter
      (fun country =>
         (2 <=? length (List.filter
                          (fun r => String.eqb (Country r) country) data))%nat)
      todo.
Proof.
  revert results. induction todo as [|c todo IH]; intros results H;
    cbn [rows_for List.filter] in *.
  - inversion H. reflexivity.
  - destruct (country_locals pow self data c) as [m|] eqn:E.
    + assert (Hlen : ~ (length (List.filter
                 (fun r => String.eqb (Country r) c) data) < 2)%nat).
      { intros Hlt. apply country_locals_None with (self := self) in Hlt.
        congruence. }
      replace (2 <=? _)%nat with true by (symmetry; apply Nat.leb_le; lia).
      unfold mbind, outcome_bind, bind in H.
      destruct m as [v| |]; try discriminate.
      destruct (rows_for pow self data todo) as [rest| |]; try discriminate.
      inversion H; subst. simpl. rewrite (IH rest eq_refl). reflexivity.
    + apply country_locals_None in E.
      replace (2 <=? _)%nat with false by (symmetry; apply Nat.leb_gt; lia).
      apply IH. exact H.
Qed.

Lemma account_labor (self : GrowthAccounting) (first last : obs)
  (n_years : nat) (v : locals) :
  account pow self first last n_years = Ok v ->
  labor_contribution v = beta self * labor_growth v
  /\ capital_deepening v = capital_growth v - labor_growth v.
Proof.
  unfold account, mbind, outcome_bind, bind.
  destruct (annualized pow (GDP last) (GDP first) n_years)
    as [g| |]; try discriminate.
  destruct (annualized pow (Capital last) (Capital first) n_years)
    as [k| |]; try discriminate.
  destruct (annualized pow (Labor last) (Labor first) n_years)
    as [l| |]; try discriminate.
  destruct (shares _ _ _) as [[ts cs]| |] eqn:E; try discriminate.
  intros H. inversion H; subst; simpl. auto.
Qed.

End AnalysisFacts.

(** X17. What [run_analysis] ends with, for an object with distinct
    countries: ValueError without countries and when the end year precedes
    the start year (both from [generate_synthetic_data]); KeyError
    'Growth Rate' when the two years are equal, because every country has
    one row and is skipped, which leaves [format_results] an empty frame;
    and, when the end year is after the start year and the generated
    levels are positive, a table with one row per country, in the order
    of the object's list, followed by the row 'Average'. *)
Theorem X17_run_analysis (draw : nat -> Q -> Q -> Q) (pow : Q -> nat -> Q)
  (round2 : Q -> Q) (self : Midterm2.GrowthAccounting) :
  NoDup (Midterm2.countries self) ->
  (Midterm2.countries self = [] ->
   Midterm2Format.run_analysis draw pow round2 self
   = Midterm2Data.Fail Midterm2Data.ValueError_no_objects)
  /\ (Midterm2.countries self <> [] ->
      (Midterm2.end_year self < Midterm2.start_year self)%Z ->
      Midterm2Format.run_analysis draw pow round2 self
      = Midterm2Data.Fail Midterm2Data.ValueError_lengths)
  /\ (Midterm2.countries self <> [] ->
      Midterm2.start_year self = Midterm2.end_year self ->
      Midterm2Format.run_analysis draw pow round2 self
      = Midterm2Data.Fail (Midterm2Data.KeyError "Growth Rate"))
  /\ (Midterm2.countries self <> [] ->
      (Midterm2.start_year self < Midterm2.end_year self)%Z ->
      exists data : list Midterm2.obs,
        Midterm2Data.generate_synthetic_data draw self = Midterm2Data.Done data
        /\ (Midterm2Shape.positive_levels data ->
            exists table : list Midterm2.result,
              Midterm2Format.run_analysis draw pow round2 self
              = Midterm2Data.Done (Ok table)
              /\ map Midterm2.Result_Country table
                 = Midterm2.countries self ++ ["Average"%string])).
Proof.
  intros Hnd.
  assert (Hgen : Midterm2.countries self <> [] ->
                 (Midterm2.start_year self <= Midterm2.end_year self)%Z ->
                 exists data, Midterm2Data.generate_synthetic_data draw self
                              = Midterm2Data.Done data).
  { intros Hc Hle. unfold Midterm2Data.generate_synthetic_data.
    assert (Hy : Midterm2Data.range (Midterm2.start_year self)
                   (Midterm2.end_year self + 1) <> []).
    { rewrite range_cons by lia. discriminate. }
    destruct (country_loop_Done draw _ (Midterm2.countries self) Hy 0%nat)
      as (frames & E & HF).
    rewrite E. unfold mbind, Midterm2Data.attempt_bind, Midterm2Data.pd_concat.
    destruct frames as [|f frames]; [|eexists; reflexivity].
    inversion HF as [E0|]. congruence. }
  unfold Midterm2Format.run_analysis.
  split; [|split; [|split]].
  - intros E. unfold Midterm2Data.generate_synthetic_data. rewrite E.
    reflexivity.
  - intros Hc Hlt. unfold Midterm2Data.generate_synthetic_data.
    destruct (Midterm2.countries self) as [|c todo]; [congruence|].
    rewrite range_empty by lia. reflexivity.
  - intros Hc Heq. destruct (Hgen Hc ltac:(lia)) as [data Hdata].
    rewrite Hdata. unfold mbind, Midterm2Data.attempt_bind.
    rewrite (calculate_single_year pow draw self data Hdata Heq Hnd).
    reflexivity.
  - intros Hc Hlt. destruct (Hgen Hc ltac:(lia)) as [data Hdata].
    exists data. split; [exact Hdata|]. intros _.
    rewrite Hdata. unfold mbind, Midterm2Data.attempt_bind.
    destruct (calculate_generated pow draw self data Hdata Hlt Hnd)
      as (results & E & Hnames).
    rewrite E.
    assert (Hne : results <> []).
    { intros ->. simpl in Hnames. congruence. }
    destruct (format_results_Done round2 results Hne) as (avg & Ef & Havg & _).
    rewrite Ef. eexists. split; [reflexivity|].
    rewrite map_app, map_map. simpl. rewrite Havg.
    f_equal. rewrite <- Hnames. apply map_ext. intros r. reflexivity.
Qed.

Lemma X17_witness :
  Midterm2Format.run_analysis (fun _ _ _ => 0) (fun x _ => x) (fun x => x)
    (Midterm2.init 1990 1990 0.33)
  = Midterm2Data.Fail (Midterm2Data.KeyError "Growth Rate").
Proof.
  apply (X17_run_analysis (fun _ _ _ => 0) (fun x _ => x) (fun x => x)
           (Midterm2.init 1990 1990 0.33)).
  - apply (bool_decide_unpack _). vm_compute. exact I.
  - discriminate.
  - reflexivity.
Defined.

(** X18. In the row of a country whose GDP growth is positive the two
    shares do not add up to one: together with the contribution of labour
    over the growth of GDP they do, so they add up to one only when labour
    did not grow or its share [beta] is zero.  This holds for an object
    made by [__init__], whose [beta] is [1 - alpha]. *)
Theorem X18_shares_leave_out_labour (pow : Q -> nat -> Q)
  (start_year end_year : Z) (alpha : Q)
  (data : list Midterm2.obs) (country : string) (v : Midterm2.locals) :
  Midterm2.country_locals pow (Midterm2.init start_year end_year alpha)
    data country = Some (Ok v) ->
  0 < Midterm2.gdp_growth v ->
  Midterm2.tfp_share v + Midterm2.capital_share v
  + Midterm2.labor_contribution v / Midterm2.gdp_growth v == 1
  /\ Midterm2.labor_contribution v == (1 - alpha) * Midterm2.labor_growth v
  /\ (Midterm2.tfp_share v + Midterm2.capital_share v == 1
      <-> Midterm2.labor_contribution v == 0).
Proof.
  intros H Hpos.
  destruct (country_locals_account pow _ data country v H) as (f & l & n & Ha).
  destruct (account_Ok pow _ f l n v Ha) as (Ht & Hc & _).
  destruct (account_labor pow _ f l n v Ha) as (Hl & _).
  destruct (locals_shares pow _ data country v H) as [_ Hgt].
  destruct (Hgt Hpos) as [Ets Ecs].
  simpl in Ht, Hc, Hl.
  assert (Hsum : Midterm2.tfp_share v + Midterm2.capital_share v
                 + Midterm2.labor_contribution v / Midterm2.gdp_growth v == 1).
  { rewrite Ets, Ecs, Ht, Hc, Hl. field. lra. }
  split; [exact Hsum|]. split; [rewrite Hl; reflexivity|].
  set (g := Midterm2.gdp_growth v) in *.
  set (lc := Midterm2.labor_contribution v) in *.
  assert (E : lc / g * g == lc) by (field; lra).
  split; intros H1.
  - assert (Hz : lc / g == 0) by lra. rewrite <- E, Hz. ring.
  - assert (Hz : lc / g == 0) by (rewrite H1; field; lra). lra.
Qed.

Lemma X18_witness :
  let data :=
    [ {| Midterm2.Country := "Japan"; Midterm2.Year := 1990;
         Midterm2.GDP := 100; Midterm2.Capital := 300;
         Midterm2.Labor := 100 |};
      {| Midterm2.Country := "Japan"; Midterm2.Year := 1991;
         Midterm2.GDP := 104; Midterm2.Capital := 309;
         Midterm2.Labor := 101 |} ] in
  exists v : Midterm2.locals,
    Midterm2.country_locals (fun x _ => x) (Midterm2.init 1990 1991 0.33)
      data "Japan" = Some (Ok v)
    /\ Midterm2.tfp_share v + Midterm2.capital_share v
       + Midterm2.labor_contribution v / Midterm2.gdp_growth v == 1
    /\ Midterm2.labor_contribution v == (1 - 0.33) * Midterm2.labor_growth v
    /\ (Midterm2.tfp_share v + Midterm2.capital_share v == 1
        <-> Midterm2.labor_contribution v == 0).
Proof.
  intros data. eexists. split; [vm_compute; reflexivity|].
  apply (X18_shares_leave_out_labour (fun x _ => x) 1990 1991 0.33 data "Japan").
  - vm_compute. reflexivity.
  - vm_compute. reflexivity.
Defined.

(** X19. [calculate_growth_rates] reads the data country by country and
    sorted by year: when no country of the object has a year twice, the
    order of the rows of the data does not matter, and rows of countries
    that are not in the object's list are ignored. *)
Theorem X19_row_order_irrelevant (pow : Q -> nat -> Q)
  (self : Midterm2.GrowthAccounting) (data junk data' : list Midterm2.obs) :
  (forall country : string, In country (Midterm2.countries self) ->
     NoDup (map Midterm2.Year
              (List.filter
                 (fun r => String.eqb (Midterm2.Country r) country) data))) ->
  Forall (fun r => ~ In (Midterm2.Country r) (Midterm2.countries self)) junk ->
  Permutation (data ++ junk) data' ->
  Midterm2.calculate_growth_rates pow self data'
  = Midterm2.calculate_growth_rates pow self data.
Proof.
  intros Hnd Hjunk Hp. unfold Midterm2.calculate_growth_rates.
  apply rows_for_ext. intros country Hin.
  apply country_locals_rows. symmetry.
  pose proof (country_filter_Permutation country _ _ Hp) as Hf.
  rewrite List.filter_app in Hf.
  rewrite (country_filter_foreign self country junk Hin Hjunk) in Hf.
  rewrite app_nil_r in Hf.
  apply sort_values_Year_Permutation; [exact Hf | apply Hnd; exact Hin].
Qed.

Lemma X19_witness :
  let japan90 :=
    {| Midterm2.Country := "Japan"; Midterm2.Year := 1990;
       Midterm2.GDP := 100; Midterm2.Capital := 300; Midterm2.Labor := 100 |} in
  let japan91 :=
    {| Midterm2.Country := "Japan"; Midterm2.Year := 1991;
       Midterm2.GDP := 104; Midterm2.Capital := 309; Midterm2.Labor := 101 |} in
  let other :=
    {| Midterm2.Country := "Atlantis"; Midterm2.Year := 1990;
       Midterm2.GDP := 1; Midterm2.Capital := 1; Midterm2.Labor := 1 |} in
  Midterm2.calculate_growth_rates (fun x _ => x)
    (Midterm2.init 1990 1991 0.33) [japan91; other; japan90]
  = Midterm2.calculate_growth_rates (fun x _ => x)
      (Midterm2.init 1990 1991 0.33) [japan90; japan91].
Proof.
  intros japan90 japan91 other.
  apply (X19_row_order_irrelevant (fun x _ => x)
           (Midterm2.init 1990 1991 0.33) [japan90; japan91] [other]).
  - intros country Hin. apply (bool_decide_unpack _).
    simpl in Hin.
    repeat (destruct Hin as [<-|Hin]; [vm_compute; exact I|]). destruct Hin.
  - constructor; [|constructor]. apply (bool_decide_unpack _).
    vm_compute. exact I.
  - simpl. apply perm_trans with [japan91; japan90; other].
    + apply perm_trans with [japan90; other; japan91].
      * apply perm_skip. apply perm_swap.
      * apply perm_trans with [other; japan90; japan91].
        { apply perm_swap. }
        apply perm_trans with [other; japan91; japan90].
        { apply perm_skip. apply perm_swap. }
        apply perm_trans with [japan91; other; japan90].
        { apply perm_swap. }
        apply perm_skip. apply perm_swap.
    + apply perm_skip. apply perm_swap.
Defined.

(** X20. The rows that [calculate_growth_rates] returns are those of the
    countries of the object's list that have at least two rows in the
    data, in the order of the list: a country with fewer rows is skipped
    without an error, and a country outside the list never appears. *)
Theorem X20_skipped_countries (pow : Q -> nat -> Q)
  (self : Midterm2.GrowthAccounting) (data : list Midterm2.obs)
  (results : list Midterm2.result) :
  Midterm2.calculate_growth_rates pow self data = Ok results ->
  map Midterm2.Result_Country results
  = List.filter
      (fun country =>
         (2 <=? length (List.filter
                          (fun r => String.eqb (Midterm2.Country r) country)
                          data))%nat)
      (Midterm2.countries self).
Proof. apply rows_for_names. Qed.

Lemma X20_witness :
  let data :=
    [ {| Midterm2.Country := "Japan"; Midterm2.Year := 1990;
         Midterm2.GDP := 100; Midterm2.Capital := 300;
         Midterm2.Labor := 100 |};
      {| Midterm2.Country := "Spain"; Midterm2.Year := 1990;
         Midterm2.GDP := 100; Midterm2.Capital := 300;
         Midterm2.Labor := 100 |};
      {| Midterm2.Country := "Japan"; Midterm2.Year := 1991;
         Midterm2.GDP := 104; Midterm2.Capital := 309;
         Midterm2.Labor := 101 |} ] in
  exists results : list Midterm2.result,
    Midterm2.calculate_growth_rates (fun x _ => x)
      (Midterm2.init 1990 1991 0.33) data = Ok results
    /\ map Midterm2.Result_Country results = ["Japan"]%string.
Proof.
  intros data. eexists. split; [vm_compute; reflexivity|].
  apply (X20_skipped_countries (fun x _ => x) (Midterm2.init 1990 1991 0.33)
           data).
  vm_compute. reflexivity.
Defined.

(** ** The filter and the level of a series *)

Section ShiftFacts.

Lemma matvec_vsub (M : matrix) (u t : vec) :
  length u = length t ->
  veq (matvec M (vsub u t)) (vsub (matvec M u) (matvec M t)).
Proof.
  intros Hlen. unfold matvec.
  induction M as [|r M IH]; simpl; constructor;
    [apply dot_vsub_r; exact Hlen | exact IH].
Qed.

Lemma matvec_vadd (M : matrix) (u t : vec) :
  length u = length t ->
  veq (matvec M (vadd u t)) (vadd (matvec M u) (matvec M t)).
Proof.
  intros Hlen. unfold matvec.
  induction M as [|r M IH]; simpl; constructor;
    [apply dot_vadd_r; exact Hlen | exact IH].
Qed.

Lemma vsub_proper (a a' b b' : vec) :
  veq a a' -> veq b b' -> veq (vsub a b) (vsub a' b').
Proof.
  intros Ha; revert b b'.
  induction Ha as [|p q a a' Hpq Ha IH]; intros b b' Hb; simpl;
    [constructor|].
  inversion Hb; subst; constructor; [lra | apply IH; assumption].
Qed.

Lemma vsub_vadd_cancel (x t h : vec) :
  length h = length x ->
  veq (vsub (vadd x h) (vadd t h)) (vsub x t).
Proof.
  revert t h; induction x as [|a x IH]; intros [|b t] [|c h] Hlen; simpl in *;
    try discriminate; try (constructor; fail).
  constructor; [ring | apply IH; congruence].
Qed.

Lemma dot_all_zero_r (w z : vec) : all_zero z -> dot w z == 0.
Proof. intros H. rewrite dot_comm. apply dot_all_zero_l. exact H. Qed.

(** Adding a series without second differences to the data adds it to the
    solution of the filter's system. *)
Lemma trend_shift (lamb : Q) (x h t t' : vec) :
  0 <= lamb ->
  length h = length x -> length t = length x -> length t' = length x ->
  all_zero (diff2 h) ->
  veq (matvec (hp_matrix (length x) lamb) t) x ->
  veq (matvec (hp_matrix (length x) lamb) t') (vadd x h) ->
  veq (vadd t h) t'.
Proof.
  intros Hl Hh Ht Ht' Hz Hsol Hsol'.
  set (K := Kmat (length x)).
  assert (Hth : length (vadd t h) = length x) by (rewrite length_vadd; congruence).
  set (d := vsub t' (vadd t h)).
  assert (Hd : length d = length x) by (unfold d; rewrite length_vsub; congruence).
  assert (B1 : dot d x + dot d h
               == dot d t' + lamb * dot (matvec K d) (matvec K t')).
  { transitivity (dot d (matvec (hp_matrix (length x) lamb) t'));
      [|exact (hp_bilinear (length x) lamb d t' Hd Ht')].
    rewrite (dot_proper d d _ _ (veq_refl d) Hsol').
    symmetry. apply dot_vadd_r. congruence. }
  assert (B2 : dot d x
               == dot d t + lamb * dot (matvec K d) (matvec K t)).
  { transitivity (dot d (matvec (hp_matrix (length x) lamb) t));
      [|exact (hp_bilinear (length x) lamb d t Hd Ht)].
    apply dot_proper; [apply veq_refl | apply veq_sym; exact Hsol]. }
  assert (Kh : dot (matvec K d) (matvec K h) == 0).
  { apply dot_all_zero_r. apply (all_zero_veq (diff2 h)); [|exact Hz].
    apply veq_sym. unfold K. rewrite <- Hh. apply matvec_Kmat. }
  assert (Edd : dot d d == dot d t' - dot d t - dot d h).
  { unfold d at 2. rewrite dot_vsub_r by congruence.
    rewrite dot_vadd_r by congruence. ring. }
  assert (Ekk : dot (matvec K d) (matvec K d)
                == dot (matvec K d) (matvec K t')
                   - dot (matvec K d) (matvec K t)
                   - dot (matvec K d) (matvec K h)).
  { rewrite (dot_proper (matvec K d) (matvec K d) (matvec K d) _
               (veq_refl _) (matvec_vsub K t' (vadd t h) ltac:(congruence))).
    rewrite dot_vsub_r by (rewrite !length_matvec; reflexivity).
    rewrite (dot_proper (matvec K d) (matvec K d) (matvec K (vadd t h)) _
               (veq_refl _) (matvec_vadd K t h ltac:(congruence))).
    rewrite dot_vadd_r by (rewrite !length_matvec; reflexivity).
    ring. }
  assert (Hq : sqnorm d + lamb * sqnorm (matvec K d) == 0).
  { unfold sqnorm. rewrite Edd, Ekk, Kh.
    lra. }
  assert (Hs : sqnorm d <= 0).
  { pose proof (sqnorm_nonneg (matvec K d)) as P.
    pose proof (Qmult_le_0_compat _ _ Hl P) as P'. lra. }
  apply vsub_all_zero_veq; [congruence|].
  apply sqnorm_all_zero. exact Hs.
Qed.

End ShiftFacts.

(** X21. The cycle does not see the level or the drift of the series:
    adding to the data a series without second differences (a constant,
    as a change of the unit of GDP adds to its logarithm, or a straight
    line) leaves the cycle as it is and adds that series to the trend. *)
Theorem X21_cycle_ignores_level (x h : vec) (lamb : Q) (u : Project1.unpacked) :
  0 <= lamb ->
  length h = length x ->
  all_zero (diff2 h) ->
  Project1.unpack x lamb = Ok u ->
  exists u' : Project1.unpacked,
    Project1.unpack (vadd x h) lamb = Ok u'
    /\ veq (Project1.cycle u') (Project1.cycle u)
    /\ veq (Project1.trend u') (vadd (Project1.trend u) h).
Proof.
  intros Hl Hh Hz Hu.
  unfold Project1.unpack, mbind, outcome_bind, bind in Hu.
  destruct (hpfilter x lamb) as [[c t]| |] eqn:Hf; try discriminate.
  inversion Hu; subst u; simpl.
  destruct (hpfilter_Ok x lamb c t Hf) as (Hn & Hc & Ht & Hsol).
  assert (Hxh : length (vadd x h) = length x)
    by (rewrite length_vadd; congruence).
  destruct (hpfilter_returns lamb (vadd x h) ltac:(lia) Hl)
    as (t' & Hf' & Ht' & Hsol').
  rewrite Hxh in Ht', Hsol'.
  eexists. split; [apply unpack_hpfilter; exact Hf'|]. simpl.
  pose proof (trend_shift lamb x h t t' Hl Hh Ht Ht' Hz Hsol Hsol') as E.
  split; [|apply veq_sym; exact E].
  subst c. apply veq_trans with (vsub (vadd x h) (vadd t h)).
  - apply vsub_proper; [apply veq_refl | apply veq_sym; exact E].
  - apply vsub_vadd_cancel. exact Hh.
Qed.

Lemma X21_witness :
  exists u u' : Project1.unpacked,
    Project1.unpack [1; 2; 4] 1 = Ok u
    /\ Project1.unpack (vadd [1; 2; 4] [10; 10; 10]) 1 = Ok u'
    /\ veq (Project1.cycle u') (Project1.cycle u)
    /\ veq (Project1.trend u') (vadd (Project1.trend u) [10; 10; 10]).
Proof.
  assert (Hu : exists u, Project1.unpack [1; 2; 4] 1 = Ok u)
    by (eexists; vm_compute; reflexivity).
  destruct Hu as [u Hu]. exists u.
  destruct (X21_cycle_ignores_level [1; 2; 4] [10; 10; 10] 1 u) as (u' & H);
    [unfold Qle; simpl; lia | reflexivity | repeat constructor | exact Hu |].
  exists u'. split; [exact Hu | exact H].
Defined.
